(** * scoutfs_status crawler: a shallow embedding of [cmd_crawl.py]

    The development follows [src/utils/status/scoutfs_status/cmd_crawl.py]
    and the helper [handle_unicode] of [util.py].  Python integers are [Z],
    Python [str] values are lists of Unicode code points, dictionaries
    keyed by paths or numeric ids are [gmap]s, and the module-level mutable
    globals are the fields of one [state] record that every function
    threads explicitly. *)

From Stdlib Require Import ZArith List Bool Lia Permutation String Ascii.
From Stdlib Require Import DecimalString.
From stdpp Require Import base option list gmap.

Local Open Scope Z_scope.
Set Default Proof Using "Type".

(** ** Python strings *)

(** A Python [str] is a sequence of code points.  File names that are not
    valid UTF-8 reach Python (through [os.scandir]) with the offending
    bytes mapped to lone surrogates, which is what makes the strict
    encoding of [handle_unicode] fail. *)
Abbreviation pystr := (list Z).

Definition py (s : string) : pystr :=
  List.map (fun a => Z.of_N (N_of_ascii a)) (list_ascii_of_string s).

Definition sep : Z := 47.
Definition question_mark : Z := 63.
Definition underscore : Z := 95.
Definition space : Z := 32.
Definition dot : Z := 46.

Definition is_surrogate (c : Z) : bool := (55296 <=? c) && (c <=? 57343).

Fixpoint startswith (s p : pystr) : bool :=
  match p, s with
  | [], _ => true
  | _ :: _, [] => false
  | b :: p', a :: s' => (a =? b) && startswith s' p'
  end.

(** [p in s] for strings: substring containment. *)
Fixpoint contains (s p : pystr) : bool :=
  startswith s p ||
  match s with
  | [] => false
  | _ :: s' => contains s' p
  end.

Definition endswith_char (s : pystr) (c : Z) : bool :=
  match List.rev s with
  | [] => false
  | a :: _ => a =? c
  end.

Fixpoint lstrip_char (c : Z) (s : pystr) : pystr :=
  match s with
  | [] => []
  | a :: s' => if a =? c then lstrip_char c s' else s
  end.

Definition rstrip_char (c : Z) (s : pystr) : pystr :=
  List.rev (lstrip_char c (List.rev s)).

Definition replace_char (old new : Z) (s : pystr) : pystr :=
  List.map (fun a => if a =? old then new else a) s.

(** [str.lower] on a code point of the ASCII range. *)
Definition lower_char (c : Z) : Z :=
  if (65 <=? c) && (c <=? 90) then c + 32 else c.

Definition is_ascii (s : pystr) : bool := List.forallb (fun c => c <? 128) s.

(** ** [util.handle_unicode] *)

(** [f.encode('utf-8', errors=err).decode('utf-8')]: with [err = 'strict']
    the encoder raises on a lone surrogate (the function then raises
    [UnicodeError], here [None]); with [err = 'replace'] every such code
    point is encoded as [?].  Encodable code points survive the round trip
    unchanged. *)
Definition handle_unicode (f : pystr) (ignore_errors : bool) : option pystr :=
  if ignore_errors
  then Some (List.map (fun c => if is_surrogate c then question_mark else c) f)
  else if List.existsb is_surrogate f then None else Some f.

(** ** [os.path] (posixpath) *)

(** The part of [p] after its last separator: [p[p.rfind('/') + 1:]]. *)
Fixpoint after_last_sep (p : pystr) : pystr :=
  match p with
  | [] => []
  | c :: p' =>
      if List.existsb (Z.eqb sep) p' then after_last_sep p'
      else if c =? sep then p' else p
  end.

Definition basename (p : pystr) : pystr := after_last_sep p.

Definition all_sep (s : pystr) : bool := List.forallb (Z.eqb sep) s.

Definition dirname (p : pystr) : pystr :=
  let head := List.firstn (List.length p - List.length (after_last_sep p))%nat p in
  if negb (all_sep head) then rstrip_char sep head else head.

Definition path_join (a b : pystr) : pystr :=
  if startswith b [sep] then b
  else if (match a with [] => true | _ => false end) || endswith_char a sep
       then a ++ b
       else a ++ sep :: b.

(** [pathlib.Path(name).suffix] for a single path component. *)
Fixpoint after_last_dot (s : pystr) : option pystr :=
  match s with
  | [] => None
  | c :: s' =>
      match after_last_dot s' with
      | Some t => Some t
      | None => if c =? dot then Some s else None
      end
  end.

Definition suffix (name : pystr) : pystr :=
  match name with
  | [] => []
  | c :: rest =>
      match after_last_dot rest with
      | Some t => match t with
                  | [_] => []
                  | _ => t
                  end
      | None => []
      end
  end.

Definition get_file_name (file : pystr) (ignore_errors : bool) : option pystr :=
  handle_unicode file ignore_errors.

Definition get_dir_name (path : pystr) (ignore_errors : bool) : option pystr :=
  handle_unicode (basename path) ignore_errors.

Definition get_parent_path (path : pystr) (ignore_errors : bool) : option pystr :=
  handle_unicode (dirname path) ignore_errors.

(** ** The file system seen by the crawler *)

(** What [os.stat] and [DirEntry.stat] return.  Time stamps are the
    integer seconds the code keeps ([int(st_mtime)]). *)
Record stat_result := {
  st_size : Z;
  st_blocks : Z;
  st_uid : Z;
  st_gid : Z;
  st_nlink : Z;
  st_ino : Z;
  st_mtime : Z;
  st_atime : Z;
  st_ctime : Z
}.

(** A directory is what [os.stat] says about it ([None]: the call raises
    [OSError]) and what [os.scandir] lists ([None]: the call raises
    [OSError]).  An entry is a symbolic link, a directory, or anything
    else, which the code treats as a file; [None] for a file's stat means
    that [DirEntry.stat] raises [OSError]. *)
Inductive dir :=
| Dir (dstat : option stat_result) (listing : option (list entry))
with entry :=
| ESymlink (name : pystr)
| EDir (name : pystr) (sub : dir)
| EFile (name : pystr) (fstat : option stat_result).

Definition entry_name (e : entry) : pystr :=
  match e with
  | ESymlink n => n
  | EDir n _ => n
  | EFile n _ => n
  end.

(** ** Documents *)

(** An owner or group is the resolved name, or the numeric id itself when
    the lookup fails. *)
Inductive ident :=
| IdName (n : pystr)
| IdNum (id : Z).

Record file_doc := {
  f_size : Z;
  f_owner : ident;
  f_group : ident;
  f_name : pystr;
  f_size_du : Z;
  f_nlink : Z;
  f_ino : Z;
  f_parent_path : pystr;
  f_extension : pystr;
  f_mtime : pystr;
  f_atime : pystr;
  f_ctime : pystr
}.

Record dir_doc := {
  d_size : Z;
  d_owner : ident;
  d_group : ident;
  d_name : pystr;
  d_size_du : Z;
  d_file_count : Z;
  d_dir_count : Z;
  d_nlink : Z;
  d_parent_path : pystr;
  d_ino : Z;
  d_mtime : pystr;
  d_atime : pystr;
  d_ctime : pystr
}.

(** The ['type'] key of a document is the constructor. *)
Inductive document :=
| FileDoc (f : file_doc)
| DirDoc (d : dir_doc).

(** The ['name'] key of a document. *)
Definition record_name (data : document) : pystr :=
  match data with
  | FileDoc f => f_name f
  | DirDoc d => d_name d
  end.

(** A value of the [sizes] dictionary: the full directory document stored
    for the root by the depth-0 pass, or the four-key dictionary stored for
    a first-level subtree. *)
Inductive sizes_entry :=
| SzDoc (d : dir_doc)
| SzTop (size size_du dir_count file_count : Z).

Definition sz_size (e : sizes_entry) : Z :=
  match e with SzDoc d => d_size d | SzTop s _ _ _ => s end.
Definition sz_size_du (e : sizes_entry) : Z :=
  match e with SzDoc d => d_size_du d | SzTop _ s _ _ => s end.
Definition sz_dir_count (e : sizes_entry) : Z :=
  match e with SzDoc d => d_dir_count d | SzTop _ _ c _ => c end.
Definition sz_file_count (e : sizes_entry) : Z :=
  match e with SzDoc d => d_file_count d | SzTop _ _ _ c => c end.

(** [e['size'] += a; e['size_du'] += b; e['dir_count'] += c;
    e['file_count'] += d]. *)
Definition sz_add (e : sizes_entry) (a b c d : Z) : sizes_entry :=
  match e with
  | SzDoc r =>
      SzDoc {| d_size := d_size r + a; d_owner := d_owner r;
               d_group := d_group r; d_name := d_name r;
               d_size_du := d_size_du r + b;
               d_file_count := d_file_count r + d;
               d_dir_count := d_dir_count r + c;
               d_nlink := d_nlink r; d_parent_path := d_parent_path r;
               d_ino := d_ino r; d_mtime := d_mtime r;
               d_atime := d_atime r; d_ctime := d_ctime r |}
  | SzTop s sd dc fc => SzTop (s + a) (sd + b) (dc + c) (fc + d)
  end.

(** ** The search backend *)

(** The calls on the Elasticsearch client that the backend has carried
    out, in the order the crawler made them. *)
Inductive es_call :=
| EsBulk (docs : list document)
| EsIndexRoot (e : sizes_entry)
| EsIndexEnd (size size_du filecount dircount : Z)
| EsIndexStart
| EsRefresh
| EsCount
| EsDelete
| EsCreate (index : pystr)
| EsPutSettings (defaults : bool).

(** ** Module-level state *)

(** The globals of [cmd_crawl.py].  The dictionaries [dircount],
    [filecount], [inodecount], [skipdircount], [skipfilecount] and
    [total_documents] are only ever indexed with the one root that [scan]
    initialises them for, so each is the integer stored under that key.
    [bulktime] holds wall-clock durations and [scan_paths] is a log of the
    running workers; neither is read by the code modelled here. *)
Record state := {
  quit : bool;
  emptyindex : bool;
  warnings : Z;
  sizes : gmap pystr sizes_entry;
  gid_name : gmap Z ident;
  uid_name : gmap Z ident;
  dircount : Z;
  filecount : Z;
  inodecount : Z;
  skipdircount : Z;
  skipfilecount : Z;
  total_documents : Z;
  es_log : list es_call
}.

Definition incr_warnings (st : state) : state :=
  {| quit := quit st; emptyindex := emptyindex st;
     warnings := warnings st + 1;
     sizes := sizes st; gid_name := gid_name st; uid_name := uid_name st;
     dircount := dircount st; filecount := filecount st;
     inodecount := inodecount st; skipdircount := skipdircount st;
     skipfilecount := skipfilecount st;
     total_documents := total_documents st; es_log := es_log st |}.

Definition set_sizes (m : gmap pystr sizes_entry) (st : state) : state :=
  {| quit := quit st; emptyindex := emptyindex st; warnings := warnings st;
     sizes := m; gid_name := gid_name st; uid_name := uid_name st;
     dircount := dircount st; filecount := filecount st;
     inodecount := inodecount st; skipdircount := skipdircount st;
     skipfilecount := skipfilecount st;
     total_documents := total_documents st; es_log := es_log st |}.

Definition set_uid_name (m : gmap Z ident) (st : state) : state :=
  {| quit := quit st; emptyindex := emptyindex st; warnings := warnings st;
     sizes := sizes st; gid_name := gid_name st; uid_name := m;
     dircount := dircount st; filecount := filecount st;
     inodecount := inodecount st; skipdircount := skipdircount st;
     skipfilecount := skipfilecount st;
     total_documents := total_documents st; es_log := es_log st |}.

Definition set_gid_name (m : gmap Z ident) (st : state) : state :=
  {| quit := quit st; emptyindex := emptyindex st; warnings := warnings st;
     sizes := sizes st; gid_name := m; uid_name := uid_name st;
     dircount := dircount st; filecount := filecount st;
     inodecount := inodecount st; skipdircount := skipdircount st;
     skipfilecount := skipfilecount st;
     total_documents := total_documents st; es_log := es_log st |}.

Definition add_total_documents (n : Z) (st : state) : state :=
  {| quit := quit st; emptyindex := emptyindex st; warnings := warnings st;
     sizes := sizes st; gid_name := gid_name st; uid_name := uid_name st;
     dircount := dircount st; filecount := filecount st;
     inodecount := inodecount st; skipdircount := skipdircount st;
     skipfilecount := skipfilecount st;
     total_documents := total_documents st + n; es_log := es_log st |}.

Definition log_es (c : es_call) (st : state) : state :=
  {| quit := quit st; emptyindex := emptyindex st; warnings := warnings st;
     sizes := sizes st; gid_name := gid_name st; uid_name := uid_name st;
     dircount := dircount st; filecount := filecount st;
     inodecount := inodecount st; skipdircount := skipdircount st;
     skipfilecount := skipfilecount st;
     total_documents := total_documents st; es_log := es_log st ++ [c] |}.

Definition set_emptyindex (b : bool) (st : state) : state :=
  {| quit := quit st; emptyindex := b; warnings := warnings st;
     sizes := sizes st; gid_name := gid_name st; uid_name := uid_name st;
     dircount := dircount st; filecount := filecount st;
     inodecount := inodecount st; skipdircount := skipdircount st;
     skipfilecount := skipfilecount st;
     total_documents := total_documents st; es_log := es_log st |}.

Definition set_quit (b : bool) (st : state) : state :=
  {| quit := b; emptyindex := emptyindex st; warnings := warnings st;
     sizes := sizes st; gid_name := gid_name st; uid_name := uid_name st;
     dircount := dircount st; filecount := filecount st;
     inodecount := inodecount st; skipdircount := skipdircount st;
     skipfilecount := skipfilecount st;
     total_documents := total_documents st; es_log := es_log st |}.

(** ** Outcomes *)

(** How a call ends: it returns, an exception leaves it, or the process is
    gone ([os._exit]).  None of these undoes what was written to the
    globals or to the worker's [documents] list before, so every outcome
    comes with both. *)
Inductive exn :=
| OSError
| UnicodeError
| KeyError
| ValueError
| KeyboardInterrupt
| SystemExit (code : Z).

Inductive signal (A : Type) :=
| Ret (a : A)
| Exc (e : exn)
| OsExit (code : Z).
Arguments Ret {A} a.
Arguments Exc {A} e.
Arguments OsExit {A} code.

(** ** The crawler *)

(** The local variables of one [get_tree_attr] frame. *)
Record locals := {
  l_size : Z;
  l_dirs : Z;
  l_files : Z;
  l_size_du : Z;
  l_f_count : Z;
  l_d_count : Z;
  l_total_docs : Z;
  l_file_skip_count : Z;
  l_dir_skip_count : Z;
  l_parent_path : option pystr
}.

Definition init_locals : locals :=
  {| l_size := 0; l_dirs := 0; l_files := 0; l_size_du := 0;
     l_f_count := 0; l_d_count := 0; l_total_docs := 0;
     l_file_skip_count := 0; l_dir_skip_count := 0;
     l_parent_path := None |}.

(** [d_count += 1; dirs += 1] *)
Definition count_dir (l : locals) : locals :=
  {| l_size := l_size l; l_dirs := l_dirs l + 1; l_files := l_files l;
     l_size_du := l_size_du l; l_f_count := l_f_count l;
     l_d_count := l_d_count l + 1; l_total_docs := l_total_docs l;
     l_file_skip_count := l_file_skip_count l;
     l_dir_skip_count := l_dir_skip_count l;
     l_parent_path := l_parent_path l |}.

(** [size += subdir_size; size_du += subdir_du; files += subdir_fc;
    dirs += subdir_dc] *)
Definition add_subdir (agg : Z * Z * Z * Z) (l : locals) : locals :=
  let '(subdir_size, subdir_du, subdir_fc, subdir_dc) := agg in
  {| l_size := l_size l + subdir_size; l_dirs := l_dirs l + subdir_dc;
     l_files := l_files l + subdir_fc;
     l_size_du := l_size_du l + subdir_du; l_f_count := l_f_count l;
     l_d_count := l_d_count l; l_total_docs := l_total_docs l;
     l_file_skip_count := l_file_skip_count l;
     l_dir_skip_count := l_dir_skip_count l;
     l_parent_path := l_parent_path l |}.

(** [f_count += 1] *)
Definition count_file (l : locals) : locals :=
  {| l_size := l_size l; l_dirs := l_dirs l; l_files := l_files l;
     l_size_du := l_size_du l; l_f_count := l_f_count l + 1;
     l_d_count := l_d_count l; l_total_docs := l_total_docs l;
     l_file_skip_count := l_file_skip_count l;
     l_dir_skip_count := l_dir_skip_count l;
     l_parent_path := l_parent_path l |}.

(** [size += fsize; size_du += fsize_du; files += 1] *)
Definition add_file (fsize fsize_du : Z) (l : locals) : locals :=
  {| l_size := l_size l + fsize; l_dirs := l_dirs l;
     l_files := l_files l + 1; l_size_du := l_size_du l + fsize_du;
     l_f_count := l_f_count l; l_d_count := l_d_count l;
     l_total_docs := l_total_docs l;
     l_file_skip_count := l_file_skip_count l;
     l_dir_skip_count := l_dir_skip_count l;
     l_parent_path := l_parent_path l |}.

(** [file_skip_count += 1] *)
Definition skip_file (l : locals) : locals :=
  {| l_size := l_size l; l_dirs := l_dirs l; l_files := l_files l;
     l_size_du := l_size_du l; l_f_count := l_f_count l;
     l_d_count := l_d_count l; l_total_docs := l_total_docs l;
     l_file_skip_count := l_file_skip_count l + 1;
     l_dir_skip_count := l_dir_skip_count l;
     l_parent_path := l_parent_path l |}.

Definition set_parent_path (p : option pystr) (l : locals) : locals :=
  {| l_size := l_size l; l_dirs := l_dirs l; l_files := l_files l;
     l_size_du := l_size_du l; l_f_count := l_f_count l;
     l_d_count := l_d_count l; l_total_docs := l_total_docs l;
     l_file_skip_count := l_file_skip_count l;
     l_dir_skip_count := l_dir_skip_count l;
     l_parent_path := p |}.

(** [total_docs += document_count] *)
Definition add_total_docs (n : Z) (l : locals) : locals :=
  {| l_size := l_size l; l_dirs := l_dirs l; l_files := l_files l;
     l_size_du := l_size_du l; l_f_count := l_f_count l;
     l_d_count := l_d_count l; l_total_docs := l_total_docs l + n;
     l_file_skip_count := l_file_skip_count l;
     l_dir_skip_count := l_dir_skip_count l;
     l_parent_path := l_parent_path l |}.

(** [dir_skip_count += 1; if dirs > 0: dirs -= 1] *)
Definition skip_dir (l : locals) : locals :=
  {| l_size := l_size l;
     l_dirs := if 0 <? l_dirs l then l_dirs l - 1 else l_dirs l;
     l_files := l_files l;
     l_size_du := l_size_du l; l_f_count := l_f_count l;
     l_d_count := l_d_count l; l_total_docs := l_total_docs l;
     l_file_skip_count := l_file_skip_count l;
     l_dir_skip_count := l_dir_skip_count l + 1;
     l_parent_path := l_parent_path l |}.

(** The block under [crawl_lock] that ends a frame:
    [total_documents[root] += total_docs] and the five sibling updates. *)
Definition add_counters (l : locals) (st : state) : state :=
  {| quit := quit st; emptyindex := emptyindex st; warnings := warnings st;
     sizes := sizes st; gid_name := gid_name st; uid_name := uid_name st;
     dircount := dircount st + (l_d_count l - l_dir_skip_count l);
     filecount := filecount st + (l_f_count l - l_file_skip_count l);
     inodecount := inodecount st + (l_d_count l + l_f_count l);
     skipdircount := skipdircount st + l_dir_skip_count l;
     skipfilecount := skipfilecount st + l_file_skip_count l;
     total_documents := total_documents st + l_total_docs l;
     es_log := es_log st |}.

(** The aggregate a frame returns: [size, size_du, files, dirs]. *)
Definition aggregate (l : locals) : Z * Z * Z * Z :=
  (l_size l, l_size_du l, l_files l, l_dirs l).

Section Crawl.

(** Configuration ([config['scoutfs']['blocksize']] and the Elasticsearch
    [chunksize]) and the collaborators outside the repository: the
    password and group databases, and the backend's answer to a bulk
    upload ([false]: [helpers.bulk] raises [BulkIndexError]) given the
    calls made so far. *)
Variable blocksize : Z.
Variable elastic_chunksize : Z.
Variable getpwuid : Z -> option pystr.
Variable getgrgid : Z -> option pystr.
Variable bulk_ok : list es_call -> list document -> bool.

(** [datetime.utcfromtimestamp(t).isoformat()] for the integer seconds
    [t]; [None] when the call raises [ValueError], for a year that
    [datetime] does not have, which nothing in a frame catches.  The
    [OverflowError] for seconds that [time_t] does not hold takes the same
    way out.  The seconds of a stat result are taken to be in the range in
    which [gmtime] of the C library succeeds. *)
Variable isoformat : Z -> option pystr.

(** [exit_app_critical_error]: [os._exit(1)]. *)
Definition exit_app_critical_error {A : Type} : signal A := OsExit 1.

Definition begin_bulk (documents : list document) (st : state)
  : signal unit * state :=
  if bulk_ok (es_log st) documents
  then (Ret tt, log_es (EsBulk documents) st)
  else (exit_app_critical_error, st).

Definition get_owner_name (uid : Z) (st : state) : ident * state :=
  match uid_name st !! uid with
  | Some owner => (owner, st)
  | None =>
      let owner := match getpwuid uid with
                   | Some n => IdName n
                   | None => IdNum uid
                   end in
      (owner, set_uid_name (<[uid := owner]> (uid_name st)) st)
  end.

Definition get_group_name (gid : Z) (st : state) : ident * state :=
  match gid_name st !! gid with
  | Some group => (group, st)
  | None =>
      let group := match getgrgid gid with
                   | Some n => IdName n
                   | None => IdNum gid
                   end in
      (group, set_gid_name (<[gid := group]> (gid_name st)) st)
  end.

(** [documents.append(data.copy())] followed by the threshold test: when
    the list has reached the chunk size it is uploaded, counted into
    [total_docs] and cleared. *)
Definition append_document (data : document) (l : locals)
    (documents : list document) (st : state)
  : signal unit * locals * list document * state :=
  let documents := documents ++ [data] in
  let document_count := Z.of_nat (length documents) in
  if elastic_chunksize <=? document_count then
    match begin_bulk documents st with
    | (Ret _, st') => (Ret tt, add_total_docs document_count l, [], st')
    | (Exc e, st') => (Exc e, l, documents, st')
    | (OsExit c, st') => (OsExit c, l, documents, st')
    end
  else (Ret tt, l, documents, st).

(** The [try]/[except UnicodeError] around the name fields of a file.  The
    result is the new value of [parent_path], the file name, and whether
    the handler ran; [None] when the handler itself raises. *)
Definition decode_file_names (parent_path : option pystr)
    (content_path content_name : pystr)
  : option (pystr * pystr * bool) :=
  let tried := match parent_path with
               | Some p => Some p
               | None => get_parent_path content_path false
               end in
  match tried with
  | Some p =>
      match get_file_name content_name false with
      | Some file_name => Some (p, file_name, false)
      | None =>
          match get_file_name content_name true with
          | Some file_name => Some (p, file_name, true)
          | None => None
          end
      end
  | None =>
      match get_parent_path content_path true with
      | Some p =>
          match get_file_name content_name true with
          | Some file_name => Some (p, file_name, true)
          | None => None
          end
      | None => None
      end
  end.

(** The [try]/[except UnicodeError] around the name fields of a directory:
    the directory's name, its parent path, and whether the handler ran. *)
Definition decode_dir_names (path : pystr) : option (pystr * pystr * bool) :=
  match get_dir_name path false, get_parent_path path false with
  | Some file_name, Some p => Some (file_name, p, false)
  | _, _ =>
      match get_dir_name path true, get_parent_path path true with
      | Some file_name, Some p => Some (file_name, p, true)
      | _, _ => None
      end
  end.

(** The [data] dictionary of a file; [None] when one of the three time
    stamps cannot be converted. *)
Definition file_data (f_stat : stat_result) (owner group : ident)
    (file_name parent_path content_name : pystr) : option file_doc :=
  match isoformat (st_mtime f_stat), isoformat (st_atime f_stat),
        isoformat (st_ctime f_stat) with
  | Some mtime, Some atime, Some ctime =>
      Some {| f_size := st_size f_stat;
              f_owner := owner;
              f_group := group;
              f_name := file_name;
              f_size_du := st_blocks f_stat * blocksize;
              f_nlink := st_nlink f_stat;
              f_ino := st_ino f_stat;
              f_parent_path := parent_path;
              f_extension := suffix content_name;
              f_mtime := mtime;
              f_atime := atime;
              f_ctime := ctime |}
  | _, _, _ => None
  end.

(** The [data] dictionary of a directory; [None] when one of the three
    time stamps cannot be converted. *)
Definition dir_data (dir_stat : stat_result) (owner group : ident)
    (file_name parent_path : pystr) (l : locals) : option dir_doc :=
  match isoformat (st_mtime dir_stat), isoformat (st_atime dir_stat),
        isoformat (st_ctime dir_stat) with
  | Some mtime, Some atime, Some ctime =>
      Some {| d_size := l_size l;
              d_owner := owner;
              d_group := group;
              d_name := file_name;
              d_size_du := l_size_du l;
              d_file_count := l_files l;
              d_dir_count := l_dirs l + 1;
              d_nlink := st_nlink dir_stat;
              d_parent_path := parent_path;
              d_ino := st_ino dir_stat;
              d_mtime := mtime;
              d_atime := atime;
              d_ctime := ctime |}
  | _, _, _ => None
  end.

(** The [else] branch of the loop body: an entry that is neither a
    symbolic link nor a directory. *)
Definition scan_file (path name : pystr) (fstat : option stat_result)
    (l : locals) (documents : list document) (st : state)
  : signal unit * locals * list document * state :=
  let l := count_file l in
  match fstat with
  | None => (Exc OSError, l, documents, st)
  | Some f_stat =>
      let fsize := st_size f_stat in
      let fsize_du := st_blocks f_stat * blocksize in
      if 0 <? fsize then
        let l := add_file fsize fsize_du l in
        let '(owner, st) := get_owner_name (st_uid f_stat) st in
        let '(group, st) := get_group_name (st_gid f_stat) st in
        match decode_file_names (l_parent_path l) (path_join path name) name with
        | None => (Exc UnicodeError, l, documents, st)
        | Some (parent_path, file_name, warned) =>
            let st := if warned then incr_warnings st else st in
            let l := set_parent_path (Some parent_path) l in
            match file_data f_stat owner group file_name parent_path name with
            | None => (Exc ValueError, l, documents, st)
            | Some data => append_document (FileDoc data) l documents st
            end
        end
      else (Ret tt, skip_file l, documents, st)
  end.

(** The [for content in os.scandir(path)] loop, given what a recursive
    call does.  An exception or a process exit ends the loop where it
    occurs, with the locals as they are at that point. *)
Section Loop.

Variable recurse :
  pystr -> dir -> list document -> state ->
  signal (Z * Z * Z * Z) * list document * state.
Variable path : pystr.
Variable descend : bool.

Fixpoint scan_loop (contents : list entry) (l : locals)
    (documents : list document) (st : state) {struct contents}
  : signal unit * locals * list document * state :=
  match contents with
  | [] => (Ret tt, l, documents, st)
  | content :: rest =>
      match content with
      | ESymlink _ => scan_loop rest l documents st
      | EDir name sub =>
          let l := count_dir l in
          if descend && negb (quit st) then
            match recurse (path_join path name) sub documents st with
            | (Ret agg, documents, st) =>
                scan_loop rest (add_subdir agg l) documents st
            | (Exc e, documents, st) => (Exc e, l, documents, st)
            | (OsExit c, documents, st) => (OsExit c, l, documents, st)
            end
          else scan_loop rest l documents st
      | EFile name fstat =>
          match scan_file path name fstat l documents st with
          | (Ret _, l, documents, st) => scan_loop rest l documents st
          | r => r
          end
      end
  end.

End Loop.

(** What follows the loop inside the [try]: the frame's own record, or the
    skip, and the update of the shared counters. *)
Definition finish_dir (root path : pystr) (dir_stat : stat_result)
    (depth : Z) (l : locals) (documents : list document) (st : state)
  : signal unit * locals * list document * state :=
  let emitted :=
    if (0 <? l_files l) || (0 <? l_dirs l) then
      let '(owner, st) := get_owner_name (st_uid dir_stat) st in
      let '(group, st) := get_group_name (st_gid dir_stat) st in
      match decode_dir_names path with
      | None => (Exc UnicodeError, l, documents, st)
      | Some (file_name, parent_path, warned) =>
          let st := if warned then incr_warnings st else st in
          let l := set_parent_path (Some parent_path) l in
          match dir_data dir_stat owner group file_name parent_path l with
          | None => (Exc ValueError, l, documents, st)
          | Some data =>
              if 0 <? depth then append_document (DirDoc data) l documents st
              else (Ret tt, l, documents,
                    set_sizes (<[root := SzDoc data]> (sizes st)) st)
          end
      end
    else (Ret tt, skip_dir l, documents, st) in
  match emitted with
  | (Ret _, l, documents, st) => (Ret tt, l, documents, add_counters l st)
  | r => r
  end.

Fixpoint get_tree_attr (root path : pystr) (d : dir) (depth maxdepth : Z)
    (documents : list document) (st : state) {struct d}
  : signal (Z * Z * Z * Z) * list document * state :=
  match d with
  | Dir dstat listing =>
      match dstat with
      | None => (Ret (0, 0, 0, 0), documents, incr_warnings st)
      | Some dir_stat =>
          let body :=
            match listing with
            | None => (Exc OSError, init_locals, documents, st)
            | Some contents =>
                match
                  scan_loop
                    (fun p sub documents st =>
                       get_tree_attr root p sub (depth + 1) maxdepth documents st)
                    path ((0 <? maxdepth) && (depth <? maxdepth))
                    contents init_locals documents st
                with
                | (Ret _, l, documents, st) =>
                    finish_dir root path dir_stat depth l documents st
                | r => r
                end
            end in
          match body with
          | (Ret _, l, documents, st) => (Ret (aggregate l), documents, st)
          | (Exc OSError, l, documents, st) =>
              (Ret (aggregate l), documents, incr_warnings st)
          | (Exc e, _, documents, st) => (Exc e, documents, st)
          | (OsExit c, _, documents, st) => (OsExit c, documents, st)
          end
      end
  end.

(** One worker task.  [documents] starts empty and is local to the task;
    what is left in it after the traversal is uploaded in one last batch.
    For a first-level subtree ([depth > 0]) the aggregate is stored under
    [sizes[top]] and, when its size is positive, added onto
    [sizes[root]]; a missing [sizes[root]] makes that [+=] raise
    [KeyError]. *)
Definition crawl_thread (root top : pystr) (d : dir) (depth maxdepth : Z)
    (st : state) : signal unit * list document * state :=
  match get_tree_attr root top d depth maxdepth [] st with
  | (Ret (size, size_du, file_count, dir_count), documents, st) =>
      let document_count := Z.of_nat (length documents) in
      let flushed :=
        if 0 <? document_count then
          match begin_bulk documents st with
          | (Ret _, st) => (Ret tt, [], add_total_documents document_count st)
          | (Exc e, st) => (Exc e, documents, st)
          | (OsExit c, st) => (OsExit c, documents, st)
          end
        else (Ret tt, documents, st) in
      match flushed with
      | (Ret _, documents, st) =>
          if 0 <? depth then
            let st :=
              set_sizes
                (<[top := SzTop size size_du dir_count file_count]> (sizes st))
                st in
            if 0 <? size then
              match sizes st !! root, sizes st !! top with
              | Some r, Some t =>
                  (Ret tt, documents,
                   set_sizes
                     (<[root := sz_add r (sz_size t) (sz_size_du t)
                                       (sz_dir_count t) (sz_file_count t)]>
                        (sizes st)) st)
              | _, _ => (Exc KeyError, documents, st)
              end
            else (Ret tt, documents, st)
          else (Ret tt, documents, st)
      | r => r
      end
  | (Exc e, documents, st) => (Exc e, documents, st)
  | (OsExit c, documents, st) => (OsExit c, documents, st)
  end.

(** The immediate subdirectories of the root that [crawl] hands to the
    pool, with their paths. *)
Fixpoint subdir_list (root : pystr) (contents : list entry)
  : list (pystr * dir) :=
  match contents with
  | [] => []
  | EDir name sub :: rest => (path_join root name, sub) :: subdir_list root rest
  | _ :: rest => subdir_list root rest
  end.

(** The pool runs the subtree tasks concurrently; every write a task makes
    to the globals is one addition, insertion or append under a lock.
    [order] is the order in which the scheduler lets the tasks run to
    completion, and [es_count] is the backend's answer to the count query
    given the calls made so far. *)
Variable order : list (pystr * dir) -> list (pystr * dir).
Variable es_count : list es_call -> Z.

(** [for future in as_completed(...)]: a task that raises, or that ends
    the process, ends the crawl with [os._exit(1)]. *)
Fixpoint run_subdirs (root : pystr) (maxdepth : Z)
    (tasks : list (pystr * dir)) (st : state) : signal unit * state :=
  match tasks with
  | [] => (Ret tt, st)
  | (subdir, d) :: rest =>
      match crawl_thread root subdir d 1 maxdepth st with
      | (Ret _, _, st) => run_subdirs root maxdepth rest st
      | (Exc _, _, st) => (exit_app_critical_error, st)
      | (OsExit c, _, st) => (OsExit c, st)
      end
  end.

(** The part of [crawl] after the pool has drained. *)
Definition finish_crawl (root : pystr) (st : state) : state :=
  match sizes st !! root with
  | None =>
      let st := set_emptyindex true st in
      let st := log_es EsRefresh st in
      let res := es_count (es_log st) in
      let st := log_es EsCount st in
      if res =? 0 then log_es EsDelete st else st
  | Some r =>
      let st := log_es (EsIndexRoot r) st in
      let st := add_total_documents 1 st in
      log_es (EsIndexEnd (sz_size r) (sz_size_du r) (filecount st) (dircount st)) st
  end.

Definition crawl (root : pystr) (d : dir) (maxdepth : Z) (st : state)
  : signal unit * state :=
  match d with
  | Dir _ None => (Exc OSError, st)
  | Dir _ (Some contents) =>
      match crawl_thread root root d 0 0 st with
      | (Ret _, _, st) =>
          match run_subdirs root maxdepth (order (subdir_list root contents)) st with
          | (Ret _, st) => (Ret tt, finish_crawl root st)
          | r => r
          end
      | (Exc _, _, st) => (exit_app_critical_error, st)
      | (OsExit c, _, st) => (OsExit c, st)
      end
  end.

(** *** An interrupt from the keyboard

    A [KeyboardInterrupt] reaches the main thread, which spends the crawl
    waiting for the pool: either while it waits for the result of the
    depth-0 task, before any subtree task is submitted, or in the loop over
    the subtree tasks, after it has seen the results of the first [k] of
    them.  The interrupt is no [Exception], so that it leaves [crawl];
    leaving the [with] block of the pool waits for the tasks that were
    submitted, whose exceptions nobody looks at any more.  Only
    [os._exit] in a task still ends the process. *)
Inductive interrupt_point :=
  | AtRootTask
  | AtSubtrees (k : nat).

(** The tasks that the pool still runs after the interrupt. *)
Fixpoint drain_subdirs (root : pystr) (maxdepth : Z)
    (tasks : list (pystr * dir)) (st : state) : signal unit * state :=
  match tasks with
  | [] => (Ret tt, st)
  | (subdir, d) :: rest =>
      match crawl_thread root subdir d 1 maxdepth st with
      | (OsExit c, _, st) => (OsExit c, st)
      | (_, _, st) => drain_subdirs root maxdepth rest st
      end
  end.

(** [crawl] when the interrupt arrives at [point]: what has run when the
    [KeyboardInterrupt] leaves it. *)
Definition crawl_interrupted (point : interrupt_point) (root : pystr)
    (d : dir) (maxdepth : Z) (st : state) : signal unit * state :=
  match d with
  | Dir _ None => (Exc OSError, st)
  | Dir _ (Some contents) =>
      match point with
      | AtRootTask =>
          match crawl_thread root root d 0 0 st with
          | (OsExit c, _, st) => (OsExit c, st)
          | (_, _, st) => (Exc KeyboardInterrupt, st)
          end
      | AtSubtrees k =>
          match crawl_thread root root d 0 0 st with
          | (Ret _, _, st) =>
              let tasks := order (subdir_list root contents) in
              match run_subdirs root maxdepth (firstn k tasks) st with
              | (Ret _, st) =>
                  match drain_subdirs root maxdepth (skipn k tasks) st with
                  | (OsExit c, st) => (OsExit c, st)
                  | (_, st) => (Exc KeyboardInterrupt, st)
                  end
              | r => r
              end
          | (Exc _, _, st) => (exit_app_critical_error, st)
          | (OsExit c, _, st) => (OsExit c, st)
          end
      end
  end.

(** [exit_app]: [sys.exit(78)] after a crawl with warnings, [sys.exit(0)]
    otherwise; a second call returns at once. *)
Definition exit_app (st : state) : signal unit * state :=
  if quit st then (Ret tt, st)
  else
    let st := set_quit true st in
    let st := if emptyindex st then st else log_es (EsPutSettings true) st in
    if 0 <? warnings st then (Exc (SystemExit 78), st)
    else (Exc (SystemExit 0), st).

(** ** The [scan] command *)

Fixpoint str_eqb (a b : pystr) : bool :=
  match a, b with
  | [], [] => true
  | x :: a', y :: b' => (x =? y) && str_eqb a' b'
  | _, _ => false
  end.

Definition required_prefix : pystr := py "scoutfs-".
Definition default_index : pystr := py "scoutfs-<dir_tree>-<datetime>".

(** [str.lower]: in a string of ASCII code points the letters A to Z
    become a to z and nothing else changes.  On any other string it follows
    the case mapping of Unicode, which lowers every cased code point and
    can change the length; [unicode_lower] stands for it. *)
Variable unicode_lower : pystr -> pystr.

Definition lower (s : pystr) : pystr :=
  if is_ascii s then List.map lower_char s else unicode_lower s.

(** The name [scan] gives the index when none was supplied; [now] is
    [datetime.now().strftime("%y%m%d%H%M%S")]. *)
Definition default_index_name (dir_tree now : pystr) : pystr :=
  let tree_dir_str := replace_char space underscore dir_tree in
  let tree_dir_str := replace_char sep underscore tree_dir_str in
  py "scoutfs" ++ lstrip_char underscore (lower tree_dir_str) ++ py "-" ++ now.

(** The module globals as they are when [scan] starts. *)
Definition init_state : state :=
  {| quit := false; emptyindex := false; warnings := 0; sizes := ∅;
     gid_name := ∅; uid_name := ∅; dircount := 0; filecount := 0;
     inodecount := 0; skipdircount := 0; skipfilecount := 0;
     total_documents := 0; es_log := [] |}.

(** [dircount[dir_tree] = 1] and the zeroes of the other counters. *)
Definition init_counters (st : state) : state :=
  {| quit := quit st; emptyindex := emptyindex st; warnings := warnings st;
     sizes := sizes st; gid_name := gid_name st; uid_name := uid_name st;
     dircount := 1; filecount := 0; inodecount := 0; skipdircount := 0;
     skipfilecount := 0; total_documents := 0; es_log := es_log st |}.

(** [is_file name] is [content.is_file()] for the entry [name] of the
    root that is neither a symbolic link nor a directory: whether it is a
    regular file, and not a FIFO, a socket or a device. *)
Variable is_file : pystr -> bool.

(** The number of entries of the root that are directories or regular
    files, and no symbolic links. *)
Fixpoint count_entries (contents : list entry) : Z :=
  match contents with
  | [] => 0
  | ESymlink _ :: rest => count_entries rest
  | EDir _ _ :: rest => 1 + count_entries rest
  | EFile name _ :: rest =>
      (if is_file name then 1 else 0) + count_entries rest
  end.

(** The collaborators of [scan]: whether the backend can be reached,
    [os.path.abspath], whether an index of a given name exists, and the
    time stamp of the default index name. *)
Variable connection_ok : bool.
Variable abspath : pystr -> pystr.
Variable check_index : pystr -> bool.
Variable now : pystr.

(** Whether the operator interrupts the crawl, and where. *)
Variable interrupt : option interrupt_point.

(** [scan(index, path, maxdepth)], on the directory [d] found at the
    normalised path.  [except KeyboardInterrupt] calls [exit_app]; any
    [Exception] is a critical error; the [SystemExit] of [exit_app] is
    neither. *)
Definition scan (index path : pystr) (maxdepth : Z) (d : dir)
  : signal unit * state :=
  let st := init_state in
  if negb connection_ok then (Exc (SystemExit 1), st)
  else
    let dir_tree :=
      abspath (if negb (str_eqb path [sep]) then rstrip_char sep path
               else path) in
    if negb (match index with [] => true | _ => false end)
       && negb (contains index required_prefix)
    then (Exc (SystemExit 1), st)
    else
      match d with
      | Dir _ None => (Exc OSError, st)
      | Dir _ (Some contents) =>
          if count_entries contents =? 0 then (Exc (SystemExit 0), st)
          else
            let index :=
              if str_eqb index default_index
              then default_index_name dir_tree now
              else index in
            if check_index index then (Exc (SystemExit 1), st)
            else
              let st := log_es (EsCreate index) st in
              let st := log_es (EsPutSettings false) st in
              let st := init_counters st in
              let st := log_es EsIndexStart st in
              let crawled :=
                match interrupt with
                | None => crawl dir_tree d maxdepth st
                | Some point => crawl_interrupted point dir_tree d maxdepth st
                end in
              match crawled with
              | (Ret _, st) => exit_app st
              | (Exc KeyboardInterrupt, st) => exit_app st
              | (Exc _, st) => (exit_app_critical_error, st)
              | (OsExit c, st) => (OsExit c, st)
              end
      end.

(** The exit status of the process: the argument of [sys.exit] or
    [os._exit]; an exception that nothing catches ends the interpreter
    with status 1. *)
Definition exit_status {A : Type} (s : signal A) : Z :=
  match s with
  | Ret _ => 0
  | Exc (SystemExit c) => c
  | Exc _ => 1
  | OsExit c => c
  end.


(** ** The aggregate as a function of the tree *)

Definition agg_add (a b : Z * Z * Z * Z) : Z * Z * Z * Z :=
  let '(s1, u1, f1, d1) := a in
  let '(s2, u2, f2, d2) := b in
  (s1 + s2, u1 + u2, f1 + f2, d1 + d2).

(** The sums a frame accumulates over a listing, without the documents and
    the globals: every directory entry counts as one directory and, when
    the walk descends, adds the aggregate of its subtree; every file of
    positive size adds its size, its size on disk and one file.  The flag
    tells whether the listing was walked to its end, which a file whose
    stat fails prevents. *)
Section Walk.

Variable subtree : dir -> Z * Z * Z * Z.
Variable descend : bool.

Fixpoint walk_entries (contents : list entry) (acc : Z * Z * Z * Z)
  : bool * (Z * Z * Z * Z) :=
  match contents with
  | [] => (true, acc)
  | ESymlink _ :: rest => walk_entries rest acc
  | EDir _ sub :: rest =>
      let acc := agg_add acc (0, 0, 0, 1) in
      walk_entries rest (if descend then agg_add acc (subtree sub) else acc)
  | EFile _ None :: _ => (false, acc)
  | EFile _ (Some f_stat) :: rest =>
      walk_entries rest
        (if 0 <? st_size f_stat
         then agg_add acc (st_size f_stat, st_blocks f_stat * blocksize, 1, 0)
         else acc)
  end.

End Walk.

(** [q] is the value of the [quit] flag during the walk. *)
Fixpoint tree_aggregate (q : bool) (maxdepth : Z) (d : dir) (depth : Z)
  : Z * Z * Z * Z :=
  match d with
  | Dir (Some _) (Some contents) =>
      snd (walk_entries
             (fun sub => tree_aggregate q maxdepth sub (depth + 1))
             ((0 <? maxdepth) && (depth <? maxdepth) && negb q)
             contents (0, 0, 0, 0))
  | Dir _ _ => (0, 0, 0, 0)
  end.

Definition agg_size (a : Z * Z * Z * Z) : Z := let '(s, _, _, _) := a in s.
Definition agg_size_du (a : Z * Z * Z * Z) : Z := let '(_, u, _, _) := a in u.
Definition agg_files (a : Z * Z * Z * Z) : Z := let '(_, _, f, _) := a in f.
Definition agg_dirs (a : Z * Z * Z * Z) : Z := let '(_, _, _, d) := a in d.

(** The sum of the aggregates of the first-level subtrees. *)
Definition subtrees_aggregate (q : bool) (maxdepth : Z)
    (tasks : list (pystr * dir)) : Z * Z * Z * Z :=
  List.fold_right
    (fun t acc => agg_add (tree_aggregate q maxdepth (snd t) 1) acc)
    (0, 0, 0, 0) tasks.

(** ** Batches *)

(** The batches the backend has received. *)
Fixpoint flushed_log (log : list es_call) : list (list document) :=
  match log with
  | [] => []
  | EsBulk docs :: rest => docs :: flushed_log rest
  | _ :: rest => flushed_log rest
  end.

Definition flushed (st : state) : list (list document) :=
  flushed_log (es_log st).

(** Every record a worker has produced so far, in order: those already
    uploaded, then those still in its [documents] list. *)
Definition stream (documents : list document) (st : state) : list document :=
  List.concat (flushed st) ++ documents.

(** Every batch but the last holds exactly [c] records; the last holds at
    least one and at most [c]. *)
Fixpoint well_batched (c : Z) (batches : list (list document)) : bool :=
  match batches with
  | [] => true
  | b :: rest =>
      match rest with
      | [] => (0 <? Z.of_nat (length b)) && (Z.of_nat (length b) <=? c)
      | _ :: _ => (Z.of_nat (length b) =? c) && well_batched c rest
      end
  end.

(** [ceil(n / c)] for a positive [c]. *)
Definition ceil_div (n c : Z) : Z := (n + c - 1) / c.

(** POSIX file names are not empty and hold no separator. *)
Definition valid_name (name : pystr) : bool :=
  negb (match name with [] => true | _ => false end)
  && negb (List.existsb (Z.eqb sep) name).

(** ** Notions used in the statements *)

(** [P] holds of the directory behind a directory entry. *)
Definition on_subdir (P : dir -> Prop) (e : entry) : Prop :=
  match e with
  | EDir _ sub => P sub
  | _ => True
  end.

(** [st'] comes from [st] by bulk uploads, warnings and updates of the
    counters and name caches only. *)
Definition advances (st st' : state) : Prop :=
  quit st' = quit st /\
  emptyindex st' = emptyindex st /\
  warnings st <= warnings st' /\
  exists batches, es_log st' = es_log st ++ List.map EsBulk batches.

(** A call ends well when no exception leaves it and a process exit, if
    any, has status 1. *)
Definition no_exception {A : Type} (s : signal A) : Prop :=
  match s with
  | Ret _ => True
  | Exc _ => False
  | OsExit c => c = 1
  end.

(** What is asked of a recursive call for the loop to preserve it. *)
Definition sound_call (depth : Z)
    (recurse : pystr -> dir -> list document -> state ->
               signal (Z * Z * Z * Z) * list document * state)
    (sub : dir) : Prop :=
  forall p documents st s documents' st',
    recurse p sub documents st = (s, documents', st') ->
    advances st st' /\ (0 <= depth -> sizes st' = sizes st) /\
    (s = Exc ValueError \/ no_exception s).

(** A recursive call that returns does so with the aggregate [subtree]
    of the directory it was made on. *)
Definition agg_call (q : bool)
    (recurse : pystr -> dir -> list document -> state ->
               signal (Z * Z * Z * Z) * list document * state)
    (subtree : dir -> Z * Z * Z * Z) (sub : dir) : Prop :=
  forall p documents st a documents' st',
    quit st = q ->
    recurse p sub documents st = (Ret a, documents', st') ->
    a = subtree sub.

(** Every counted file has a positive size, so an aggregate without size
    has no file and no size on disk. *)
Definition agg_ok (a : Z * Z * Z * Z) : Prop :=
  0 <= agg_files a <= agg_size a /\
  (agg_files a = 0 -> agg_size_du a = 0) /\
  0 <= agg_dirs a.

(** Whether every file of a listing can be stat-ed. *)
Definition all_stats_ok (contents : list entry) : bool :=
  List.forallb (fun e => match e with
                         | EFile _ None => false
                         | _ => true
                         end) contents.

(** The batches uploaded since [base] are all full and the list still
    holds fewer records than the chunk size. *)
Definition full_batches (c : Z) (base : list (list document))
    (documents : list document) (log : list es_call) : Prop :=
  exists batches,
    flushed_log log = base ++ batches /\
    Forall (fun b => Z.of_nat (length b) = c) batches /\
    Z.of_nat (length documents) < c.

(** The owner and the group that a record gets in the state [st]: the
    cached name, or what the database answers. *)
Definition owner_of (st : state) (uid : Z) : ident :=
  fst (get_owner_name uid st).

Definition group_of (st : state) (gid : Z) : ident :=
  fst (get_group_name gid st).

(** The lookups give in [st'] what they give in [st]. *)
Definition names_kept (st st' : state) : Prop :=
  (forall uid, owner_of st' uid = owner_of st uid) /\
  (forall gid, group_of st' gid = group_of st gid).

(** The locals of a frame as far as its directory record reads them. *)
Definition agg_locals (a : Z * Z * Z * Z) : locals :=
  {| l_size := agg_size a; l_dirs := agg_dirs a; l_files := agg_files a;
     l_size_du := agg_size_du a; l_f_count := 0; l_d_count := 0;
     l_total_docs := 0; l_file_skip_count := 0; l_dir_skip_count := 0;
     l_parent_path := None |}.

(** What a walk over a listing gives out, as a function of the listing:
    the records it appends, in order, and the number of warnings it
    counts.  A file of positive size gives one record, with the names
    decoded as [decode_file_names] does for the parent path known so far,
    and one warning when the replacing decoder was needed; a directory
    gives what its subtree gives when the walk descends; a file whose stat
    fails ends the walk, and so does one whose time stamps cannot be
    converted, after the warning for its name.  [st0] is the state at the
    start, whose cached names the records carry. *)
Section Walk_output.

Variable subtree : pystr -> dir -> list document * Z.
Variable descend : bool.
Variable st0 : state.
Variable path : pystr.

Fixpoint walk_output (contents : list entry) (parent_path : option pystr)
  : list document * Z :=
  match contents with
  | [] => ([], 0)
  | ESymlink _ :: rest => walk_output rest parent_path
  | EDir name sub :: rest =>
      let below :=
        if descend then subtree (path_join path name) sub else ([], 0) in
      let after := walk_output rest parent_path in
      (fst below ++ fst after, snd below + snd after)
  | EFile _ None :: _ => ([], 0)
  | EFile name (Some f_stat) :: rest =>
      if 0 <? st_size f_stat then
        match decode_file_names parent_path (path_join path name) name with
        | Some (p, file_name, warned) =>
            match file_data f_stat (owner_of st0 (st_uid f_stat))
                    (group_of st0 (st_gid f_stat)) file_name p name with
            | Some data =>
                let after := walk_output rest (Some p) in
                (FileDoc data :: fst after,
                 (if warned then 1 else 0) + snd after)
            | None => ([], if warned then 1 else 0)
            end
        | None => ([], 0)
        end
      else walk_output rest parent_path
  end.

End Walk_output.

(** What a frame and the frames below it give out: nothing but a warning
    when the directory cannot be stat-ed or listed; otherwise what the walk
    gives, then one more warning when the walk was ended by a file, or the
    frame's own record, below the root, when the frame holds a file or a
    directory, with a warning when its names needed the replacing
    decoder. *)
Fixpoint tree_output (q : bool) (maxdepth : Z) (st0 : state) (path : pystr)
    (d : dir) (depth : Z) : list document * Z :=
  match d with
  | Dir (Some dir_stat) (Some contents) =>
      let walked :=
        walk_output
          (fun p sub => tree_output q maxdepth st0 p sub (depth + 1))
          ((0 <? maxdepth) && (depth <? maxdepth) && negb q)
          st0 path contents None in
      if all_stats_ok contents then
        let a := tree_aggregate q maxdepth d depth in
        if (0 <? agg_files a) || (0 <? agg_dirs a) then
          match decode_dir_names path with
          | Some (file_name, parent_path, warned) =>
              match dir_data dir_stat (owner_of st0 (st_uid dir_stat))
                      (group_of st0 (st_gid dir_stat)) file_name parent_path
                      (agg_locals a) with
              | Some data =>
                  (fst walked ++ (if 0 <? depth then [DirDoc data] else []),
                   snd walked + (if warned then 1 else 0))
              | None => (fst walked, snd walked + (if warned then 1 else 0))
              end
          | None => walked
          end
        else walked
      else (fst walked, snd walked + 1)
  | Dir _ _ => ([], 1)
  end.

(** The records a traversal appends, and the warnings it counts. *)
Definition tree_docs (q : bool) (maxdepth : Z) (st0 : state) (path : pystr)
    (d : dir) (depth : Z) : list document :=
  fst (tree_output q maxdepth st0 path d depth).

Definition tree_warnings (q : bool) (maxdepth : Z) (st0 : state)
    (path : pystr) (d : dir) (depth : Z) : Z :=
  snd (tree_output q maxdepth st0 path d depth).

(** What a traversal that returns has done to the stream and to the
    warnings, given what it gives out. *)
Definition gives_out (st0 : state) (out : list document * Z)
    (documents : list document) (st : state)
    (documents' : list document) (st' : state) : Prop :=
  names_kept st0 st' /\
  stream documents' st' = stream documents st ++ fst out /\
  warnings st' = warnings st + snd out.

(** A recursive call that returns has given out what [subtree] says. *)
Definition output_call (q : bool) (st0 : state)
    (recurse : pystr -> dir -> list document -> state ->
               signal (Z * Z * Z * Z) * list document * state)
    (subtree : pystr -> dir -> list document * Z) (sub : dir) : Prop :=
  forall p documents st a documents' st',
    quit st = q -> names_kept st0 st ->
    recurse p sub documents st = (Ret a, documents', st') ->
    gives_out st0 (subtree p sub) documents st documents' st'.

(** An entry that leaves a frame without file and without directory: a
    symbolic link, or a file without size. *)
Definition leaves_empty (e : entry) : Prop :=
  match e with
  | ESymlink _ => True
  | EFile _ (Some f_stat) => st_size f_stat <= 0
  | _ => False
  end.

(** What a file without size does to the locals of its frame:
    [f_count += 1; file_skip_count += 1]. *)
Definition skipped_file (l : locals) : locals := skip_file (count_file l).

(** [k] more entries and [k] more skipped files in the shared counters. *)
Definition count_skipped_file (k : Z) (st : state) : state :=
  {| quit := quit st; emptyindex := emptyindex st; warnings := warnings st;
     sizes := sizes st; gid_name := gid_name st; uid_name := uid_name st;
     dircount := dircount st; filecount := filecount st;
     inodecount := inodecount st + k; skipdircount := skipdircount st;
     skipfilecount := skipfilecount st + k;
     total_documents := total_documents st; es_log := es_log st |}.

(** A directory whose stat or whose listing fails. *)
Definition unreadable (d : dir) : bool :=
  match d with
  | Dir (Some _) (Some _) => false
  | Dir _ _ => true
  end.

(** A directory entry with nothing known about what is behind it. *)
Definition prune (e : entry) : entry :=
  match e with
  | EDir name _ => EDir name (Dir None None)
  | _ => e
  end.

(** A code point that [default_index_name] lets through: no separator, no
    space and no upper-case ASCII letter. *)
Definition index_char (c : Z) : bool :=
  negb ((c =? sep) || (c =? space) || ((65 <=? c) && (c <=? 90))).

(** ** [util.get_time] *)

(** The three [divmod]s of [get_time], on a whole number of seconds:
    days, hours, minutes and seconds. *)
Definition get_time_parts (seconds : Z) : Z * Z * Z * Z :=
  let '(m, s) := (seconds / 60, seconds mod 60) in
  let '(h, m) := (m / 60, m mod 60) in
  let '(d, h) := (h / 24, h mod 24) in
  (d, h, m, s).

(** [%d] and [%02d] of an integer. *)
Definition format_d (z : Z) : pystr :=
  py (NilZero.string_of_int (Z.to_int z)).

Definition format_02d (z : Z) : pystr :=
  if (0 <=? z) && (z <? 10) then py "0" ++ format_d z else format_d z.

Definition get_time (seconds : Z) : pystr :=
  let '(d, h, m, s) := get_time_parts seconds in
  format_d d ++ py "d:" ++ format_d h ++ py "h:" ++ format_02d m ++ py "m:"
  ++ format_02d s ++ py "s".

(** ** The shared counters *)

(** Whether [DirEntry.stat] succeeds on every file of a directory and of
    the directories below it. *)
Fixpoint files_stat_ok (d : dir) : bool :=
  match d with
  | Dir _ (Some contents) =>
      List.forallb
        (fun e => match e with
                  | ESymlink _ => true
                  | EDir _ sub => files_stat_ok sub
                  | EFile _ (Some _) => true
                  | EFile _ None => false
                  end) contents
  | Dir _ None => true
  end.

(** The number of records the backend has received in bulk uploads. *)
Definition uploaded (st : state) : Z :=
  Z.of_nat (length (List.concat (flushed st))).

(** The entries counted in [inodecount] that none of [filecount],
    [skipfilecount], [dircount] and [skipdircount] accounts for. *)
Definition unclassified (st : state) : Z :=
  inodecount st
  - (filecount st + skipfilecount st + dircount st + skipdircount st).

(** Two states with the same counters and the same calls to the
    backend. *)
Definition same_tallies (st st' : state) : Prop :=
  dircount st' = dircount st /\ filecount st' = filecount st /\
  inodecount st' = inodecount st /\ skipdircount st' = skipdircount st /\
  skipfilecount st' = skipfilecount st /\
  total_documents st' = total_documents st /\ es_log st' = es_log st.

(** What the counters of a frame and the shared counters hold together
    while the frame runs: the files counted and not yet added to
    [filecount], the directories counted and not yet added to [dircount]
    or [skipdircount], and the records counted as uploaded, each set
    against what the frame has in its aggregate or the backend has
    received. *)
Definition balance (l : locals) (st : state) : Z * Z * Z :=
  (filecount st + (l_f_count l - l_file_skip_count l) - l_files l,
   dircount st + skipdircount st + l_d_count l - l_dirs l,
   total_documents st + l_total_docs l - uploaded st).

(** The shared counters after a call that returns the aggregate [a]:
    [filecount] has grown by its files, [dircount] and [skipdircount]
    together by its directories, and [total_documents] by the records
    uploaded meanwhile. *)
Definition counted (st st' : state) (a : Z * Z * Z * Z) : Prop :=
  filecount st' = filecount st + agg_files a /\
  dircount st' + skipdircount st' = dircount st + skipdircount st + agg_dirs a /\
  total_documents st' - uploaded st' = total_documents st - uploaded st.

(** What is asked of a recursive call for the loop to keep the counters
    in balance. *)
Definition counts_call
    (recurse : pystr -> dir -> list document -> state ->
               signal (Z * Z * Z * Z) * list document * state)
    (sub : dir) : Prop :=
  forall p documents st s documents' st',
    recurse p sub documents st = (s, documents', st') ->
    unclassified st' = unclassified st /\
    (files_stat_ok sub = true -> forall a, s = Ret a -> counted st st' a).

(** ** Totals of a tree *)

(** The directories a first-level subtree adds to the root record: those
    of its aggregate when its size is positive, none otherwise. *)
Definition merged_dirs (q : bool) (maxdepth : Z) (tasks : list (pystr * dir))
  : Z :=
  List.fold_right
    (fun t acc =>
       (let a := tree_aggregate q maxdepth (snd t) 1 in
        if 0 <? agg_size a then agg_dirs a else 0) + acc)
    0 tasks.

(** The number of directory levels below a directory. *)
Fixpoint height (d : dir) : Z :=
  match d with
  | Dir _ (Some contents) =>
      List.fold_right
        (fun e acc => match e with
                      | EDir _ sub => Z.max (1 + height sub) acc
                      | _ => acc
                      end) 0 contents
  | Dir _ None => 0
  end.

(** The totals of a readable tree: the sizes and the number of its files
    of positive size, and the number of directories below its root,
    unreadable ones included. *)
Fixpoint tree_totals (d : dir) : Z * Z * Z * Z :=
  match d with
  | Dir (Some _) (Some contents) =>
      List.fold_right
        (fun e acc =>
           match e with
           | ESymlink _ => acc
           | EDir _ sub => agg_add (agg_add (0, 0, 0, 1) (tree_totals sub)) acc
           | EFile _ (Some f_stat) =>
               if 0 <? st_size f_stat
               then agg_add (st_size f_stat, st_blocks f_stat * blocksize, 1, 0)
                      acc
               else acc
           | EFile _ None => acc
           end) (0, 0, 0, 0) contents
  | Dir _ _ => (0, 0, 0, 0)
  end.

(** ** Trees that raise no warning *)

(** A string without lone surrogate, which the strict encoder accepts. *)
Definition no_surrogate (s : pystr) : bool :=
  negb (List.existsb is_surrogate s).

(** A directory that can be stat-ed and listed, in which every file can be
    stat-ed, every file and directory has a name without lone surrogate,
    and every directory is of that kind again. *)
Fixpoint clean_tree (d : dir) : bool :=
  match d with
  | Dir (Some _) (Some contents) =>
      List.forallb
        (fun e => match e with
                  | ESymlink _ => true
                  | EDir name sub => no_surrogate name && clean_tree sub
                  | EFile name (Some _) => no_surrogate name
                  | EFile _ None => false
                  end) contents
  | Dir _ _ => false
  end.

(** What is asked of a recursive call for the loop to raise no
    warning. *)
Definition quiet_call
    (recurse : pystr -> dir -> list document -> state ->
               signal (Z * Z * Z * Z) * list document * state)
    (sub : dir) : Prop :=
  forall p documents st s documents' st',
    no_surrogate p = true -> clean_tree sub = true ->
    recurse p sub documents st = (s, documents', st') ->
    warnings st' = warnings st.

(** * Properties *)

(** ** Induction on directory trees *)

Lemma dir_tree_ind (P : dir -> Prop) :
  (forall dstat, P (Dir dstat None)) ->
  (forall dstat contents,
      Forall (on_subdir P) contents -> P (Dir dstat (Some contents))) ->
  forall d, P d.
Proof.
  intros Hnone Hsome.
  fix IH 1.
  intros [dstat [contents|]]; [|apply Hnone].
  apply Hsome.
  induction contents as [|e contents IHc]; constructor; [|exact IHc].
  destruct e; simpl; auto.
Qed.

(** ** Handling of names *)

Lemma handle_unicode_replace f :
  exists g, handle_unicode f true = Some g.
Proof. unfold handle_unicode. eauto. Qed.

Lemma decode_file_names_total parent_path content_path content_name :
  exists p n w,
    decode_file_names parent_path content_path content_name = Some (p, n, w).
Proof.
  unfold decode_file_names, get_parent_path, get_file_name.
  destruct (handle_unicode_replace content_name) as [g ->].
  destruct (handle_unicode_replace (dirname content_path)) as [h ->].
  destruct parent_path as [p|];
    [|destruct (handle_unicode (dirname content_path) false)];
    destruct (handle_unicode content_name false); eauto.
Qed.

Lemma decode_dir_names_total path :
  exists n p w, decode_dir_names path = Some (n, p, w).
Proof.
  unfold decode_dir_names, get_parent_path, get_dir_name.
  destruct (handle_unicode_replace (basename path)) as [g ->].
  destruct (handle_unicode_replace (dirname path)) as [h ->].
  destruct (handle_unicode (basename path) false);
    [destruct (handle_unicode (dirname path) false)|]; eauto.
Qed.

(** ** The records *)

Lemma file_data_fields f_stat owner group n p name data :
  file_data f_stat owner group n p name = Some data ->
  f_size data = st_size f_stat /\
  f_size_du data = st_blocks f_stat * blocksize /\
  f_owner data = owner /\ f_group data = group /\
  f_name data = n /\ f_parent_path data = p /\
  f_extension data = suffix name /\
  isoformat (st_mtime f_stat) = Some (f_mtime data) /\
  isoformat (st_atime f_stat) = Some (f_atime data) /\
  isoformat (st_ctime f_stat) = Some (f_ctime data).
Proof.
  unfold file_data.
  destruct (isoformat (st_mtime f_stat)) as [mtime|] eqn:M; [|discriminate].
  destruct (isoformat (st_atime f_stat)) as [atime|] eqn:A; [|discriminate].
  destruct (isoformat (st_ctime f_stat)) as [ctime|] eqn:C; [|discriminate].
  intros [= <-]. cbn. repeat split; reflexivity.
Qed.

Lemma dir_data_fields dir_stat owner group n p l data :
  dir_data dir_stat owner group n p l = Some data ->
  d_size data = l_size l /\ d_size_du data = l_size_du l /\
  d_file_count data = l_files l /\ d_dir_count data = l_dirs l + 1 /\
  d_owner data = owner /\ d_group data = group /\
  d_name data = n /\ d_parent_path data = p.
Proof.
  unfold dir_data.
  destruct (isoformat (st_mtime dir_stat)) as [mtime|]; [|discriminate].
  destruct (isoformat (st_atime dir_stat)) as [atime|]; [|discriminate].
  destruct (isoformat (st_ctime dir_stat)) as [ctime|]; [|discriminate].
  intros [= <-]. cbn. repeat split; reflexivity.
Qed.

(** Whether the three time stamps of a stat result can be converted. *)
Lemma file_data_times f_stat owner group n p name :
  file_data f_stat owner group n p name = None <->
  isoformat (st_mtime f_stat) = None \/ isoformat (st_atime f_stat) = None \/
  isoformat (st_ctime f_stat) = None.
Proof.
  unfold file_data.
  destruct (isoformat (st_mtime f_stat)) as [mtime|]; [|now split; auto].
  destruct (isoformat (st_atime f_stat)) as [atime|]; [|now split; auto].
  destruct (isoformat (st_ctime f_stat)) as [ctime|]; [|now split; auto].
  split; [discriminate|]. now intros [H|[H|H]].
Qed.

(** ** What a traversal leaves unchanged *)

Lemma advances_refl st : advances st st.
Proof.
  repeat split; try lia. exists []. simpl. now rewrite app_nil_r.
Qed.

Lemma advances_trans st1 st2 st3 :
  advances st1 st2 -> advances st2 st3 -> advances st1 st3.
Proof.
  intros (Hq & He & Hw & b1 & Hl) (Hq' & He' & Hw' & b2 & Hl').
  repeat split; try congruence; try lia.
  exists (b1 ++ b2). rewrite Hl', Hl, List.map_app, <- app_assoc. reflexivity.
Qed.

Lemma advances_incr_warnings st : advances st (incr_warnings st).
Proof.
  repeat split; simpl; try lia. exists []. simpl. now rewrite app_nil_r.
Qed.

Lemma advances_add_counters l st : advances st (add_counters l st).
Proof.
  repeat split; simpl; try lia. exists []. simpl. now rewrite app_nil_r.
Qed.

Lemma advances_owner uid st :
  advances st (snd (get_owner_name uid st)).
Proof.
  unfold get_owner_name. destruct (uid_name st !! uid); simpl.
  - apply advances_refl.
  - repeat split; simpl; try lia. exists []. simpl. now rewrite app_nil_r.
Qed.

Lemma advances_group gid st :
  advances st (snd (get_group_name gid st)).
Proof.
  unfold get_group_name. destruct (gid_name st !! gid); simpl.
  - apply advances_refl.
  - repeat split; simpl; try lia. exists []. simpl. now rewrite app_nil_r.
Qed.

Lemma sizes_owner uid st : sizes (snd (get_owner_name uid st)) = sizes st.
Proof. unfold get_owner_name. now destruct (uid_name st !! uid). Qed.

Lemma sizes_group gid st : sizes (snd (get_group_name gid st)) = sizes st.
Proof. unfold get_group_name. now destruct (gid_name st !! gid). Qed.

Lemma begin_bulk_cases documents st :
  (bulk_ok (es_log st) documents = true /\
   begin_bulk documents st = (Ret tt, log_es (EsBulk documents) st)) \/
  (bulk_ok (es_log st) documents = false /\
   begin_bulk documents st = (OsExit 1, st)).
Proof.
  unfold begin_bulk, exit_app_critical_error.
  destruct (bulk_ok (es_log st) documents); auto.
Qed.

Lemma advances_log_bulk documents st :
  advances st (log_es (EsBulk documents) st).
Proof.
  repeat split; simpl; try lia. now exists [documents].
Qed.

Lemma append_document_advances data l documents st s l' documents' st' :
  append_document data l documents st = (s, l', documents', st') ->
  advances st st' /\ sizes st' = sizes st /\ no_exception s.
Proof.
  unfold append_document.
  destruct (elastic_chunksize <=? _).
  - destruct (begin_bulk_cases (documents ++ [data]) st) as [[_ ->]|[_ ->]];
      intros [= <- <- <- <-]; simpl; auto using advances_log_bulk, advances_refl.
  - intros [= <- <- <- <-]. simpl. auto using advances_refl.
Qed.

Lemma scan_file_advances path name fstat l documents st s l' documents' st' :
  scan_file path name fstat l documents st = (s, l', documents', st') ->
  advances st st' /\ sizes st' = sizes st /\
  (s = Exc OSError \/ s = Exc ValueError \/ no_exception s).
Proof.
  unfold scan_file.
  destruct fstat as [f_stat|].
  2:{ intros [= <- <- <- <-]. auto using advances_refl. }
  destruct (0 <? st_size f_stat).
  2:{ intros [= <- <- <- <-]. simpl. auto using advances_refl. }
  pose proof (advances_owner (st_uid f_stat) st) as Ho.
  pose proof (sizes_owner (st_uid f_stat) st) as So.
  destruct (get_owner_name (st_uid f_stat) st) as [owner st1]. simpl in Ho, So.
  pose proof (advances_group (st_gid f_stat) st1) as Hg.
  pose proof (sizes_group (st_gid f_stat) st1) as Sg.
  destruct (get_group_name (st_gid f_stat) st1) as [group st2]. simpl in Hg, Sg.
  destruct (decode_file_names_total
              (l_parent_path (add_file (st_size f_stat)
                                (st_blocks f_stat * blocksize) (count_file l)))
              (path_join path name) name) as (p & n & w & ->).
  assert (Hw : advances st (if w then incr_warnings st2 else st2)).
  { eapply advances_trans; [exact Ho|]. eapply advances_trans; [exact Hg|].
    destruct w; auto using advances_refl, advances_incr_warnings. }
  assert (Sw : sizes (if w then incr_warnings st2 else st2) = sizes st).
  { destruct w; simpl; congruence. }
  destruct (file_data f_stat owner group n p name) as [data|];
    [|intros [= <- <- <- <-]; now auto].
  intros H. apply append_document_advances in H as (Ha & Hs & Hn).
  split; [eauto using advances_trans|]. split; [congruence|auto].
Qed.

Lemma finish_dir_advances root path dir_stat depth l documents st
    s l' documents' st' :
  finish_dir root path dir_stat depth l documents st = (s, l', documents', st') ->
  advances st st' /\ (0 < depth -> sizes st' = sizes st) /\
  (s = Exc ValueError \/ no_exception s).
Proof.
  unfold finish_dir.
  destruct ((0 <? l_files l) || (0 <? l_dirs l)).
  2:{ intros [= <- <- <- <-]. simpl. auto using advances_add_counters. }
  pose proof (advances_owner (st_uid dir_stat) st) as Ho.
  pose proof (sizes_owner (st_uid dir_stat) st) as So.
  destruct (get_owner_name (st_uid dir_stat) st) as [owner st1]. simpl in Ho, So.
  pose proof (advances_group (st_gid dir_stat) st1) as Hg.
  pose proof (sizes_group (st_gid dir_stat) st1) as Sg.
  destruct (get_group_name (st_gid dir_stat) st1) as [group st2]. simpl in Hg, Sg.
  destruct (decode_dir_names_total path) as (n & p & w & ->).
  assert (Hw : advances st (if w then incr_warnings st2 else st2)).
  { eapply advances_trans; [exact Ho|]. eapply advances_trans; [exact Hg|].
    destruct w; auto using advances_refl, advances_incr_warnings. }
  assert (Sw : sizes (if w then incr_warnings st2 else st2) = sizes st).
  { destruct w; simpl; congruence. }
  destruct (dir_data dir_stat owner group n p _) as [data|];
    [|intros [= <- <- <- <-]; now auto].
  destruct (Z.ltb_spec 0 depth) as [Hd|Hd].
  - destruct (append_document _ _ documents _) as [[[s1 l1] d1] st3] eqn:E.
    apply append_document_advances in E as (Ha & Hs & Hn).
    destruct s1; intros [= <- <- <- <-]; simpl in *;
      (split; [|split; [intros _|auto]]);
      try (eapply advances_trans; [exact Hw|]);
      try (eapply advances_trans; [exact Ha|]);
      auto using advances_refl, advances_add_counters; congruence.
  - intros [= <- <- <- <-]. simpl. split; [|split; [lia|auto]].
    eapply advances_trans; [exact Hw|].
    destruct Hw as (? & ? & ? & ?).
    repeat split; simpl; try lia. exists []. simpl. now rewrite app_nil_r.
Qed.

Lemma scan_loop_advances depth recurse path descend contents :
  Forall (on_subdir (sound_call depth recurse)) contents ->
  forall l documents st s l' documents' st',
    scan_loop recurse path descend contents l documents st
      = (s, l', documents', st') ->
    advances st st' /\ (0 <= depth -> sizes st' = sizes st) /\
    (s = Exc OSError \/ s = Exc ValueError \/ no_exception s).
Proof.
  induction 1 as [|e contents He Hc IH]; intros l documents st s l' documents' st'.
  - intros [= <- <- <- <-]. simpl. auto using advances_refl.
  - simpl. destruct e as [n|n sub|n fstat].
    + apply IH.
    + destruct (descend && negb (quit st)); [|apply IH].
      destruct (recurse (path_join path n) sub documents st)
        as [[s1 d1] st1] eqn:E.
      apply He in E as (Ha & Hs & Hn).
      destruct s1 as [agg| |c].
      * intros H. apply IH in H as (Ha' & Hs' & Hn').
        split; [eauto using advances_trans|].
        split; [intros Hd; rewrite Hs', Hs; auto|auto].
      * destruct Hn as [[= ->]|[]]. intros [= <- <- <- <-]. auto.
      * intros [= <- <- <- <-]. destruct Hn as [[=]|Hn]. auto.
    + destruct (scan_file path n fstat l documents st)
        as [[[s1 l1] d1] st1] eqn:E.
      apply scan_file_advances in E as (Ha & Hs & Hn).
      destruct s1 as [[]| |c].
      * intros H. apply IH in H as (Ha' & Hs' & Hn').
        split; [eauto using advances_trans|].
        split; [intros Hd; rewrite Hs'; auto|auto].
      * intros [= <- <- <- <-]. auto.
      * intros [= <- <- <- <-]. auto.
Qed.

Lemma get_tree_attr_advances root maxdepth d :
  forall path depth documents st s documents' st',
    get_tree_attr root path d depth maxdepth documents st = (s, documents', st') ->
    advances st st' /\ (0 < depth -> sizes st' = sizes st) /\
    (s = Exc ValueError \/ no_exception s).
Proof.
  induction d as [dstat|dstat contents IH] using dir_tree_ind;
    intros path depth documents st s documents' st'; simpl;
    destruct dstat as [dir_stat|];
    try (intros [= <- <- <-]; simpl; now auto using advances_incr_warnings).
  destruct (scan_loop _ path _ contents init_locals documents st)
    as [[[s1 l1] d1] st1] eqn:E.
  apply (scan_loop_advances depth) in E as (Ha & Hs & Hn).
  2:{ eapply Forall_impl; [exact IH|]. intros [| |]; simpl; auto.
      intros Hsub p docs0 st0 s0 docs0' st0' H0.
      apply Hsub in H0 as (Ha0 & Hs0 & Hn0). split; [|split]; auto.
      intros; apply Hs0; lia. }
  destruct s1 as [[]|e|c].
  - destruct (finish_dir root path dir_stat depth l1 d1 st1)
      as [[[s2 l2] d2] st2] eqn:F.
    apply finish_dir_advances in F as (Ha' & Hs' & Hn').
    assert (advances st st2) by eauto using advances_trans.
    assert (0 < depth -> sizes st2 = sizes st).
    { intros Hd. rewrite Hs', Hs; auto; lia. }
    destruct s2 as [[]|e|c]; [|destruct Hn' as [[= ->]|[]]|];
      intros [= <- <- <-]; simpl; auto.
    destruct Hn' as [[=]|Hn']. auto.
  - destruct Hn as [[= ->]|[[= ->]|[]]]; intros [= <- <- <-]; simpl.
    + split; [eauto using advances_trans, advances_incr_warnings|].
      split; [intros; apply Hs; lia|auto].
    + split; [auto|]. split; [intros; apply Hs; lia|auto].
  - destruct Hn as [[=]|[[=]|Hc]]. intros [= <- <- <-]. simpl.
    split; [auto|]. split; [intros; apply Hs; lia|auto].
Qed.

(** ** The returned aggregate depends on the tree alone *)

Lemma append_document_aggregate data l documents st s l' documents' st' :
  append_document data l documents st = (s, l', documents', st') ->
  aggregate l' = aggregate l.
Proof.
  unfold append_document.
  destruct (elastic_chunksize <=? _).
  - destruct (begin_bulk_cases (documents ++ [data]) st) as [[_ ->]|[_ ->]];
      now intros [= <- <- <- <-].
  - now intros [= <- <- <- <-].
Qed.

Lemma scan_file_aggregate path name fstat l documents st s l' documents' st' :
  scan_file path name fstat l documents st = (s, l', documents', st') ->
  match fstat with
  | None => s = Exc OSError /\ aggregate l' = aggregate l
  | Some f_stat =>
      s <> Exc OSError /\
      aggregate l' =
        if 0 <? st_size f_stat
        then agg_add (aggregate l)
               (st_size f_stat, st_blocks f_stat * blocksize, 1, 0)
        else aggregate l
  end.
Proof.
  unfold scan_file.
  destruct fstat as [f_stat|].
  2:{ now intros [= <- <- <- <-]. }
  destruct (0 <? st_size f_stat).
  2:{ now intros [= <- <- <- <-]. }
  destruct (get_owner_name (st_uid f_stat) st) as [owner st1].
  destruct (get_group_name (st_gid f_stat) st1) as [group st2].
  destruct (decode_file_names_total
              (l_parent_path (add_file (st_size f_stat)
                                (st_blocks f_stat * blocksize) (count_file l)))
              (path_join path name) name) as (p & n & w & ->).
  assert (Hagg : aggregate
                   (set_parent_path (Some p)
                      (add_file (st_size f_stat) (st_blocks f_stat * blocksize)
                         (count_file l)))
                 = agg_add (aggregate l)
                     (st_size f_stat, st_blocks f_stat * blocksize, 1, 0)).
  { unfold aggregate; simpl. repeat f_equal; lia. }
  destruct (file_data f_stat owner group n p name) as [data|];
    [|intros [= <- <- <- <-]; split; [discriminate|exact Hagg]].
  intros H.
  pose proof (append_document_advances _ _ _ _ _ _ _ _ H) as (_ & _ & Hn).
  apply append_document_aggregate in H. rewrite H.
  split; [|exact Hagg].
  intros ->. destruct Hn.
Qed.

Lemma finish_dir_aggregate root path dir_stat depth l documents st
    s l' documents' st' :
  finish_dir root path dir_stat depth l documents st = (s, l', documents', st') ->
  aggregate l' = aggregate l.
Proof.
  unfold finish_dir.
  destruct ((0 <? l_files l) || (0 <? l_dirs l)) eqn:C.
  - destruct (get_owner_name (st_uid dir_stat) st) as [owner st1].
    destruct (get_group_name (st_gid dir_stat) st1) as [group st2].
    destruct (decode_dir_names_total path) as (n & p & w & ->).
    destruct (dir_data dir_stat owner group n p _) as [data|];
      [|now intros [= <- <- <- <-]].
    destruct (0 <? depth).
    + destruct (append_document _ _ documents _) as [[[s1 l1] d1] st3] eqn:E.
      apply append_document_aggregate in E.
      destruct s1; intros [= <- <- <- <-]; exact E.
    + now intros [= <- <- <- <-].
  - apply orb_false_iff in C as [_ C].
    intros [= <- <- <- <-]. unfold aggregate, skip_dir. simpl. now rewrite C.
Qed.

Lemma scan_loop_aggregate depth q recurse subtree path descend contents :
  Forall (on_subdir (sound_call depth recurse)) contents ->
  Forall (on_subdir (agg_call q recurse subtree)) contents ->
  forall l documents st s l' documents' st',
    quit st = q ->
    scan_loop recurse path descend contents l documents st
      = (s, l', documents', st') ->
    match s with
    | Ret _ =>
        walk_entries subtree (descend && negb q) contents (aggregate l)
        = (true, aggregate l')
    | Exc OSError =>
        walk_entries subtree (descend && negb q) contents (aggregate l)
        = (false, aggregate l')
    | _ => True
    end.
Proof.
  intros Hs Ha. revert Ha.
  induction Hs as [|e contents He Hc IH]; intros Ha;
    intros l documents st s l' documents' st' Hq.
  - now intros [= <- <- <- <-].
  - apply Forall_cons in Ha as [Hae Ha]. specialize (IH Ha).
    cbn [scan_loop walk_entries]. destruct e as [n|n sub|n fstat].
    + now apply IH.
    + rewrite Hq.
      assert (Hcd : aggregate (count_dir l) = agg_add (aggregate l) (0, 0, 0, 1)).
      { unfold aggregate; simpl. repeat f_equal; lia. }
      destruct (descend && negb q).
      2:{ intros H. apply IH in H; [|exact Hq]. now rewrite <- Hcd. }
      destruct (recurse (path_join path n) sub documents st)
        as [[s1 d1] st1] eqn:E.
      pose proof (He _ _ _ _ _ _ E) as ((Hq1 & _) & _ & Hn).
      destruct s1 as [agg| |c].
      * apply Hae in E; [|exact Hq]. subst agg.
        intros H. apply IH in H; [|congruence].
        assert (Hsub : aggregate (add_subdir (subtree sub) (count_dir l))
                       = agg_add (agg_add (aggregate l) (0, 0, 0, 1)) (subtree sub)).
        { rewrite <- Hcd. unfold add_subdir, aggregate.
          destruct (subtree sub) as [[[a b] c] d]. reflexivity. }
        now rewrite <- Hsub.
      * destruct Hn as [[= ->]|[]]. now intros [= <- <- <- <-].
      * now intros [= <- <- <- <-].
    + destruct (scan_file path n fstat l documents st)
        as [[[s1 l1] d1] st1] eqn:E.
      pose proof (scan_file_advances _ _ _ _ _ _ _ _ _ _ E) as ((Hq1 & _) & _ & Hn).
      apply scan_file_aggregate in E.
      destruct fstat as [f_stat|].
      * destruct E as [Hne E]. destruct s1 as [[]|e|c].
        -- intros H. apply IH in H; [|congruence]. now rewrite <- E.
        -- destruct Hn as [Hn|[[= ->]|[]]]; [contradiction|].
           now intros [= <- <- <- <-].
        -- now intros [= <- <- <- <-].
      * destruct E as [-> E]. intros [= <- <- <- <-]. now rewrite E.
Qed.

Lemma tree_aggregate_eq q maxdepth dir_stat contents depth :
  tree_aggregate q maxdepth (Dir (Some dir_stat) (Some contents)) depth
  = snd (walk_entries
           (fun sub => tree_aggregate q maxdepth sub (depth + 1))
           ((0 <? maxdepth) && (depth <? maxdepth) && negb q)
           contents (aggregate init_locals)).
Proof. reflexivity. Qed.

Lemma get_tree_attr_aggregate root maxdepth d :
  forall path depth documents st a documents' st',
    get_tree_attr root path d depth maxdepth documents st = (Ret a, documents', st') ->
    a = tree_aggregate (quit st) maxdepth d depth.
Proof.
  induction d as [dstat|dstat contents IH] using dir_tree_ind;
    intros path depth documents st a documents' st';
    destruct dstat as [dir_stat|];
    try (now intros [= <- <- <-]).
  rewrite tree_aggregate_eq. cbn [get_tree_attr].
  destruct (scan_loop _ path _ contents init_locals documents st)
    as [[[s1 l1] d1] st1] eqn:E.
  apply (scan_loop_aggregate depth (quit st) _
           (fun sub => tree_aggregate (quit st) maxdepth sub (depth + 1)))
    in E; [| | |reflexivity].
  2:{ clear. induction contents as [|[| |] contents IHc]; constructor; simpl; auto.
      intros p docs0 st0 s0 docs0' st0' H0.
      apply get_tree_attr_advances in H0 as (Ha0 & Hs0 & Hn0).
      split; [|split]; auto. intros; apply Hs0; lia. }
  2:{ eapply Forall_impl; [exact IH|]. intros [| |]; simpl; auto.
      intros Hsub p docs0 st0 a0 docs0' st0' Hq H0.
      apply Hsub in H0. now rewrite Hq in H0. }
  destruct s1 as [[]|e|c].
  - rewrite E. cbn [snd].
    destruct (finish_dir root path dir_stat depth l1 d1 st1)
      as [[[s2 l2] d2] st2] eqn:F.
    pose proof (finish_dir_advances _ _ _ _ _ _ _ _ _ _ _ F) as (_ & _ & Hn).
    apply finish_dir_aggregate in F.
    destruct s2 as [[]|e|c]; [|destruct Hn as [[= ->]|[]]; discriminate|];
      intros [= <- <- <-]. congruence.
  - destruct e; try (now intros [= <- <- <-]).
    rewrite E. now intros [= <- <- <-].
  - now intros [= <- <- <-].
Qed.

(** ** Shape of an aggregate *)

Lemma agg_ok_add a b : agg_ok a -> agg_ok b -> agg_ok (agg_add a b).
Proof.
  destruct a as [[[s1 u1] f1] d1], b as [[[s2 u2] f2] d2].
  unfold agg_ok; simpl. intros (H1 & H2 & H3) (H4 & H5 & H6).
  repeat split; lia.
Qed.

Lemma walk_entries_ok subtree descend contents :
  Forall (on_subdir (fun sub => agg_ok (subtree sub))) contents ->
  forall acc, agg_ok acc ->
    agg_ok (snd (walk_entries subtree descend contents acc)).
Proof.
  induction 1 as [|e contents He Hc IH]; intros acc Hacc; [exact Hacc|].
  cbn [walk_entries]. destruct e as [n|n sub|n [f_stat|]].
  - now apply IH.
  - apply IH.
    assert (agg_ok (agg_add acc (0, 0, 0, 1))).
    { apply agg_ok_add; [exact Hacc|]. unfold agg_ok; simpl; lia. }
    destruct descend; [apply agg_ok_add|]; auto.
  - apply IH. destruct (Z.ltb_spec 0 (st_size f_stat)); [|exact Hacc].
    apply agg_ok_add; [exact Hacc|]. unfold agg_ok; simpl.
    split; [lia|split; [intros; lia|lia]].
  - exact Hacc.
Qed.

Lemma tree_aggregate_ok q maxdepth d :
  forall depth, agg_ok (tree_aggregate q maxdepth d depth).
Proof.
  assert (Hz : agg_ok (0, 0, 0, 0)) by (unfold agg_ok; simpl; lia).
  induction d as [dstat|dstat contents IH] using dir_tree_ind;
    intros depth; destruct dstat as [dir_stat|]; try exact Hz.
  rewrite tree_aggregate_eq. apply walk_entries_ok; [|exact Hz].
  eapply Forall_impl; [exact IH|]. intros [| |]; simpl; auto.
Qed.

Lemma agg_add_comm a b : agg_add a b = agg_add b a.
Proof.
  destruct a as [[[s1 u1] f1] d1], b as [[[s2 u2] f2] d2].
  unfold agg_add. repeat (apply pair_equal_spec; split); lia.
Qed.

Lemma agg_add_assoc a b c : agg_add a (agg_add b c) = agg_add (agg_add a b) c.
Proof.
  destruct a as [[[s1 u1] f1] d1], b as [[[s2 u2] f2] d2],
    c as [[[s3 u3] f3] d3].
  unfold agg_add. repeat (apply pair_equal_spec; split); lia.
Qed.

Lemma subtrees_aggregate_perm q maxdepth l l' :
  Permutation l l' ->
  subtrees_aggregate q maxdepth l = subtrees_aggregate q maxdepth l'.
Proof.
  induction 1 as [|x l l' _ IH|x y l|l1 l2 l3 _ IH1 _ IH2]; simpl.
  - reflexivity.
  - now rewrite IH.
  - rewrite !agg_add_assoc. f_equal. apply agg_add_comm.
  - congruence.
Qed.

(** ** The root rollup *)

Lemma sz_add_fields r a b c d :
  sz_size (sz_add r a b c d) = sz_size r + a /\
  sz_size_du (sz_add r a b c d) = sz_size_du r + b /\
  sz_dir_count (sz_add r a b c d) = sz_dir_count r + c /\
  sz_file_count (sz_add r a b c d) = sz_file_count r + d.
Proof. destruct r; simpl; auto. Qed.

Lemma begin_bulk_advances documents st s st' :
  begin_bulk documents st = (s, st') ->
  advances st st' /\ sizes st' = sizes st /\ no_exception s.
Proof.
  destruct (begin_bulk_cases documents st) as [[_ ->]|[_ ->]];
    intros [= <- <-]; simpl; auto using advances_log_bulk, advances_refl.
Qed.

(** The effect of a first-level subtree task on [sizes[root]]: the
    aggregate of the subtree is added to it. *)
Lemma crawl_thread_rollup root top d maxdepth st documents' st' :
  top <> root ->
  crawl_thread root top d 1 maxdepth st = (Ret tt, documents', st') ->
  advances st st' /\
  match sizes st !! root with
  | Some r =>
      exists r', sizes st' !! root = Some r' /\
        let a := tree_aggregate (quit st) maxdepth d 1 in
        sz_size r' = sz_size r + agg_size a /\
        sz_size_du r' = sz_size_du r + agg_size_du a /\
        sz_file_count r' = sz_file_count r + agg_files a
  | None => sizes st' !! root = None
  end.
Proof.
  intros Hne. unfold crawl_thread.
  destruct (get_tree_attr root top d 1 maxdepth [] st) as [[s1 d1] st1] eqn:E.
  pose proof (get_tree_attr_advances _ _ _ _ _ _ _ _ _ _ E) as (Ha & Hs & _).
  specialize (Hs ltac:(lia)).
  destruct s1 as [a| |]; [|discriminate..].
  apply get_tree_attr_aggregate in E. subst a.
  pose proof (tree_aggregate_ok (quit st) maxdepth d 1) as (Hf & Hu & _).
  destruct (tree_aggregate (quit st) maxdepth d 1) as [[[size size_du] fc] dc].
  simpl in Hf, Hu.
  set (flushed := if 0 <? Z.of_nat (length d1) then _ else _).
  assert (Hfl : exists s2 d2 st2, flushed = (s2, d2, st2) /\
                 advances st1 st2 /\ sizes st2 = sizes st1).
  { subst flushed. destruct (0 <? Z.of_nat (length d1)).
    - destruct (begin_bulk d1 st1) as [s2 st2] eqn:B.
      apply begin_bulk_advances in B as (Hb & Hbs & _).
      destruct s2; eauto 8.
    - do 3 eexists. split; [reflexivity|]. auto using advances_refl. }
  destruct Hfl as (s2 & d2 & st2 & -> & Hb & Hbs).
  destruct s2 as [[]| |]; [|discriminate..].
  cbn [Z.ltb Z.compare]. cbn [sizes set_sizes].
  rewrite (lookup_insert_ne _ top root) by exact Hne.
  rewrite lookup_insert_eq. rewrite Hbs, Hs.
  assert (Hadv : advances st st2) by eauto using advances_trans.
  destruct (Z.ltb_spec 0 size) as [Hsz|Hsz].
  - destruct (sizes st !! root) as [r|] eqn:R; [|discriminate].
    intros [= <- <-]. split.
    { destruct Hadv as (? & ? & ? & ?). repeat split; auto. }
    cbn [sizes set_sizes]. rewrite lookup_insert_eq.
    eexists. split; [reflexivity|].
    destruct (sz_add_fields r size size_du dc fc) as (-> & -> & _ & ->).
    simpl. auto.
  - intros [= <- <-]. split.
    { destruct Hadv as (? & ? & ? & ?). repeat split; auto. }
    cbn [sizes set_sizes].
    rewrite (lookup_insert_ne _ top root) by exact Hne. rewrite ?Hbs, ?Hs.
    destruct (sizes st !! root) as [r|]; [|reflexivity].
    exists r. split; [reflexivity|].
    assert (size = 0) by lia. assert (fc = 0) by lia.
    simpl. rewrite Hu by assumption. lia.
Qed.

Lemma run_subdirs_rollup root maxdepth tasks :
  Forall (fun t => fst t <> root) tasks ->
  forall st st',
    run_subdirs root maxdepth tasks st = (Ret tt, st') ->
    advances st st' /\
    match sizes st !! root with
    | Some r =>
        exists r', sizes st' !! root = Some r' /\
          let a := subtrees_aggregate (quit st) maxdepth tasks in
          sz_size r' = sz_size r + agg_size a /\
          sz_size_du r' = sz_size_du r + agg_size_du a /\
          sz_file_count r' = sz_file_count r + agg_files a
    | None => sizes st' !! root = None
    end.
Proof.
  induction 1 as [|[top d] tasks Hne Hf IH]; intros st st'.
  - intros [= <-]. split; [apply advances_refl|].
    destruct (sizes st !! root) as [r|]; [|reflexivity].
    exists r. simpl. split; [reflexivity|lia].
  - cbn [run_subdirs].
    destruct (crawl_thread root top d 1 maxdepth st) as [[s1 d1] st1] eqn:E.
    destruct s1 as [[]| |]; [|discriminate..].
    apply crawl_thread_rollup in E as (Ha & Hr); [|exact Hne].
    intros H. apply IH in H as (Ha' & Hr').
    split; [eauto using advances_trans|].
    destruct Ha as (Hq & _).
    destruct (sizes st !! root) as [r|].
    + destruct Hr as (r1 & Hr1 & H1 & H2 & H3). rewrite Hr1 in Hr'.
      destruct Hr' as (r2 & Hr2 & H4 & H5 & H6).
      exists r2. split; [exact Hr2|].
      rewrite Hq in H4, H5, H6. cbn [subtrees_aggregate fold_right snd].
      fold (subtrees_aggregate (quit st) maxdepth tasks).
      destruct (tree_aggregate (quit st) maxdepth d 1) as [[[a1 b1] c1] e1].
      destruct (subtrees_aggregate (quit st) maxdepth tasks) as [[[a2 b2] c2] e2].
      simpl in *. lia.
    + now rewrite Hr in Hr'.
Qed.

Lemma path_join_not_root root name :
  valid_name name = true -> path_join root name <> root.
Proof.
  unfold valid_name, path_join. destruct name as [|c name]; [discriminate|].
  cbn [existsb startswith negb andb].
  intros Hv. apply negb_true_iff, orb_false_iff in Hv as [Hc _].
  rewrite Z.eqb_sym in Hc. rewrite Hc. cbn [andb].
  intros H. apply (f_equal (@length Z)) in H.
  destruct (_ || _); rewrite length_app in H; simpl in H; lia.
Qed.

Lemma subdir_list_not_root root contents :
  Forall (fun e => valid_name (entry_name e) = true) contents ->
  Forall (fun t => fst t <> root) (subdir_list root contents).
Proof.
  induction 1 as [|[| |] contents He Hc IH]; simpl; auto.
  constructor; [|exact IH]. now apply path_join_not_root.
Qed.

(** ** The depth-0 pass *)

Lemma finish_dir_root root path dir_stat l documents st s l' documents' st' :
  finish_dir root path dir_stat 0 l documents st = (s, l', documents', st') ->
  (s = Exc ValueError /\ sizes st' = sizes st) \/
  (s = Ret tt /\ documents' = documents /\
   if (0 <? l_files l) || (0 <? l_dirs l)
   then exists r, sizes st' = <[root := SzDoc r]> (sizes st) /\
          d_size r = l_size l' /\ d_size_du r = l_size_du l' /\
          d_file_count r = l_files l' /\ d_dir_count r = l_dirs l' + 1
   else sizes st' = sizes st).
Proof.
  unfold finish_dir.
  destruct ((0 <? l_files l) || (0 <? l_dirs l)).
  2:{ intros [= <- <- <- <-]. now right. }
  pose proof (sizes_owner (st_uid dir_stat) st) as So.
  destruct (get_owner_name (st_uid dir_stat) st) as [owner st1]. simpl in So.
  pose proof (sizes_group (st_gid dir_stat) st1) as Sg.
  destruct (get_group_name (st_gid dir_stat) st1) as [group st2]. simpl in Sg.
  destruct (decode_dir_names_total path) as (n & p & w & ->).
  assert (Sw : sizes (if w then incr_warnings st2 else st2) = sizes st)
    by (destruct w; simpl; congruence).
  destruct (dir_data dir_stat owner group n p _) as [data|] eqn:D.
  2:{ intros [= <- <- <- <-]. now left. }
  cbn [Z.ltb Z.compare]. intros [= <- <- <- <-]. right.
  do 2 (split; [reflexivity|]).
  exists data.
  split; [cbn [sizes add_counters set_sizes]; rewrite Sw; reflexivity|].
  apply dir_data_fields in D as (D1 & D2 & D3 & D4 & _). auto.
Qed.

(** The depth-0 pass stores the root's own aggregate, with the root itself
    counted among the directories, or leaves [sizes] as it is. *)
Lemma get_tree_attr_root root path d maxdepth documents st a documents' st' :
  get_tree_attr root path d 0 maxdepth documents st = (Ret a, documents', st') ->
  sizes st' = sizes st \/
  exists r, sizes st' = <[root := SzDoc r]> (sizes st) /\
    d_size r = agg_size a /\ d_size_du r = agg_size_du a /\
    d_file_count r = agg_files a /\ d_dir_count r = agg_dirs a + 1.
Proof.
  destruct d as [[dir_stat|] [contents|]]; cbn [get_tree_attr];
    try (intros [= <- <- <-]; now left).
  destruct (scan_loop _ path _ contents init_locals documents st)
    as [[[s1 l1] d1] st1] eqn:E.
  apply (scan_loop_advances 0) in E as (Ha & Hs & Hn).
  2:{ clear. induction contents as [|[| |] contents IHc]; constructor; simpl; auto.
      intros p docs0 st0 s0 docs0' st0' H0.
      apply get_tree_attr_advances in H0 as (Ha0 & Hs0 & Hn0).
      split; [|split]; auto. intros; apply Hs0; lia. }
  specialize (Hs ltac:(lia)).
  destruct s1 as [[]|e|c].
  - destruct (finish_dir root path dir_stat 0 l1 d1 st1)
      as [[[s2 l2] d2] st2] eqn:F.
    apply finish_dir_root in F as [[-> _]|(-> & -> & F)]; [discriminate|].
    intros [= <- <- <-].
    destruct (_ || _).
    + right. destruct F as (r & -> & F). exists r. rewrite Hs. auto.
    + left. congruence.
  - destruct e; try discriminate. intros [= <- <- <-]. left. exact Hs.
  - discriminate.
Qed.

Lemma crawl_thread_root root d st documents' st' :
  crawl_thread root root d 0 0 st = (Ret tt, documents', st') ->
  advances st st' /\
  (sizes st' = sizes st \/
   exists r, sizes st' = <[root := SzDoc r]> (sizes st) /\
     let a := tree_aggregate (quit st) 0 d 0 in
     d_size r = agg_size a /\ d_size_du r = agg_size_du a /\
     d_file_count r = agg_files a /\ d_dir_count r = agg_dirs a + 1).
Proof.
  unfold crawl_thread.
  destruct (get_tree_attr root root d 0 0 [] st) as [[s1 d1] st1] eqn:E.
  pose proof (get_tree_attr_advances _ _ _ _ _ _ _ _ _ _ E) as (Ha & _ & _).
  destruct s1 as [a| |]; [|discriminate..].
  pose proof (get_tree_attr_aggregate _ _ _ _ _ _ _ _ _ _ E) as ->.
  apply get_tree_attr_root in E.
  destruct (tree_aggregate (quit st) 0 d 0) as [[[size size_du] fc] dc].
  destruct (0 <? Z.of_nat (length d1)).
  - destruct (begin_bulk d1 st1) as [s2 st2] eqn:B.
    apply begin_bulk_advances in B as (Hb & Hbs & _).
    destruct s2 as [[]| |]; [|discriminate..].
    cbn [Z.ltb Z.compare]. intros [= <- <-]. split.
    + eapply advances_trans; [exact Ha|].
      destruct Hb as (? & ? & ? & ?). repeat split; auto.
    + cbn [sizes add_total_documents]. now rewrite Hbs.
  - cbn [Z.ltb Z.compare]. intros [= <- <-]. auto.
Qed.

Lemma finish_crawl_sizes root st : sizes (finish_crawl root st) = sizes st.
Proof.
  unfold finish_crawl. destruct (sizes st !! root); [reflexivity|].
  now destruct (_ =? 0).
Qed.

(** C1.  When a crawl ends with a rollup entry for the root, the size,
    size on disk and file count of that entry are those of the root's
    direct children, stored by the depth-0 pass, plus the sums over the
    aggregates of all first-level subtrees, whatever the order in which
    the subtree tasks complete. *)
Theorem root_rollup_sum root dstat contents maxdepth st st' r :
  (forall tasks, Permutation (order tasks) tasks) ->
  Forall (fun e => valid_name (entry_name e) = true) contents ->
  sizes st !! root = None ->
  crawl root (Dir dstat (Some contents)) maxdepth st = (Ret tt, st') ->
  sizes st' !! root = Some r ->
  let base := tree_aggregate (quit st) 0 (Dir dstat (Some contents)) 0 in
  let subs :=
    subtrees_aggregate (quit st) maxdepth (subdir_list root contents) in
  sz_size r = agg_size base + agg_size subs /\
  sz_size_du r = agg_size_du base + agg_size_du subs /\
  sz_file_count r = agg_files base + agg_files subs.
Proof.
  intros Hperm Hnames Hnone. unfold crawl.
  destruct (crawl_thread root root _ 0 0 st) as [[s1 d1] st1] eqn:E.
  destruct s1 as [[]| |]; [|discriminate..].
  apply crawl_thread_root in E as ((Hq & _) & E).
  destruct (run_subdirs root maxdepth (order (subdir_list root contents)) st1)
    as [s2 st2] eqn:R.
  destruct s2 as [[]| |]; [|discriminate..].
  apply run_subdirs_rollup in R as (_ & R).
  2:{ eapply Permutation_Forall; [symmetry; apply Hperm|].
      now apply subdir_list_not_root. }
  intros [= <-]. rewrite finish_crawl_sizes.
  rewrite Hq, (subtrees_aggregate_perm _ _ _ _ (Hperm _)) in R.
  destruct E as [E|(r0 & E & E1 & E2 & E3 & _)]; rewrite E in R.
  - rewrite Hnone in R. congruence.
  - rewrite lookup_insert_eq in R. destruct R as (r' & -> & R1 & R2 & R3).
    intros [= <-]. cbv zeta in *.
    cbn [sz_size sz_size_du sz_file_count] in *. lia.
Qed.

(** ** How a crawl ends *)

Lemma advances_fields st st' :
  quit st' = quit st -> emptyindex st' = emptyindex st ->
  warnings st' = warnings st -> es_log st' = es_log st ->
  advances st st'.
Proof.
  intros Hq He Hw Hl. repeat split; auto; try lia.
  exists []. simpl. now rewrite app_nil_r.
Qed.

Lemma crawl_thread_advances root top d depth maxdepth st s documents' st' :
  crawl_thread root top d depth maxdepth st = (s, documents', st') ->
  advances st st' /\
  (s = Exc KeyError \/ s = Exc ValueError \/ no_exception s).
Proof.
  unfold crawl_thread.
  destruct (get_tree_attr root top d depth maxdepth [] st) as [[s1 d1] st1] eqn:E.
  apply get_tree_attr_advances in E as (Ha & _ & Hn).
  destruct s1 as [[[[size size_du] fc] dc]|e|c];
    [|destruct Hn as [[= ->]|[]]; intros [= <- <- <-]; now auto
     |destruct Hn as [[=]|Hn]; intros [= <- <- <-]; now auto].
  set (flushed := if 0 <? Z.of_nat (length d1) then _ else _).
  assert (Hfl : exists s2 d2 st2, flushed = (s2, d2, st2) /\
                 advances st1 st2 /\ no_exception s2).
  { subst flushed. destruct (0 <? Z.of_nat (length d1)).
    - destruct (begin_bulk d1 st1) as [s2 st2] eqn:B.
      apply begin_bulk_advances in B as (Hb & _ & Hn2).
      destruct s2 as [[]| |]; [|destruct Hn2|]; do 3 eexists;
        (split; [reflexivity|]); split; auto.
    - do 3 eexists. split; [reflexivity|]. split; [apply advances_refl|exact I]. }
  destruct Hfl as (s2 & d2 & st2 & -> & Hb & Hn2).
  assert (Hadv : advances st st2) by eauto using advances_trans.
  destruct s2 as [[]|e|c]; [|destruct Hn2|intros [= <- <- <-]; now auto].
  destruct (0 <? depth); [|intros [= <- <- <-]; simpl; now auto].
  destruct (0 <? size).
  2:{ intros [= <- <- <-]. split; [|simpl; auto].
      eapply advances_trans; [exact Hadv|]. now apply advances_fields. }
  destruct (sizes _ !! root); [destruct (sizes _ !! top)|];
    intros [= <- <- <-]; (split; [|simpl; auto]);
    (eapply advances_trans; [exact Hadv|]); now apply advances_fields.
Qed.

Lemma run_subdirs_advances root maxdepth tasks :
  forall st s st',
    run_subdirs root maxdepth tasks st = (s, st') ->
    advances st st' /\ no_exception s.
Proof.
  induction tasks as [|[top d] tasks IH]; intros st s st'.
  - intros [= <- <-]. split; [apply advances_refl|exact I].
  - cbn [run_subdirs].
    destruct (crawl_thread root top d 1 maxdepth st) as [[s1 d1] st1] eqn:E.
    apply crawl_thread_advances in E as (Ha & Hn).
    destruct s1 as [[]|e|c].
    + intros H. apply IH in H as (Ha' & Hn').
      split; [eauto using advances_trans|exact Hn'].
    + intros [= <- <-]. split; [exact Ha|reflexivity].
    + intros [= <- <-]. destruct Hn as [[=]|[[=]|Hn]]. auto.
Qed.

(** A crawl of a root that can be listed either runs to its end, through
    [finish_crawl], or ends the process with status 1. *)
Lemma crawl_cases root dstat contents maxdepth st s st' :
  crawl root (Dir dstat (Some contents)) maxdepth st = (s, st') ->
  (s = OsExit 1 /\ advances st st') \/
  (s = Ret tt /\ exists st1, advances st st1 /\ st' = finish_crawl root st1).
Proof.
  unfold crawl.
  destruct (crawl_thread root root _ 0 0 st) as [[s1 d1] st1] eqn:E.
  apply crawl_thread_advances in E as (Ha & Hn).
  destruct s1 as [[]|e|c].
  - destruct (run_subdirs root maxdepth _ st1) as [s2 st2] eqn:R.
    apply run_subdirs_advances in R as (Ha' & Hn').
    assert (advances st st2) by eauto using advances_trans.
    destruct s2 as [[]|e|c]; [|destruct Hn'|]; intros [= <- <-].
    + right. eauto.
    + left. simpl in Hn'. subst c. auto.
  - intros [= <- <-]. left. auto.
  - intros [= <- <-]. destruct Hn as [[=]|[[=]|Hn]]. simpl in Hn. subst c. auto.
Qed.

Lemma drain_subdirs_advances root maxdepth tasks :
  forall st s st',
    drain_subdirs root maxdepth tasks st = (s, st') ->
    advances st st' /\ no_exception s.
Proof.
  induction tasks as [|[top d] tasks IH]; intros st s st'.
  - intros [= <- <-]. split; [apply advances_refl|exact I].
  - cbn [drain_subdirs].
    destruct (crawl_thread root top d 1 maxdepth st) as [[s1 d1] st1] eqn:E.
    apply crawl_thread_advances in E as (Ha & Hn).
    destruct s1 as [[]|e|c].
    + intros H. apply IH in H as (Ha' & Hn').
      split; [eauto using advances_trans|exact Hn'].
    + intros H. apply IH in H as (Ha' & Hn').
      split; [eauto using advances_trans|exact Hn'].
    + intros [= <- <-]. destruct Hn as [[=]|[[=]|Hn]]. auto.
Qed.

(** An interrupted crawl of a root that can be listed ends the process
    with status 1 or leaves [crawl] with the interrupt. *)
Lemma crawl_interrupted_cases point root dstat contents maxdepth st s st' :
  crawl_interrupted point root (Dir dstat (Some contents)) maxdepth st
    = (s, st') ->
  advances st st' /\ (s = OsExit 1 \/ s = Exc KeyboardInterrupt).
Proof.
  unfold crawl_interrupted.
  destruct (crawl_thread root root _ 0 0 st) as [[s1 d1] st1] eqn:E.
  apply crawl_thread_advances in E as (Ha & Hn).
  destruct point as [|k].
  - destruct s1 as [[]|e|c]; intros [= <- <-]; auto.
    destruct Hn as [[=]|[[=]|Hn]]. simpl in Hn. subst c. auto.
  - destruct s1 as [[]|e|c].
    + destruct (run_subdirs root maxdepth _ st1) as [s2 st2] eqn:R.
      apply run_subdirs_advances in R as (Ha' & Hn').
      assert (advances st st2) by eauto using advances_trans.
      destruct s2 as [[]|e|c]; [|destruct Hn'|].
      * destruct (drain_subdirs root maxdepth _ st2) as [s3 st3] eqn:D.
        apply drain_subdirs_advances in D as (Ha3 & Hn3).
        assert (advances st st3) by eauto using advances_trans.
        destruct s3 as [[]|e|c]; intros [= <- <-]; auto.
        simpl in Hn3. subst c. auto.
      * intros [= <- <-]. simpl in Hn'. subst c. auto.
    + intros [= <- <-]. auto.
    + intros [= <- <-]. destruct Hn as [[=]|[[=]|Hn]]. simpl in Hn. subst c.
      auto.
Qed.

(** C7.  When a crawl ends without a rollup entry for the root, the run is
    marked empty and, after the uploads of the workers, the backend is
    refreshed and asked for its document count; the index is deleted
    exactly when that count is zero, and no root record is written. *)
Theorem empty_crawl root d maxdepth st st' :
  crawl root d maxdepth st = (Ret tt, st') ->
  sizes st' !! root = None ->
  exists batches,
    let uploads := es_log st ++ List.map EsBulk batches in
    let res := es_count (uploads ++ [EsRefresh]) in
    emptyindex st' = true /\
    es_log st' =
      uploads ++ [EsRefresh; EsCount] ++ (if res =? 0 then [EsDelete] else []) /\
    (In EsDelete (List.skipn (length uploads) (es_log st')) <-> res = 0) /\
    (forall e, ~ In (EsIndexRoot e) (List.skipn (length (es_log st)) (es_log st'))).
Proof.
  destruct d as [dstat [contents|]]; [|discriminate].
  intros H Hnone. apply crawl_cases in H as [[[=] _]|(_ & st1 & Ha & ->)].
  rewrite finish_crawl_sizes in Hnone.
  destruct Ha as (_ & _ & _ & batches & Hl).
  exists batches. cbv zeta. unfold finish_crawl. rewrite Hnone.
  cbn [es_log log_es set_emptyindex]. rewrite Hl.
  set (uploads := es_log st ++ List.map EsBulk batches).
  set (res := es_count (uploads ++ [EsRefresh])).
  assert (Hlog : es_log (if res =? 0
                         then log_es EsDelete
                                (log_es EsCount (log_es EsRefresh (set_emptyindex true st1)))
                         else log_es EsCount (log_es EsRefresh (set_emptyindex true st1)))
                 = uploads ++ [EsRefresh; EsCount]
                   ++ (if res =? 0 then [EsDelete] else [])).
  { destruct (res =? 0); cbn [es_log log_es set_emptyindex]; rewrite Hl;
      fold uploads; now rewrite <- !app_assoc. }
  split; [now destruct (res =? 0)|].
  split; [exact Hlog|]. rewrite Hlog. split.
  - rewrite skipn_app, Nat.sub_diag, skipn_all. cbn [skipn app].
    destruct (Z.eqb_spec res 0) as [E|E]; simpl; split.
    + intros _. exact E.
    + intros _. auto.
    + intros [H|[H|[]]]; discriminate.
    + intros H. contradiction.
  - intros e. unfold uploads. rewrite <- app_assoc, skipn_app, Nat.sub_diag, skipn_all.
    cbn [skipn app]. clear. intros [H|H]%in_app_or.
    + apply in_map_iff in H as (b & [=] & _).
    + destruct (res =? 0); simpl in H;
        repeat (destruct H as [H|H]; [discriminate|]); destruct H.
Qed.

(** ** Exit status *)

Lemma finish_crawl_quit root st :
  quit (finish_crawl root st) = quit st.
Proof.
  unfold finish_crawl. destruct (sizes st !! root); [reflexivity|].
  now destruct (_ =? 0).
Qed.

Lemma exit_app_first st :
  quit st = false ->
  fst (exit_app st) = Exc (SystemExit (if 0 <? warnings st then 78 else 0)) /\
  quit (snd (exit_app st)) = true /\
  warnings (snd (exit_app st)) = warnings st.
Proof.
  intros Hq. unfold exit_app. rewrite Hq.
  destruct (emptyindex _); cbn [warnings set_quit log_es];
    now destruct (0 <? warnings st).
Qed.

(** C8, as the code has it.  [scan] ends with status 0 or 78 exactly when
    the crawl ran to its end ([exit_app] has set [quit]): 78 when warnings
    were counted, 0 otherwise.  A failed connection and an index name
    without the required text end it with status 1 before anything is
    created.  A critical abort is [os._exit(1)]: it has the same status 1,
    and every run that does not reach [exit_app] ends with 1, except the
    empty root, which ends with 0. *)
Theorem scan_exit_status index path maxdepth d :
  let s := fst (scan index path maxdepth d) in
  let st := snd (scan index path maxdepth d) in
  (quit st = true -> exit_status s = if 0 <? warnings st then 78 else 0) /\
  (connection_ok = false -> exit_status s = 1 /\ st = init_state) /\
  (index <> [] -> contains index required_prefix = false ->
   exit_status s = 1 /\ st = init_state) /\
  (forall c, s = OsExit c -> c = 1 /\ quit st = false) /\
  (quit st = false ->
   exit_status s = 1 \/ (exit_status s = 0 /\ st = init_state)).
Proof.
  cbv zeta. unfold scan.
  destruct connection_ok; cbn [negb].
  2:{ cbn. repeat split; try discriminate; auto. }
  destruct (negb (match index with [] => true | _ => false end)
            && negb (contains index required_prefix)) eqn:P.
  { cbn. repeat split; try discriminate; auto. }
  assert (HP : index <> [] -> contains index required_prefix = false -> False).
  { intros Hi Hc. rewrite Hc in P. destruct index; [congruence|discriminate]. }
  destruct d as [dstat [contents|]].
  2:{ cbn. repeat split; try discriminate; auto; intros; exfalso; auto. }
  destruct (count_entries contents =? 0).
  { cbn. repeat split; try discriminate; auto; intros; exfalso; auto. }
  destruct (check_index _).
  { cbn. repeat split; try discriminate; auto; intros; exfalso; auto. }
  set (st0 := log_es EsIndexStart _).
  assert (Hq0 : quit st0 = false) by reflexivity.
  destruct interrupt as [point|].
  { destruct (crawl_interrupted point _ _ maxdepth st0) as [s1 st1] eqn:C.
    apply crawl_interrupted_cases in C as [(Hq & _) [-> | ->]].
    - cbn [fst snd exit_status]. rewrite Hq, Hq0.
      repeat split; try discriminate; auto; try (intros; exfalso; now auto);
        congruence.
    - destruct (exit_app_first st1) as (Hs3 & Hq3 & Hw3); [congruence|].
      destruct (exit_app st1) as [s3 st3]. cbn [fst snd] in *. subst s3.
      rewrite Hq3, Hw3. cbn [exit_status].
      repeat split; try discriminate; auto; intros; exfalso; auto. }
  destruct (crawl _ _ maxdepth st0) as [s1 st1] eqn:C.
  apply crawl_cases in C as [[-> (Hq & _)]|(-> & st2 & (Hq & _) & ->)].
  - cbn [fst snd exit_status]. rewrite Hq, Hq0.
    repeat split; try discriminate; auto; try (intros; exfalso; now auto);
      congruence.
  - destruct (exit_app_first (finish_crawl (abspath
               (if negb (str_eqb path [sep]) then rstrip_char sep path else path)) st2))
      as (Hs3 & Hq3 & Hw3).
    { rewrite finish_crawl_quit. congruence. }
    destruct (exit_app _) as [s3 st3]. cbn [fst snd] in *. subst s3.
    rewrite Hq3, Hw3. cbn [exit_status].
    repeat split; try discriminate; auto; intros; exfalso; auto.
Qed.

(** ** The stream of records *)

Lemma flushed_log_app a b :
  flushed_log (a ++ b) = flushed_log a ++ flushed_log b.
Proof.
  induction a as [|[] a IH]; simpl; auto. now rewrite IH.
Qed.

Lemma stream_log_bulk documents st :
  stream [] (log_es (EsBulk documents) st) = stream documents st.
Proof.
  unfold stream, flushed. cbn [es_log log_es].
  rewrite flushed_log_app, concat_app. simpl. now rewrite !app_nil_r.
Qed.

Lemma stream_same_log documents st st' :
  es_log st' = es_log st -> stream documents st' = stream documents st.
Proof. unfold stream, flushed. now intros ->. Qed.

(** Appending a record adds it to the stream, whether or not the batch is
    uploaded at once. *)
Lemma append_document_stream data l documents st s l' documents' st' :
  append_document data l documents st = (s, l', documents', st') ->
  stream documents' st' = stream documents st ++ [data].
Proof.
  unfold append_document.
  destruct (elastic_chunksize <=? _).
  - destruct (begin_bulk_cases (documents ++ [data]) st) as [[_ ->]|[_ ->]];
      intros [= <- <- <- <-].
    + rewrite stream_log_bulk. unfold stream. now rewrite app_assoc.
    + unfold stream. now rewrite app_assoc.
  - intros [= <- <- <- <-]. unfold stream. now rewrite app_assoc.
Qed.

Lemma walk_entries_complete subtree descend contents acc :
  fst (walk_entries subtree descend contents acc) = all_stats_ok contents.
Proof.
  revert acc. induction contents as [|[n|n sub|n [f_stat|]] contents IH];
    intros acc; cbn [walk_entries all_stats_ok forallb andb]; auto.
Qed.

(** C10.  A frame whose listing is walked to its end and that is not
    skipped builds its record with [dir_count] one more than the number
    of directories it returns to its caller: at depth above 0 the record
    is the last one appended to the worker's stream, at depth 0 it is the
    rollup entry stored under the root.  The returned aggregate is that of
    the subtree alone, and [scan] starts the shared directory counter of
    the root at 1. *)
Theorem dir_count_includes_self root path dir_stat contents depth maxdepth
    documents st a documents' st' :
  get_tree_attr root path (Dir (Some dir_stat) (Some contents)) depth maxdepth
    documents st = (Ret a, documents', st') ->
  all_stats_ok contents = true ->
  0 < agg_files a \/ 0 < agg_dirs a ->
  a = tree_aggregate (quit st) maxdepth (Dir (Some dir_stat) (Some contents)) depth /\
  (0 < depth ->
   exists r earlier, stream documents' st' = earlier ++ [DirDoc r] /\
     d_dir_count r = agg_dirs a + 1 /\ d_size r = agg_size a /\
     d_size_du r = agg_size_du a /\ d_file_count r = agg_files a) /\
  (depth <= 0 ->
   exists r, sizes st' !! root = Some (SzDoc r) /\
     d_dir_count r = agg_dirs a + 1 /\ d_size r = agg_size a /\
     d_size_du r = agg_size_du a /\ d_file_count r = agg_files a) /\
  dircount (init_counters st) = 1.
Proof.
  intros H Hok Hpos.
  pose proof (get_tree_attr_aggregate _ _ _ _ _ _ _ _ _ _ H) as Ha.
  split; [exact Ha|]. split; [|split; [|reflexivity]].
  all: revert H; cbn [get_tree_attr].
  all: destruct (scan_loop _ path _ contents init_locals documents st)
         as [[[s1 l1] d1] st1] eqn:E.
  all: pose proof E as E';
       apply (scan_loop_aggregate depth (quit st) _
                (fun sub => tree_aggregate (quit st) maxdepth sub (depth + 1)))
         in E'; [| | |reflexivity].
  all: try (clear; induction contents as [|[| |] contents IHc];
            constructor; simpl; auto;
            intros p docs0 st0 s0 docs0' st0' H0;
            apply get_tree_attr_advances in H0 as (Ha0 & Hs0 & Hn0);
            split; [|split]; auto; intros; apply Hs0; lia).
  all: try (clear; induction contents as [|[| |] contents IHc];
            constructor; simpl; auto;
            intros p docs0 st0 a0 docs0' st0' Hq H0;
            apply get_tree_attr_aggregate in H0; now rewrite Hq in H0).
  all: destruct s1 as [[]|e|c]; [| |discriminate].
  all: try (destruct e; try discriminate;
            apply (f_equal fst) in E'; rewrite walk_entries_complete in E';
            cbn in E'; congruence).
  all: destruct (finish_dir root path dir_stat depth l1 d1 st1)
         as [[[s2 l2] d2] st2] eqn:F.
  all: pose proof (finish_dir_advances _ _ _ _ _ _ _ _ _ _ _ F) as (_ & _ & Hn).
  all: destruct s2 as [[]|e|c];
         [|destruct Hn as [[= ->]|[]]; discriminate|discriminate].
  all: intros [= <- <- <-].
  all: pose proof (finish_dir_aggregate _ _ _ _ _ _ _ _ _ _ _ F) as Hagg.
  all: revert F; unfold finish_dir.
  all: replace ((0 <? l_files l1) || (0 <? l_dirs l1)) with true
         by (symmetry; apply orb_true_iff; rewrite !Z.ltb_lt;
             rewrite Hagg in Hpos; exact Hpos).
  all: destruct (get_owner_name (st_uid dir_stat) st1) as [owner st3].
  all: destruct (get_group_name (st_gid dir_stat) st3) as [group st4].
  all: destruct (decode_dir_names_total path) as (n & p & w & ->).
  all: destruct (dir_data dir_stat owner group n p _) as [data|] eqn:D;
         [|discriminate].
  all: apply dir_data_fields in D as (D1 & D2 & D3 & D4 & _);
       cbn [l_size l_size_du l_files l_dirs set_parent_path] in D1, D2, D3, D4.
  - intros F Hd. apply Z.ltb_lt in Hd. rewrite Hd in F.
    destruct (append_document _ _ d1 _) as [[[s5 l5] d5] st5] eqn:A.
    apply append_document_stream in A.
    destruct s5 as [[]|e|c]; [|discriminate..].
    injection F as <- <- <-.
    rewrite (stream_same_log _ st5) by reflexivity. rewrite A.
    eexists _, _. split; [reflexivity|].
    rewrite Hagg, D1, D2, D3, D4. cbn. repeat split; reflexivity.
  - intros F Hd.
    replace (0 <? depth) with false in F by (symmetry; apply Z.ltb_ge; lia).
    injection F as <- <- <-. cbn [sizes add_counters set_sizes].
    rewrite lookup_insert_eq.
    eexists. split; [reflexivity|].
    rewrite D1, D2, D3, D4. cbn. repeat split; reflexivity.
Qed.

(** ** Steps that leave the log and the warnings alone *)

Lemma get_owner_name_fields uid st :
  warnings (snd (get_owner_name uid st)) = warnings st /\
  es_log (snd (get_owner_name uid st)) = es_log st.
Proof. unfold get_owner_name. now destruct (uid_name st !! uid). Qed.

Lemma get_group_name_fields gid st :
  warnings (snd (get_group_name gid st)) = warnings st /\
  es_log (snd (get_group_name gid st)) = es_log st.
Proof. unfold get_group_name. now destruct (gid_name st !! gid). Qed.

Lemma append_document_cases data l documents st s l' documents' st' :
  append_document data l documents st = (s, l', documents', st') ->
  warnings st' = warnings st /\
  (s = Ret tt \/
   (s = OsExit 1 /\ bulk_ok (es_log st) (documents ++ [data]) = false)).
Proof.
  unfold append_document.
  destruct (elastic_chunksize <=? _).
  - destruct (begin_bulk_cases (documents ++ [data]) st) as [[Hb ->]|[Hb ->]];
      intros [= <- <- <- <-]; auto.
  - intros [= <- <- <- <-]. auto.
Qed.

Lemma decode_file_names_lossy parent_path content_path content_name :
  get_file_name content_name false = None ->
  exists p lossy,
    get_file_name content_name true = Some lossy /\
    decode_file_names parent_path content_path content_name
      = Some (p, lossy, true).
Proof.
  intros Hs. unfold decode_file_names. rewrite Hs.
  destruct (handle_unicode_replace content_name) as [g Hg].
  destruct (handle_unicode_replace (dirname content_path)) as [h Hh].
  unfold get_file_name, get_parent_path. rewrite Hg, Hh.
  destruct parent_path as [p|];
    [|destruct (handle_unicode (dirname content_path) false)]; eauto.
Qed.

(** ** Invariants of the batch buffer *)

(** A property of the worker's [documents] list and of the backend's log
    that every append preserves is preserved by a whole traversal, for
    nothing else touches either. *)
Section Buffer_invariant.

Variable inv : list document -> list es_call -> Prop.

Hypothesis inv_append :
  forall data l documents st l' documents' st',
    inv documents (es_log st) ->
    append_document data l documents st = (Ret tt, l', documents', st') ->
    inv documents' (es_log st').

Definition inv_after {A : Type} (s : signal A) (documents : list document)
    (st : state) : Prop :=
  match s with
  | OsExit _ => True
  | _ => inv documents (es_log st)
  end.

Lemma scan_file_inv path name fstat l documents st s l' documents' st' :
  inv documents (es_log st) ->
  scan_file path name fstat l documents st = (s, l', documents', st') ->
  inv_after s documents' st'.
Proof using inv_append.
  intros Hi. unfold scan_file.
  destruct fstat as [f_stat|]; [|now intros [= <- <- <- <-]].
  destruct (0 <? st_size f_stat); [|now intros [= <- <- <- <-]].
  destruct (get_owner_name_fields (st_uid f_stat) st) as (_ & Lo).
  destruct (get_owner_name (st_uid f_stat) st) as [owner st1].
  destruct (get_group_name_fields (st_gid f_stat) st1) as (_ & Lg).
  destruct (get_group_name (st_gid f_stat) st1) as [group st2].
  cbn [snd] in *.
  destruct (decode_file_names_total
              (l_parent_path (add_file (st_size f_stat)
                                (st_blocks f_stat * blocksize) (count_file l)))
              (path_join path name) name) as (p & n & w & ->).
  assert (Hw : inv documents (es_log (if w then incr_warnings st2 else st2))).
  { destruct w; cbn [es_log incr_warnings]; congruence. }
  destruct (file_data f_stat owner group n p name) as [data|];
    [|now intros [= <- <- <- <-]].
  intros A.
  pose proof (append_document_advances _ _ _ _ _ _ _ _ A) as (_ & _ & Hn).
  destruct s as [[]|e|c]; [|destruct Hn|exact I].
  eapply inv_append; [exact Hw|exact A].
Qed.

Lemma finish_dir_inv root path dir_stat depth l documents st
    s l' documents' st' :
  inv documents (es_log st) ->
  finish_dir root path dir_stat depth l documents st = (s, l', documents', st') ->
  inv_after s documents' st'.
Proof using inv_append.
  intros Hi. unfold finish_dir.
  destruct ((0 <? l_files l) || (0 <? l_dirs l));
    [|now intros [= <- <- <- <-]].
  destruct (get_owner_name_fields (st_uid dir_stat) st) as (_ & Lo).
  destruct (get_owner_name (st_uid dir_stat) st) as [owner st1].
  destruct (get_group_name_fields (st_gid dir_stat) st1) as (_ & Lg).
  destruct (get_group_name (st_gid dir_stat) st1) as [group st2].
  cbn [snd] in *.
  destruct (decode_dir_names_total path) as (n & p & w & ->).
  assert (Hw : inv documents (es_log (if w then incr_warnings st2 else st2))).
  { destruct w; cbn [es_log incr_warnings]; congruence. }
  destruct (dir_data dir_stat owner group n p _) as [data|];
    [|now intros [= <- <- <- <-]].
  destruct (0 <? depth).
  - destruct (append_document _ _ documents _) as [[[s1 l1] d1] st3] eqn:A.
    pose proof (append_document_advances _ _ _ _ _ _ _ _ A) as (_ & _ & Hn).
    destruct s1 as [[]|e|c]; [|destruct Hn|]; intros [= <- <- <- <-];
      [|exact I].
    cbn [inv_after es_log add_counters]. eapply inv_append; [exact Hw|exact A].
  - intros [= <- <- <- <-]. exact Hw.
Qed.

Definition inv_call
    (recurse : pystr -> dir -> list document -> state ->
               signal (Z * Z * Z * Z) * list document * state)
    (sub : dir) : Prop :=
  forall p documents st s documents' st',
    inv documents (es_log st) ->
    recurse p sub documents st = (s, documents', st') ->
    inv_after s documents' st'.

Lemma scan_loop_inv recurse path descend contents :
  Forall (on_subdir (inv_call recurse)) contents ->
  forall l documents st s l' documents' st',
    inv documents (es_log st) ->
    scan_loop recurse path descend contents l documents st
      = (s, l', documents', st') ->
    inv_after s documents' st'.
Proof using inv_append.
  induction 1 as [|e contents He Hc IH];
    intros l documents st s l' documents' st' Hi.
  - now intros [= <- <- <- <-].
  - cbn [scan_loop]. destruct e as [n|n sub|n fstat].
    + now apply IH.
    + destruct (descend && negb (quit st)); [|now apply IH].
      destruct (recurse (path_join path n) sub documents st)
        as [[s1 d1] st1] eqn:E.
      apply He in E; [|exact Hi].
      destruct s1 as [agg|e|c].
      * now apply IH.
      * now intros [= <- <- <- <-].
      * now intros [= <- <- <- <-].
    + destruct (scan_file path n fstat l documents st)
        as [[[s1 l1] d1] st1] eqn:E.
      apply scan_file_inv in E; [|exact Hi].
      destruct s1 as [[]|e|c].
      * now apply IH.
      * now intros [= <- <- <- <-].
      * now intros [= <- <- <- <-].
Qed.

Lemma get_tree_attr_inv root maxdepth d :
  forall path depth documents st s documents' st',
    inv documents (es_log st) ->
    get_tree_attr root path d depth maxdepth documents st = (s, documents', st') ->
    inv_after s documents' st'.
Proof using inv_append.
  induction d as [dstat|dstat contents IH] using dir_tree_ind;
    intros path depth documents st s documents' st' Hi;
    destruct dstat as [dir_stat|];
    try (now intros [= <- <- <-]).
  cbn [get_tree_attr].
  destruct (scan_loop _ path _ contents init_locals documents st)
    as [[[s1 l1] d1] st1] eqn:E.
  apply scan_loop_inv in E; [| |exact Hi].
  2:{ eapply Forall_impl; [exact IH|]. intros [| |]; simpl; auto.
      intros Hsub p docs0 st0 s0 docs0' st0' Hi0 H0. eapply Hsub; eauto. }
  destruct s1 as [[]|e|c].
  - destruct (finish_dir root path dir_stat depth l1 d1 st1)
      as [[[s2 l2] d2] st2] eqn:F.
    apply finish_dir_inv in F; [|exact E].
    destruct s2 as [[]|[]|c]; now intros [= <- <- <-].
  - destruct e; now intros [= <- <- <-].
  - now intros [= <- <- <-].
Qed.

End Buffer_invariant.

(** ** Batches hold the chunk size *)

Lemma full_batches_append base data l documents st l' documents' st' :
  full_batches elastic_chunksize base documents (es_log st) ->
  append_document data l documents st = (Ret tt, l', documents', st') ->
  full_batches elastic_chunksize base documents' (es_log st').
Proof.
  intros (batches & Hl & Hf & Hlen). unfold append_document.
  rewrite length_app, Nat2Z.inj_add. cbn [length].
  destruct (Z.leb_spec elastic_chunksize (Z.of_nat (length documents) + Z.of_nat 1)).
  - destruct (begin_bulk_cases (documents ++ [data]) st) as [[_ ->]|[_ ->]];
      intros [= <- <- <-].
    exists (batches ++ [documents ++ [data]]). cbn [es_log log_es].
    rewrite flushed_log_app, Hl, <- app_assoc. split; [reflexivity|].
    split; [|simpl; lia]. apply Forall_app. split; [exact Hf|].
    constructor; [|constructor]. rewrite length_app, Nat2Z.inj_add. simpl. lia.
  - intros [= <- <- <-]. exists batches.
    rewrite length_app, Nat2Z.inj_add. auto.
Qed.

Lemma well_batched_full c batches :
  0 < c ->
  Forall (fun b : list document => Z.of_nat (length b) = c) batches ->
  well_batched c batches = true.
Proof.
  intros Hc. induction 1 as [|b batches Hb Hf IH]; [reflexivity|].
  cbn [well_batched]. destruct batches.
  - apply andb_true_iff. rewrite Z.ltb_lt, Z.leb_le. lia.
  - apply andb_true_iff. rewrite Z.eqb_eq. auto.
Qed.

Lemma well_batched_full_last c batches b :
  Forall (fun b : list document => Z.of_nat (length b) = c) batches ->
  0 < Z.of_nat (length b) <= c ->
  well_batched c (batches ++ [b]) = true.
Proof.
  intros Hf Hb. induction Hf as [|b0 batches Hb0 Hf IH].
  - simpl. apply andb_true_iff. rewrite Z.ltb_lt, Z.leb_le. lia.
  - cbn [app well_batched]. destruct (batches ++ [b]) eqn:E.
    + now destruct batches.
    + apply andb_true_iff. rewrite Z.eqb_eq. auto.
Qed.

(** Well-formed batches are [ceil(n / c)] in number, for the [n] records
    they hold together. *)
Lemma well_batched_count c batches :
  0 < c ->
  well_batched c batches = true ->
  Z.of_nat (length batches) = ceil_div (Z.of_nat (length (concat batches))) c.
Proof.
  intros Hc. unfold ceil_div.
  induction batches as [|b batches IH]; intros H.
  - simpl. symmetry. apply Z.div_small. lia.
  - cbn [well_batched] in H. destruct batches as [|b' batches].
    + apply andb_true_iff in H as [H1 H2]. apply Z.ltb_lt in H1.
      apply Z.leb_le in H2. simpl. rewrite app_nil_r.
      apply Z.div_unique with (r := Z.of_nat (length b) - 1).
      * left. lia.
      * lia.
    + apply andb_true_iff in H as [H1 H2]. apply Z.eqb_eq in H1.
      specialize (IH H2).
      change (concat (b :: b' :: batches)) with (b ++ concat (b' :: batches)).
      rewrite length_app, Nat2Z.inj_add, H1.
      change (length (b :: b' :: batches)) with (S (length (b' :: batches))).
      rewrite Nat2Z.inj_succ, IH.
      replace (c + Z.of_nat (length (concat (b' :: batches))) + c - 1)
        with (1 * c + (Z.of_nat (length (concat (b' :: batches))) + c - 1)) by lia.
      rewrite Z.div_add_l by lia. lia.
Qed.

(** ** The records a traversal gives out *)

Lemma names_kept_refl st : names_kept st st.
Proof. split; reflexivity. Qed.

Lemma names_kept_trans st1 st2 st3 :
  names_kept st1 st2 -> names_kept st2 st3 -> names_kept st1 st3.
Proof.
  intros [H1 H2] [H3 H4]. split; intros x; [rewrite H3|rewrite H4]; auto.
Qed.

Lemma names_kept_caches st st' :
  uid_name st' = uid_name st -> gid_name st' = gid_name st ->
  names_kept st st'.
Proof.
  intros Hu Hg. split; intros x.
  - unfold owner_of, get_owner_name. rewrite Hu.
    now destruct (uid_name st !! x).
  - unfold group_of, get_group_name. rewrite Hg.
    now destruct (gid_name st !! x).
Qed.

Lemma names_kept_owner uid st :
  names_kept st (snd (get_owner_name uid st)).
Proof.
  unfold get_owner_name at 1.
  destruct (uid_name st !! uid) as [owner|] eqn:E; cbn [snd];
    [apply names_kept_refl|].
  split; intros x.
  2:{ unfold group_of, get_group_name. cbn [gid_name set_uid_name].
      now destruct (gid_name st !! x). }
  unfold owner_of, get_owner_name. cbn [uid_name set_uid_name].
  destruct (Z.eq_dec x uid) as [->|Hne].
  - rewrite lookup_insert_eq, E. reflexivity.
  - rewrite lookup_insert_ne by congruence.
    now destruct (uid_name st !! x).
Qed.

Lemma names_kept_group gid st :
  names_kept st (snd (get_group_name gid st)).
Proof.
  unfold get_group_name at 1.
  destruct (gid_name st !! gid) as [group|] eqn:E; cbn [snd];
    [apply names_kept_refl|].
  split; intros x.
  { unfold owner_of, get_owner_name. cbn [uid_name set_gid_name].
    now destruct (uid_name st !! x). }
  unfold group_of, get_group_name. cbn [gid_name set_gid_name].
  destruct (Z.eq_dec x gid) as [->|Hne].
  - rewrite lookup_insert_eq, E. reflexivity.
  - rewrite lookup_insert_ne by congruence.
    now destruct (gid_name st !! x).
Qed.

Lemma append_document_keeps data l documents st s l' documents' st' :
  append_document data l documents st = (s, l', documents', st') ->
  uid_name st' = uid_name st /\ gid_name st' = gid_name st /\
  l_parent_path l' = l_parent_path l.
Proof.
  unfold append_document. destruct (elastic_chunksize <=? _).
  - destruct (begin_bulk_cases (documents ++ [data]) st) as [[_ ->]|[_ ->]];
      intros [= <- <- <- <-]; auto.
  - intros [= <- <- <- <-]. auto.
Qed.

Lemma gives_out_nothing st0 documents st st' :
  names_kept st0 st' -> es_log st' = es_log st -> warnings st' = warnings st ->
  gives_out st0 ([], 0) documents st documents st'.
Proof.
  intros Hk Hl Hw. split; [exact Hk|]. cbn [fst snd].
  rewrite app_nil_r, (stream_same_log _ _ _ Hl). split; [reflexivity|lia].
Qed.

Lemma gives_out_trans st0 o1 o2 d0 st d1 st1 d2 st2 :
  gives_out st0 o1 d0 st d1 st1 -> gives_out st0 o2 d1 st1 d2 st2 ->
  gives_out st0 (fst o1 ++ fst o2, snd o1 + snd o2) d0 st d2 st2.
Proof.
  intros (_ & S1 & W1) (K2 & S2 & W2). split; [exact K2|]. cbn [fst snd].
  rewrite S2, S1, W2, W1, app_assoc. split; [reflexivity|lia].
Qed.

(** A file of positive size that is recorded: the record holds the names
    as decoded, and the owner and group that the caches gave at the start
    of the traversal. *)
Lemma scan_file_output st0 path name f_stat l documents st
    l' documents' st' :
  names_kept st0 st ->
  scan_file path name (Some f_stat) l documents st
    = (Ret tt, l', documents', st') ->
  names_kept st0 st' /\
  if 0 <? st_size f_stat then
    exists p file_name warned data,
      decode_file_names (l_parent_path l) (path_join path name) name
        = Some (p, file_name, warned) /\
      file_data f_stat (owner_of st0 (st_uid f_stat))
        (group_of st0 (st_gid f_stat)) file_name p name = Some data /\
      l_parent_path l' = Some p /\
      stream documents' st' = stream documents st ++ [FileDoc data] /\
      warnings st' = warnings st + (if warned then 1 else 0)
  else
    l_parent_path l' = l_parent_path l /\
    stream documents' st' = stream documents st /\
    warnings st' = warnings st.
Proof.
  intros Hk. unfold scan_file.
  destruct (0 <? st_size f_stat).
  2:{ intros [= <- <- <-]. auto. }
  pose proof (names_kept_owner (st_uid f_stat) st) as Ko.
  destruct (get_owner_name_fields (st_uid f_stat) st) as (Wo & Lo).
  assert (Eo : fst (get_owner_name (st_uid f_stat) st)
               = owner_of st0 (st_uid f_stat)).
  { destruct Hk as [Hk _]. now rewrite <- Hk. }
  destruct (get_owner_name (st_uid f_stat) st) as [owner st1].
  cbn [fst snd] in Ko, Wo, Lo, Eo.
  assert (Hk1 : names_kept st0 st1) by eauto using names_kept_trans.
  pose proof (names_kept_group (st_gid f_stat) st1) as Kg.
  destruct (get_group_name_fields (st_gid f_stat) st1) as (Wg & Lg).
  assert (Eg : fst (get_group_name (st_gid f_stat) st1)
               = group_of st0 (st_gid f_stat)).
  { destruct Hk1 as [_ Hk1]. now rewrite <- Hk1. }
  destruct (get_group_name (st_gid f_stat) st1) as [group st2].
  cbn [fst snd] in Kg, Wg, Lg, Eg.
  assert (Hk2 : names_kept st0 st2) by eauto using names_kept_trans.
  cbn [l_parent_path add_file count_file].
  destruct (decode_file_names (l_parent_path l) (path_join path name) name)
    as [[[p n] w]|] eqn:D; [|discriminate].
  destruct (file_data f_stat owner group n p name) as [data|] eqn:F;
    [|discriminate].
  intros A.
  pose proof (append_document_stream _ _ _ _ _ _ _ _ A) as S.
  pose proof (append_document_cases _ _ _ _ _ _ _ _ A) as (W & _).
  apply append_document_keeps in A as (Hu & Hg & Hp).
  split.
  - eapply names_kept_trans; [exact Hk2|]. apply names_kept_caches.
    + rewrite Hu. now destruct w.
    + rewrite Hg. now destruct w.
  - exists p, n, w, data. subst owner group.
    split; [reflexivity|]. split; [exact F|]. split; [exact Hp|].
    rewrite S, W.
    rewrite (stream_same_log documents st (if w then incr_warnings st2 else st2))
      by (destruct w; cbn [es_log incr_warnings]; congruence).
    split; [reflexivity|]. destruct w; cbn [warnings incr_warnings]; lia.
Qed.

Lemma scan_loop_output depth q st0 recurse subtree path descend contents :
  Forall (on_subdir (sound_call depth recurse)) contents ->
  Forall (on_subdir (output_call q st0 recurse subtree)) contents ->
  forall l documents st s l' documents' st',
    quit st = q -> names_kept st0 st ->
    scan_loop recurse path descend contents l documents st
      = (s, l', documents', st') ->
    s = Ret tt \/ s = Exc OSError ->
    gives_out st0
      (walk_output subtree (descend && negb q) st0 path contents
         (l_parent_path l))
      documents st documents' st'.
Proof.
  intros Hs Ha. revert Ha.
  induction Hs as [|e contents He Hc IH]; intros Ha;
    intros l documents st s l' documents' st' Hq Hk.
  - intros [= <- <- <- <-] _. now apply gives_out_nothing.
  - apply Forall_cons in Ha as [Hae Ha]. specialize (IH Ha).
    cbn [scan_loop walk_output]. destruct e as [n|n sub|n fstat].
    + now apply IH.
    + rewrite Hq. destruct (descend && negb q) eqn:D.
      2:{ intros H Hr. apply (IH _ _ _ _ _ _ _ Hq Hk) in H; [|exact Hr].
          cbn [fst snd app]. now rewrite Z.add_0_l. }
      destruct (recurse (path_join path n) sub documents st)
        as [[s1 d1] st1] eqn:E.
      pose proof (He _ _ _ _ _ _ E) as ((Hq1 & _) & _ & Hn).
      destruct s1 as [agg|e|c].
      * apply Hae in E; [|exact Hq|exact Hk].
        intros H Hr.
        apply IH in H; [|congruence|now destruct E|exact Hr].
        cbn [l_parent_path add_subdir count_dir] in H.
        replace (l_parent_path (add_subdir agg (count_dir l)))
          with (l_parent_path l) in H by now destruct agg as [[[? ?] ?] ?].
        eapply gives_out_trans; [exact E|exact H].
      * intros [= <- <- <- <-] [Hr|Hr]; [discriminate|].
        destruct Hn as [Hn|[]]. congruence.
      * intros [= <- <- <- <-] [Hr|Hr]; discriminate.
    + destruct fstat as [f_stat|].
      2:{ unfold scan_file. intros [= <- <- <- <-] _.
          now apply gives_out_nothing. }
      destruct (scan_file path n (Some f_stat) l documents st)
        as [[[s1 l1] d1] st1] eqn:E.
      pose proof (scan_file_advances _ _ _ _ _ _ _ _ _ _ E) as ((Hq1 & _) & _).
      pose proof (scan_file_aggregate _ _ _ _ _ _ _ _ _ _ E) as [Hne _].
      destruct s1 as [[]|e|c].
      2:{ intros [= <- <- <- <-] [Hr|Hr]; [discriminate|contradiction]. }
      2:{ intros [= <- <- <- <-] [Hr|Hr]; discriminate. }
      apply (scan_file_output st0) in E as (Hk1 & E); [|exact Hk].
      intros H Hr. apply IH in H; [|congruence|exact Hk1|exact Hr].
      destruct (0 <? st_size f_stat).
      * destruct E as (p & fn & w & data & -> & -> & Hp & S1 & W1).
        rewrite Hp in H. destruct H as (K2 & S2 & W2).
        split; [exact K2|]. cbn [fst snd].
        rewrite S2, S1, W2, W1, <- app_assoc. split; [reflexivity|lia].
      * destruct E as (Hp & S1 & W1). rewrite Hp in H.
        destruct H as (K2 & S2 & W2).
        split; [exact K2|]. rewrite S2, S1, W2, W1. auto.
Qed.

Lemma dir_data_aggregate dir_stat owner group file_name parent_path l :
  dir_data dir_stat owner group file_name parent_path l
  = dir_data dir_stat owner group file_name parent_path
      (agg_locals (aggregate l)).
Proof. reflexivity. Qed.

(** The record of a frame, when it is not skipped: the sums are those of
    the frame's aggregate. *)
Lemma finish_dir_output st0 root path dir_stat depth l documents st
    l' documents' st' :
  names_kept st0 st ->
  finish_dir root path dir_stat depth l documents st
    = (Ret tt, l', documents', st') ->
  names_kept st0 st' /\
  if (0 <? l_files l) || (0 <? l_dirs l) then
    exists file_name parent_path warned data,
      decode_dir_names path = Some (file_name, parent_path, warned) /\
      dir_data dir_stat (owner_of st0 (st_uid dir_stat))
        (group_of st0 (st_gid dir_stat)) file_name parent_path
        (agg_locals (aggregate l)) = Some data /\
      stream documents' st'
      = stream documents st ++ (if 0 <? depth then [DirDoc data] else []) /\
      warnings st' = warnings st + (if warned then 1 else 0)
  else
    stream documents' st' = stream documents st /\
    warnings st' = warnings st.
Proof.
  intros Hk. unfold finish_dir.
  destruct ((0 <? l_files l) || (0 <? l_dirs l)).
  2:{ intros [= <- <- <-]. split; [|auto].
      eapply names_kept_trans; [exact Hk|]. now apply names_kept_caches. }
  pose proof (names_kept_owner (st_uid dir_stat) st) as Ko.
  destruct (get_owner_name_fields (st_uid dir_stat) st) as (Wo & Lo).
  assert (Eo : fst (get_owner_name (st_uid dir_stat) st)
               = owner_of st0 (st_uid dir_stat)).
  { destruct Hk as [Hk _]. now rewrite <- Hk. }
  destruct (get_owner_name (st_uid dir_stat) st) as [owner st1].
  cbn [fst snd] in Ko, Wo, Lo, Eo.
  assert (Hk1 : names_kept st0 st1) by eauto using names_kept_trans.
  pose proof (names_kept_group (st_gid dir_stat) st1) as Kg.
  destruct (get_group_name_fields (st_gid dir_stat) st1) as (Wg & Lg).
  assert (Eg : fst (get_group_name (st_gid dir_stat) st1)
               = group_of st0 (st_gid dir_stat)).
  { destruct Hk1 as [_ Hk1]. now rewrite <- Hk1. }
  destruct (get_group_name (st_gid dir_stat) st1) as [group st2].
  cbn [fst snd] in Kg, Wg, Lg, Eg.
  assert (Hk2 : names_kept st0 st2) by eauto using names_kept_trans.
  destruct (decode_dir_names path) as [[[n p] w]|] eqn:D; [|discriminate].
  set (st3 := if w then incr_warnings st2 else st2).
  assert (H3 : uid_name st3 = uid_name st2 /\ gid_name st3 = gid_name st2 /\
               es_log st3 = es_log st /\
               warnings st3 = warnings st + (if w then 1 else 0)).
  { subst st3. destruct w; cbn [uid_name gid_name es_log warnings incr_warnings];
      repeat split; try congruence; lia. }
  destruct H3 as (U3 & G3 & L3 & W3).
  rewrite (dir_data_aggregate dir_stat owner group n p
             (set_parent_path (Some p) l)).
  change (aggregate (set_parent_path (Some p) l)) with (aggregate l).
  destruct (dir_data dir_stat owner group n p (agg_locals (aggregate l)))
    as [data|] eqn:F; [|discriminate].
  subst owner group.
  destruct (0 <? depth).
  - destruct (append_document _ _ documents st3) as [[[s1 l1] d1] st4] eqn:A.
    pose proof (append_document_stream _ _ _ _ _ _ _ _ A) as S.
    pose proof (append_document_cases _ _ _ _ _ _ _ _ A) as (W & _).
    apply append_document_keeps in A as (Hu & Hg & Hp).
    destruct s1 as [[]|e|c]; [|discriminate..].
    intros [= <- <- <-]. split.
    + eapply names_kept_trans; [exact Hk2|]. apply names_kept_caches;
        cbn [uid_name gid_name add_counters]; congruence.
    + exists n, p, w, data. split; [reflexivity|]. split; [exact F|].
      rewrite (stream_same_log d1 st4 (add_counters l1 st4)) by reflexivity.
      rewrite S, (stream_same_log documents st st3) by exact L3.
      split; [reflexivity|]. cbn [warnings add_counters]. lia.
  - intros [= <- <- <-]. split.
    + eapply names_kept_trans; [exact Hk2|]. apply names_kept_caches;
        cbn [uid_name gid_name add_counters set_sizes]; congruence.
    + exists n, p, w, data. split; [reflexivity|]. split; [exact F|].
      rewrite app_nil_r. split; [|cbn [warnings add_counters set_sizes]; lia].
      apply stream_same_log. cbn [es_log add_counters set_sizes]. exact L3.
Qed.

Lemma tree_output_eq q maxdepth st0 path dir_stat contents depth :
  tree_output q maxdepth st0 path (Dir (Some dir_stat) (Some contents)) depth
  = let walked :=
      walk_output
        (fun p sub => tree_output q maxdepth st0 p sub (depth + 1))
        ((0 <? maxdepth) && (depth <? maxdepth) && negb q)
        st0 path contents None in
    if all_stats_ok contents then
      let a := tree_aggregate q maxdepth
                 (Dir (Some dir_stat) (Some contents)) depth in
      if (0 <? agg_files a) || (0 <? agg_dirs a) then
        match decode_dir_names path with
        | Some (file_name, parent_path, warned) =>
            match dir_data dir_stat (owner_of st0 (st_uid dir_stat))
                    (group_of st0 (st_gid dir_stat)) file_name parent_path
                    (agg_locals a) with
            | Some data =>
                (fst walked ++ (if 0 <? depth then [DirDoc data] else []),
                 snd walked + (if warned then 1 else 0))
            | None => (fst walked, snd walked + (if warned then 1 else 0))
            end
        | None => walked
        end
      else walked
    else (fst walked, snd walked + 1).
Proof. reflexivity. Qed.

(** A traversal that returns has added to the worker's stream the records
    of [tree_output], in that order, and to the warnings their number. *)
Lemma get_tree_attr_output root maxdepth st0 d :
  forall path depth documents st a documents' st',
    names_kept st0 st ->
    get_tree_attr root path d depth maxdepth documents st
      = (Ret a, documents', st') ->
    gives_out st0 (tree_output (quit st) maxdepth st0 path d depth)
      documents st documents' st'.
Proof.
  assert (Hw : forall documents st,
             names_kept st0 st ->
             gives_out st0 ([], 1) documents st documents (incr_warnings st)).
  { intros documents st Hk. split; [|split].
    - eapply names_kept_trans; [exact Hk|]. now apply names_kept_caches.
    - cbn [fst]. rewrite app_nil_r. now apply stream_same_log.
    - reflexivity. }
  induction d as [dstat|dstat contents IH] using dir_tree_ind;
    intros path depth documents st a documents' st' Hk;
    destruct dstat as [dir_stat|];
    try (intros [= <- <- <-]; now apply Hw).
  rewrite tree_output_eq. cbn [get_tree_attr].
  destruct (scan_loop _ path _ contents init_locals documents st)
    as [[[s1 l1] d1] st1] eqn:E.
  assert (Hsound : Forall (on_subdir (sound_call depth
            (fun p sub documents st =>
               get_tree_attr root p sub (depth + 1) maxdepth documents st)))
            contents).
  { clear. induction contents as [|[| |] contents IHc]; constructor; simpl; auto.
    intros p docs0 st1 s0 docs0' st1' H0.
    apply get_tree_attr_advances in H0 as (Ha0 & Hs0 & Hn0).
    split; [|split]; auto. intros; apply Hs0; lia. }
  pose proof E as Hagg.
  apply (scan_loop_aggregate depth (quit st) _
           (fun sub => tree_aggregate (quit st) maxdepth sub (depth + 1)))
    in Hagg; [|exact Hsound| |reflexivity].
  2:{ clear. induction contents as [|[| |] contents IHc];
        constructor; simpl; auto.
      intros p docs0 st1 a0 docs0' st1' Hq H0.
      apply get_tree_attr_aggregate in H0. now rewrite Hq in H0. }
  pose proof (scan_loop_output depth (quit st) st0 _
                (fun p sub => tree_output (quit st) maxdepth st0 p sub (depth + 1))
                path ((0 <? maxdepth) && (depth <? maxdepth)) contents Hsound)
    as Hout.
  specialize (Hout ltac:(eapply Forall_impl; [exact IH|];
                         intros [| |]; simpl; auto;
                         intros Hsub p docs0 st1' a0 docs0' st1'' Hq Hk0 H0;
                         apply (Hsub _ _ _ _ _ _ _ Hk0) in H0;
                         now rewrite Hq in H0)
                    _ _ _ _ _ _ _ eq_refl Hk E).
  cbn [l_parent_path init_locals] in Hout. cbv zeta.
  rewrite tree_aggregate_eq.
  destruct s1 as [[]|e|c].
  - specialize (Hout (or_introl eq_refl)).
    pose proof (f_equal fst Hagg) as Hc. rewrite walk_entries_complete in Hc.
    cbn [fst] in Hc. rewrite Hc, Hagg. cbn [snd].
    destruct (finish_dir root path dir_stat depth l1 d1 st1)
      as [[[s2 l2] d2] st2] eqn:F.
    pose proof (finish_dir_advances _ _ _ _ _ _ _ _ _ _ _ F) as (_ & _ & Hn).
    destruct s2 as [[]|e|c];
      [|destruct Hn as [[= ->]|[]]; discriminate|discriminate].
    apply (finish_dir_output st0) in F as (K2 & F); [|now destruct Hout].
    intros [= <- <- <-].
    change (agg_files (aggregate l1)) with (l_files l1).
    change (agg_dirs (aggregate l1)) with (l_dirs l1).
    destruct Hout as (_ & S1 & W1).
    destruct ((0 <? l_files l1) || (0 <? l_dirs l1)).
    + destruct F as (n & p & w & data & -> & -> & S2 & W2).
      split; [exact K2|]. cbn [fst snd].
      rewrite S2, S1, W2, W1, <- app_assoc. split; [reflexivity|lia].
    + destruct F as (S2 & W2). split; [exact K2|].
      rewrite S2, S1, W2, W1. split; reflexivity.
  - destruct e; try discriminate.
    specialize (Hout (or_intror eq_refl)).
    pose proof (f_equal fst Hagg) as Hc. rewrite walk_entries_complete in Hc.
    cbn [fst] in Hc. rewrite Hc.
    intros [= <- <- <-]. destruct Hout as (K1 & S1 & W1).
    split; [|split].
    + eapply names_kept_trans; [exact K1|]. now apply names_kept_caches.
    + cbn [fst]. rewrite <- S1. now apply stream_same_log.
    + cbn [snd warnings incr_warnings]. lia.
  - discriminate.
Qed.

(** C4.  With a positive chunk size, a worker that ends without a fatal
    abort has uploaded every record its traversal gives out, each one once
    and in the order in which they were appended, and has nothing left in
    its list: the batches, put end to end, are the records of the tree;
    there are [ceil(n / c)] of them for [n] records; every batch but the
    last holds exactly [c] records, uploaded when the list reached that
    size, and the last holds what was left when the traversal ended. *)
Theorem batches_per_worker root top d depth maxdepth st documents' st' :
  0 < elastic_chunksize ->
  crawl_thread root top d depth maxdepth st = (Ret tt, documents', st') ->
  exists batches,
    let records := tree_docs (quit st) maxdepth st top d depth in
    let n := Z.of_nat (length records) in
    flushed st' = flushed st ++ batches /\
    documents' = [] /\
    concat batches = records /\
    stream documents' st' = stream [] st ++ records /\
    well_batched elastic_chunksize batches = true /\
    Z.of_nat (length batches) = ceil_div n elastic_chunksize.
Proof.
  intros Hc. unfold crawl_thread.
  destruct (get_tree_attr root top d depth maxdepth [] st) as [[s1 d1] st1] eqn:E.
  destruct s1 as [[[[size size_du] fc] dc]|e|c]; [|discriminate..].
  pose proof (get_tree_attr_output _ _ st _ _ _ _ _ _ _ _
                (names_kept_refl st) E) as (_ & Hn & _).
  fold (tree_docs (quit st) maxdepth st top d depth) in Hn.
  apply (get_tree_attr_inv (full_batches elastic_chunksize (flushed st))
           (full_batches_append (flushed st))) in E.
  2:{ exists []. rewrite app_nil_r. repeat split; [constructor|simpl; lia]. }
  destruct E as (batches & Hl & Hf & Hlen).
  set (records := tree_docs (quit st) maxdepth st top d depth) in *.
  assert (Hrec : concat batches ++ d1 = records).
  { unfold stream in Hn. unfold flushed at 1 in Hn. rewrite Hl in Hn.
    rewrite concat_app, app_nil_r, <- app_assoc in Hn.
    now apply app_inv_head in Hn. }
  assert (Hgoal : forall st2 bs,
             flushed st2 = flushed st ++ bs ->
             concat bs = records ->
             well_batched elastic_chunksize bs = true ->
             forall st3, es_log st3 = es_log st2 ->
             exists batches0,
               flushed st3 = flushed st ++ batches0 /\
               @nil document = [] /\
               concat batches0 = records /\
               stream [] st3 = stream [] st ++ records /\
               well_batched elastic_chunksize batches0 = true /\
               Z.of_nat (length batches0)
               = ceil_div (Z.of_nat (length records)) elastic_chunksize).
  { intros st2 bs H2 Hn2 Hw2 st3 H3. exists bs.
    assert (F3 : flushed st3 = flushed st ++ bs).
    { unfold flushed in *. now rewrite H3. }
    split; [exact F3|]. split; [reflexivity|]. split; [exact Hn2|].
    split; [unfold stream; now rewrite F3, concat_app, !app_nil_r, Hn2|].
    split; [exact Hw2|].
    rewrite <- Hn2. now apply well_batched_count. }
  destruct (Z.ltb_spec 0 (Z.of_nat (length d1))) as [Hd|Hd].
  - destruct (begin_bulk_cases d1 st1) as [[_ ->]|[_ ->]]; [|discriminate].
    assert (H2 : flushed (add_total_documents (Z.of_nat (length d1))
                            (log_es (EsBulk d1) st1))
                 = flushed st ++ (batches ++ [d1])).
    { unfold flushed in *. cbn [es_log add_total_documents log_es].
      rewrite flushed_log_app, Hl, <- app_assoc. reflexivity. }
    specialize (Hgoal _ _ H2).
    rewrite concat_app in Hgoal. cbn [concat] in Hgoal.
    rewrite app_nil_r in Hgoal.
    specialize (Hgoal Hrec
                  (well_batched_full_last elastic_chunksize batches d1 Hf
                     (conj Hd (Z.lt_le_incl _ _ Hlen)))).
    destruct (0 <? depth); [|intros [= <- <-]; now apply Hgoal].
    destruct (0 <? size); [|intros [= <- <-]; now apply Hgoal].
    destruct (sizes _ !! root); [destruct (sizes _ !! top)|];
      intros [= <- <-]; now apply Hgoal.
  - assert (d1 = []) by (destruct d1; [reflexivity|simpl in Hd; lia]).
    subst d1. rewrite app_nil_r in Hrec.
    assert (H2 : flushed st1 = flushed st ++ batches) by exact Hl.
    specialize (Hgoal _ _ H2 Hrec (well_batched_full _ _ Hc Hf)).
    destruct (0 <? depth); [|intros [= <- <-]; now apply Hgoal].
    destruct (0 <? size); [|intros [= <- <-]; now apply Hgoal].
    destruct (sizes _ !! root); [destruct (sizes _ !! top)|];
      intros [= <- <-]; now apply Hgoal.
Qed.

(** ** Skipped directories *)

Lemma scan_loop_leaves_empty recurse path descend contents :
  Forall leaves_empty contents ->
  forall l documents st,
    exists l',
      scan_loop recurse path descend contents l documents st
        = (Ret tt, l', documents, st) /\
      aggregate l' = aggregate l /\
      l_d_count l' = l_d_count l /\
      l_f_count l' - l_file_skip_count l' = l_f_count l - l_file_skip_count l /\
      l_dir_skip_count l' = l_dir_skip_count l /\
      l_total_docs l' = l_total_docs l.
Proof.
  induction 1 as [|e contents He Hc IH]; intros l documents st.
  - exists l. repeat split; reflexivity.
  - cbn [scan_loop]. destruct e as [n|n sub|n [f_stat|]];
      [|destruct He| |destruct He].
    + apply IH.
    + unfold scan_file.
      replace (0 <? st_size f_stat) with false
        by (symmetry; apply Z.ltb_ge; exact He).
      destruct (IH (skip_file (count_file l)) documents st)
        as (l' & -> & H1 & H2 & H3 & H4 & H5).
      exists l'. split; [reflexivity|]. rewrite H1, H2, H3, H4, H5.
      cbn. repeat split; lia.
Qed.

(** C3, as the code has it.  A directory below the root that can be
    listed and holds only symbolic links and files without size (so no
    subdirectory at all, skipped or not) is skipped: the frame returns
    the zero aggregate, appends and uploads nothing, leaves [sizes], the
    warnings and the file counter as they are, takes from the shared
    directory counter the 1 that its parent adds for it, and adds 1 to the
    counter of skipped directories. *)
Theorem empty_directory_skipped root path dir_stat contents depth maxdepth
    documents st :
  0 < depth ->
  Forall leaves_empty contents ->
  exists st',
    get_tree_attr root path (Dir (Some dir_stat) (Some contents)) depth
      maxdepth documents st = (Ret (0, 0, 0, 0), documents, st') /\
    es_log st' = es_log st /\
    sizes st' = sizes st /\
    warnings st' = warnings st /\
    dircount st' = dircount st - 1 /\
    skipdircount st' = skipdircount st + 1 /\
    filecount st' = filecount st /\
    total_documents st' = total_documents st.
Proof.
  intros Hd He. cbn [get_tree_attr].
  destruct (scan_loop_leaves_empty
              (fun p sub documents st =>
                 get_tree_attr root p sub (depth + 1) maxdepth documents st)
              path ((0 <? maxdepth) && (depth <? maxdepth)) contents He
              init_locals documents st)
    as (l & -> & H1 & H2 & H3 & H4 & H5).
  unfold finish_dir.
  injection H1 as Hs Hu Hf Hdirs. cbn in Hs, Hu, Hf, Hdirs, H2, H3, H4, H5.
  rewrite Hf, Hdirs. cbn [Z.ltb Z.compare orb].
  eexists. split.
  - unfold aggregate, skip_dir. cbn. rewrite Hs, Hu, Hf, Hdirs. reflexivity.
  - cbn. rewrite H2, H4, H5. repeat split; lia.
Qed.

(** ** Files without size *)

Lemma count_skipped_file_0 st : count_skipped_file 0 st = st.
Proof.
  destruct st. unfold count_skipped_file. cbn. f_equal; lia.
Qed.

Lemma append_document_skipped data l documents st :
  append_document data (skipped_file l) documents st =
  let '(s, l', documents', st') := append_document data l documents st in
  (s, skipped_file l', documents', st').
Proof.
  unfold append_document.
  destruct (elastic_chunksize <=? _); [|reflexivity].
  now destruct (begin_bulk (documents ++ [data]) st) as [[[]| |] st1].
Qed.

Lemma scan_file_skipped path name fstat l documents st :
  scan_file path name fstat (skipped_file l) documents st =
  let '(s, l', documents', st') := scan_file path name fstat l documents st in
  (s, skipped_file l', documents', st').
Proof.
  unfold scan_file.
  destruct fstat as [f_stat|]; [|reflexivity].
  destruct (0 <? st_size f_stat); [|reflexivity].
  destruct (get_owner_name (st_uid f_stat) st) as [owner st1].
  destruct (get_group_name (st_gid f_stat) st1) as [group st2].
  cbn [l_parent_path add_file count_file skipped_file skip_file].
  destruct (decode_file_names _ _ _) as [[[p n] w]|]; [|reflexivity].
  destruct (file_data f_stat owner group n p name) as [data|]; [|reflexivity].
  apply (append_document_skipped _
           (set_parent_path (Some p)
              (add_file (st_size f_stat) (st_blocks f_stat * blocksize)
                 (count_file l)))).
Qed.

Lemma scan_loop_skipped recurse path descend contents :
  forall l documents st,
    scan_loop recurse path descend contents (skipped_file l) documents st =
    let '(s, l', documents', st') :=
      scan_loop recurse path descend contents l documents st in
    (s, skipped_file l', documents', st').
Proof.
  induction contents as [|e contents IH]; intros l documents st;
    [reflexivity|].
  cbn [scan_loop]. destruct e as [n|n sub|n fstat].
  - apply IH.
  - destruct (descend && negb (quit st)).
    + destruct (recurse (path_join path n) sub documents st)
        as [[[[[[a1 a2] a3] a4]| |] d1] st1]; try reflexivity.
      apply (IH (add_subdir (a1, a2, a3, a4) (count_dir l))).
    + apply (IH (count_dir l)).
  - rewrite scan_file_skipped.
    destruct (scan_file path n fstat l documents st)
      as [[[[[]| |] l1] d1] st1]; try reflexivity.
    apply IH.
Qed.

Lemma scan_loop_app recurse path descend before after :
  forall l documents st,
    scan_loop recurse path descend (before ++ after) l documents st =
    match scan_loop recurse path descend before l documents st with
    | (Ret _, l1, d1, st1) => scan_loop recurse path descend after l1 d1 st1
    | r => r
    end.
Proof.
  induction before as [|e before IH]; intros l documents st; [reflexivity|].
  cbn [app scan_loop]. destruct e as [n|n sub|n fstat].
  - apply IH.
  - destruct (descend && negb (quit st)); [|apply IH].
    destruct (recurse (path_join path n) sub documents st)
      as [[[agg| |] d1] st1]; try reflexivity.
    apply IH.
  - destruct (scan_file path n fstat l documents st)
      as [[[[[]| |] l1] d1] st1]; try reflexivity.
    apply IH.
Qed.

Lemma add_counters_skipped l st :
  add_counters (skipped_file l) st = count_skipped_file 1 (add_counters l st).
Proof.
  unfold add_counters, count_skipped_file, skipped_file. cbn. f_equal; lia.
Qed.

Lemma finish_dir_skipped root path dir_stat depth l documents st :
  finish_dir root path dir_stat depth (skipped_file l) documents st =
  let '(s, l', documents', st') :=
    finish_dir root path dir_stat depth l documents st in
  (s, skipped_file l', documents',
   match s with
   | Ret _ => count_skipped_file 1 st'
   | _ => st'
   end).
Proof.
  unfold finish_dir.
  change (l_files (skipped_file l)) with (l_files l).
  change (l_dirs (skipped_file l)) with (l_dirs l).
  destruct ((0 <? l_files l) || (0 <? l_dirs l)).
  2:{ change (skip_dir (skipped_file l)) with (skipped_file (skip_dir l)).
      now rewrite add_counters_skipped. }
  destruct (get_owner_name (st_uid dir_stat) st) as [owner st1].
  destruct (get_group_name (st_gid dir_stat) st1) as [group st2].
  destruct (decode_dir_names path) as [[[n p] w]|]; [|reflexivity].
  change (set_parent_path (Some p) (skipped_file l))
    with (skipped_file (set_parent_path (Some p) l)).
  change (dir_data dir_stat owner group n p
            (skipped_file (set_parent_path (Some p) l)))
    with (dir_data dir_stat owner group n p (set_parent_path (Some p) l)).
  destruct (dir_data dir_stat owner group n p (set_parent_path (Some p) l))
    as [data|]; [|reflexivity].
  destruct (0 <? depth).
  - rewrite append_document_skipped.
    destruct (append_document _ _ documents _) as [[[[[]| |] l1] d1] st3];
      try reflexivity.
    now rewrite add_counters_skipped.
  - now rewrite add_counters_skipped.
Qed.

(** The loop of a frame ends with [OSError] exactly when a file of its
    listing cannot be stat-ed, and runs to the end when all can. *)
Lemma frame_loop_complete root path depth maxdepth contents l documents st
    s l' documents' st' :
  scan_loop
    (fun p sub documents st =>
       get_tree_attr root p sub (depth + 1) maxdepth documents st)
    path ((0 <? maxdepth) && (depth <? maxdepth)) contents l documents st
    = (s, l', documents', st') ->
  match s with
  | Ret _ => all_stats_ok contents = true
  | Exc OSError => all_stats_ok contents = false
  | Exc ValueError => True
  | Exc _ => False
  | OsExit _ => True
  end.
Proof.
  intros E. pose proof E as Hagg.
  apply (scan_loop_aggregate depth (quit st) _
           (fun sub => tree_aggregate (quit st) maxdepth sub (depth + 1)))
    in Hagg; [| | |reflexivity].
  2:{ clear. induction contents as [|[| |] contents IHc];
        constructor; simpl; auto.
      intros p docs0 st0 s0 docs0' st0' H0.
      apply get_tree_attr_advances in H0 as (Ha0 & Hs0 & Hn0).
      split; [|split]; auto. intros; apply Hs0; lia. }
  2:{ clear. induction contents as [|[| |] contents IHc];
        constructor; simpl; auto.
      intros p docs0 st0 a0 docs0' st0' Hq H0.
      apply get_tree_attr_aggregate in H0. now rewrite Hq in H0. }
  apply (scan_loop_advances depth) in E as (_ & _ & Hn).
  2:{ clear. induction contents as [|[| |] contents IHc];
        constructor; simpl; auto.
      intros p docs0 st0 s0 docs0' st0' H0.
      apply get_tree_attr_advances in H0 as (Ha0 & Hs0 & Hn0).
      split; [|split]; auto. intros; apply Hs0; lia. }
  destruct s as [[]|e|c]; [| |exact I].
  - apply (f_equal fst) in Hagg. now rewrite walk_entries_complete in Hagg.
  - destruct Hn as [[= ->]|[[= ->]|[]]]; [|exact I].
    apply (f_equal fst) in Hagg. now rewrite walk_entries_complete in Hagg.
Qed.

Lemma all_stats_ok_app before after :
  all_stats_ok (before ++ after) = all_stats_ok before && all_stats_ok after.
Proof. apply forallb_app. Qed.

(** C2, as the code has it.  Adding a file without size to a listing
    changes neither how the frame ends nor the aggregate it returns, nor
    the records it appends and uploads, nor any shared state except two
    counters: when the frame runs to the update of the shared counters,
    the file is counted once in the inode counter and once in the counter
    of skipped files.  The counters of files, directories and documents,
    the warnings and the root rollup are as without the file. *)
Theorem zero_size_file_excluded root path dir_stat before name f_stat after
    depth maxdepth documents st s documents' st' :
  st_size f_stat = 0 ->
  get_tree_attr root path (Dir (Some dir_stat) (Some (before ++ after)))
    depth maxdepth documents st = (s, documents', st') ->
  exists k,
    (k = 0 \/ k = 1) /\
    (all_stats_ok (before ++ after) = true -> (exists a, s = Ret a) -> k = 1) /\
    get_tree_attr root path
      (Dir (Some dir_stat) (Some (before ++ EFile name (Some f_stat) :: after)))
      depth maxdepth documents st
    = (s, documents', count_skipped_file k st').
Proof.
  intros Hz. cbn [get_tree_attr]. rewrite !scan_loop_app.
  rewrite all_stats_ok_app.
  destruct (scan_loop _ path _ before init_locals documents st)
    as [[[s0 l0] d0] st0] eqn:E0.
  apply frame_loop_complete in E0.
  destruct s0 as [[]|e|c].
  2:{ destruct e as [| | | | |c']; try contradiction.
      - rewrite E0. intros [= <- <- <-].
        exists 0. rewrite count_skipped_file_0.
        repeat split; auto; discriminate.
      - intros [= <- <- <-]. exists 0. rewrite count_skipped_file_0.
        repeat split; auto. intros _ [a [=]]. }
  2:{ intros [= <- <- <-]. exists 0. rewrite count_skipped_file_0.
      repeat split; auto. intros _ [a [=]]. }
  cbn [scan_loop]. unfold scan_file at 1. rewrite Hz. cbn [Z.ltb Z.compare].
  fold (skipped_file l0). rewrite scan_loop_skipped.
  destruct (scan_loop _ path _ after l0 d0 st0)
    as [[[s1 l1] d1] st1] eqn:E1.
  apply frame_loop_complete in E1. rewrite E0. cbn [andb].
  destruct s1 as [[]|e|c].
  - rewrite finish_dir_skipped.
    destruct (finish_dir root path dir_stat depth l1 d1 st1)
      as [[[s2 l2] d2] st2] eqn:F.
    apply finish_dir_advances in F as (_ & _ & Hn).
    destruct s2 as [[]|e|c]; [|destruct Hn as [[= ->]|[]]|];
      intros [= <- <- <-].
    + exists 1. repeat split; auto.
    + exists 0. rewrite count_skipped_file_0.
      repeat split; auto. intros _ [a [=]].
    + exists 0. rewrite count_skipped_file_0.
      repeat split; auto. intros _ [a [=]].
  - destruct e as [| | | | |c']; try contradiction.
    + rewrite E1. intros [= <- <- <-].
      exists 0. rewrite count_skipped_file_0.
      repeat split; auto; discriminate.
    + intros [= <- <- <-]. exists 0. rewrite count_skipped_file_0.
      repeat split; auto. intros _ [a [=]].
  - intros [= <- <- <-]. exists 0. rewrite count_skipped_file_0.
    repeat split; auto. intros _ [a [=]].
Qed.

(** ** Files whose name is not valid UTF-8 *)

(** Whatever the worker's stream begins with, it goes on beginning with
    after an append. *)
Lemma prefix_append (base : list document) data l documents st
    l' documents' st' :
  (exists rest, concat (flushed_log (es_log st)) ++ documents = base ++ rest) ->
  append_document data l documents st = (Ret tt, l', documents', st') ->
  exists rest, concat (flushed_log (es_log st')) ++ documents' = base ++ rest.
Proof.
  intros (rest & H) A. apply append_document_stream in A.
  unfold stream, flushed in A. exists (rest ++ [data]).
  now rewrite A, H, app_assoc.
Qed.

(** No traversal and no worker ends with [UnicodeError]. *)
Lemma no_unicode_error root top d depth maxdepth documents st :
  fst (fst (get_tree_attr root top d depth maxdepth documents st))
    <> Exc UnicodeError /\
  fst (fst (crawl_thread root top d depth maxdepth st)) <> Exc UnicodeError.
Proof.
  split.
  - destruct (get_tree_attr root top d depth maxdepth documents st)
      as [[s0 d0] st0] eqn:E.
    apply get_tree_attr_advances in E as (_ & _ & [->|Hn]); [discriminate|].
    cbn [fst]. intros ->. destruct Hn.
  - destruct (crawl_thread root top d depth maxdepth st)
      as [[s0 d0] st0] eqn:E.
    apply crawl_thread_advances in E as (_ & [->|[->|Hn]]);
      [discriminate..|].
    cbn [fst]. intros ->. destruct Hn.
Qed.

(** C6, as the code has it.  A file of positive size that the loop of its
    directory reaches and whose name fails the strict decoding is still
    recorded, when its time stamps can be converted: its step adds exactly
    one file record, carrying the name obtained with the replacing decoder,
    to the worker's stream and exactly one to the warnings, and no
    exception leaves it; the only other way out of the step is the exit
    after a rejected bulk upload.  The loop goes on with the entries listed
    after the file, and when the frame returns the record is in the
    worker's stream, right after what was there when the loop reached the
    file.  No traversal and no worker ever ends with [UnicodeError]. *)
Theorem invalid_name_still_recorded root path dir_stat before name f_stat
    after depth maxdepth documents st l1 d1 st1 :
  let recurse := fun p sub documents st =>
                   get_tree_attr root p sub (depth + 1) maxdepth documents st in
  let descend := (0 <? maxdepth) && (depth <? maxdepth) in
  0 < st_size f_stat ->
  get_file_name name false = None ->
  isoformat (st_mtime f_stat) <> None ->
  isoformat (st_atime f_stat) <> None ->
  isoformat (st_ctime f_stat) <> None ->
  scan_loop recurse path descend before init_locals documents st
    = (Ret tt, l1, d1, st1) ->
  exists r lossy s2 l2 d2 st2,
    get_file_name name true = Some lossy /\
    f_name r = lossy /\
    f_size r = st_size f_stat /\
    scan_file path name (Some f_stat) l1 d1 st1 = (s2, l2, d2, st2) /\
    stream d2 st2 = stream d1 st1 ++ [FileDoc r] /\
    warnings st2 = warnings st1 + 1 /\
    (s2 = Ret tt \/
     (s2 = OsExit 1 /\
      bulk_ok (es_log st1) (d1 ++ [FileDoc r]) = false)) /\
    scan_loop recurse path descend
      (before ++ EFile name (Some f_stat) :: after) init_locals documents st
    = match s2 with
      | Ret _ => scan_loop recurse path descend after l2 d2 st2
      | _ => (s2, l2, d2, st2)
      end /\
    (forall a documents' st',
       get_tree_attr root path
         (Dir (Some dir_stat)
            (Some (before ++ EFile name (Some f_stat) :: after)))
         depth maxdepth documents st = (Ret a, documents', st') ->
       (exists rest,
          stream documents' st' = stream d1 st1 ++ FileDoc r :: rest) /\
       warnings st1 + 1 <= warnings st') /\
    (forall root0 top d depth0 maxdepth0 documents0 st0,
       fst (fst (get_tree_attr root0 top d depth0 maxdepth0 documents0 st0))
         <> Exc UnicodeError /\
       fst (fst (crawl_thread root0 top d depth0 maxdepth0 st0))
         <> Exc UnicodeError).
Proof.
  intros recurse descend Hsize Hstrict Hm Ha Hc Hbefore.
  (* the step *)
  assert (Hstep : exists r lossy s2 l2 d2 st2,
             get_file_name name true = Some lossy /\
             f_name r = lossy /\ f_size r = st_size f_stat /\
             scan_file path name (Some f_stat) l1 d1 st1 = (s2, l2, d2, st2) /\
             stream d2 st2 = stream d1 st1 ++ [FileDoc r] /\
             warnings st2 = warnings st1 + 1 /\
             (s2 = Ret tt \/
              (s2 = OsExit 1 /\
               bulk_ok (es_log st1) (d1 ++ [FileDoc r]) = false))).
  { unfold scan_file. apply Z.ltb_lt in Hsize. rewrite Hsize.
    destruct (get_owner_name_fields (st_uid f_stat) st1) as (Wo & Lo).
    destruct (get_owner_name (st_uid f_stat) st1) as [owner st2].
    destruct (get_group_name_fields (st_gid f_stat) st2) as (Wg & Lg).
    destruct (get_group_name (st_gid f_stat) st2) as [group st3].
    cbn [snd] in *.
    destruct (decode_file_names_lossy
                (l_parent_path (add_file (st_size f_stat)
                                  (st_blocks f_stat * blocksize)
                                  (count_file l1)))
                (path_join path name) name Hstrict) as (p & lossy & Hl & ->).
    destruct (file_data f_stat owner group lossy p name) as [r|] eqn:D.
    2:{ apply file_data_times in D as [D|[D|D]]; contradiction. }
    apply file_data_fields in D as (D1 & _ & _ & _ & D5 & _).
    destruct (append_document _ _ d1 (incr_warnings st3))
      as [[[s l'] documents'] st'] eqn:A.
    exists r, lossy, s, l', documents', st'.
    split; [exact Hl|].
    pose proof (append_document_cases _ _ _ _ _ _ _ _ A) as (W & C).
    apply append_document_stream in A.
    split; [exact D5|]. split; [exact D1|]. split; [reflexivity|].
    split; [|split].
    - rewrite A. f_equal. apply stream_same_log. cbn [es_log incr_warnings].
      congruence.
    - rewrite W. cbn [warnings incr_warnings]. lia.
    - cbn [es_log incr_warnings] in C. now rewrite Lg, Lo in C. }
  destruct Hstep as (r & lossy & s2 & l2 & d2 & st2 & Hl & Hn & Hsz & Hstep
                     & Hstream & Hwarn & Hs2).
  exists r, lossy, s2, l2, d2, st2.
  assert (Hloop : scan_loop recurse path descend
                    (before ++ EFile name (Some f_stat) :: after)
                    init_locals documents st
                  = match s2 with
                    | Ret _ => scan_loop recurse path descend after l2 d2 st2
                    | _ => (s2, l2, d2, st2)
                    end).
  { rewrite scan_loop_app, Hbefore. cbn [scan_loop]. rewrite Hstep.
    now destruct s2 as [[]|e|c]. }
  do 7 (split; [assumption|]). split; [exact Hloop|].
  split; [|intros; apply no_unicode_error].
  intros a documents' st'. cbn [get_tree_attr].
  fold recurse. fold descend. rewrite Hloop.
  destruct Hs2 as [->|[-> _]]; [|discriminate].
  set (inv := fun (docs : list document) (log : list es_call) =>
                exists rest,
                  concat (flushed_log log) ++ docs
                  = (stream d1 st1 ++ [FileDoc r]) ++ rest).
  assert (Hi2 : inv d2 (es_log st2)).
  { exists []. rewrite app_nil_r. exact Hstream. }
  assert (Hsound : forall contents,
             Forall (on_subdir (sound_call depth recurse)) contents).
  { clear. intros contents.
    induction contents as [|[| |] contents IHc]; constructor; simpl; auto.
    intros p docs0 st0 s0 docs0' st0' H0.
    apply get_tree_attr_advances in H0 as (Ha0 & Hs0 & Hn0).
    split; [|split]; auto. intros; apply Hs0; lia. }
  destruct (scan_loop recurse path descend after l2 d2 st2)
    as [[[s3 l3] d3] st3] eqn:E.
  pose proof (scan_loop_advances depth _ _ _ _ (Hsound after)
                _ _ _ _ _ _ _ E) as ((_ & _ & W3 & _) & _).
  apply (scan_loop_inv inv (prefix_append _)) in E; [| |exact Hi2].
  2:{ clear. induction after as [|[| |] after IHc]; constructor; simpl; auto.
      intros p docs0 st0 s0 docs0' st0' Hi0 H0.
      eapply (get_tree_attr_inv inv (prefix_append _)); eauto. }
  assert (Hfin : forall docs4 st4,
             inv docs4 (es_log st4) -> warnings st1 + 1 <= warnings st4 ->
             (exists rest,
                stream docs4 st4 = stream d1 st1 ++ FileDoc r :: rest) /\
             warnings st1 + 1 <= warnings st4).
  { intros docs4 st4 (rest & H4) W4. split; [|exact W4].
    exists rest. unfold stream at 1, flushed. rewrite H4, <- app_assoc.
    reflexivity. }
  destruct s3 as [[]|e|c].
  - destruct (finish_dir root path dir_stat depth l3 d3 st3)
      as [[[s4 l4] d4] st4] eqn:F.
    pose proof (finish_dir_advances _ _ _ _ _ _ _ _ _ _ _ F)
      as ((_ & _ & W4 & _) & _ & Hn4).
    apply (finish_dir_inv inv (prefix_append _)) in F; [|exact E].
    destruct s4 as [[]|e|c];
      [|destruct Hn4 as [[= ->]|[]]; discriminate|discriminate].
    intros [= <- <- <-]. apply Hfin; [exact F|lia].
  - destruct e; try discriminate.
    intros [= <- <- <-]. apply Hfin; [exact E|].
    cbn [warnings incr_warnings]. lia.
  - discriminate.
Qed.

(** ** Errors of the operating system *)

(** C5, in the code.  A directory whose own stat or listing fails adds
    exactly one warning, returns the zero aggregate and changes nothing
    else; its parent counts it as one directory and goes on with the rest
    of its listing.  A file whose stat fails is not contained in that way:
    it adds one warning, but the [try] that catches its error wraps the
    whole loop, so that the frame returns what it had accumulated before
    that entry, with the records and the state as they were then, whatever
    follows the entry in the listing. *)
Theorem os_error_contained root path depth maxdepth documents st :
  (forall d,
     unreadable d = true ->
     get_tree_attr root path d depth maxdepth documents st
     = (Ret (0, 0, 0, 0), documents, incr_warnings st)) /\
  (forall name sub rest l,
     unreadable sub = true ->
     quit st = false ->
     scan_loop
       (fun p sub documents st =>
          get_tree_attr root p sub (depth + 1) maxdepth documents st)
       path true (EDir name sub :: rest) l documents st
     = scan_loop
         (fun p sub documents st =>
            get_tree_attr root p sub (depth + 1) maxdepth documents st)
         path true rest (add_subdir (0, 0, 0, 0) (count_dir l)) documents
         (incr_warnings st)) /\
  (forall dir_stat before name after l1 d1 st1,
     scan_loop
       (fun p sub documents st =>
          get_tree_attr root p sub (depth + 1) maxdepth documents st)
       path ((0 <? maxdepth) && (depth <? maxdepth)) before init_locals
       documents st = (Ret tt, l1, d1, st1) ->
     get_tree_attr root path
       (Dir (Some dir_stat) (Some (before ++ EFile name None :: after)))
       depth maxdepth documents st
     = (Ret (aggregate l1), d1, incr_warnings st1)).
Proof.
  assert (H1 : forall p dep docs0 st0 d,
             unreadable d = true ->
             get_tree_attr root p d dep maxdepth docs0 st0
             = (Ret (0, 0, 0, 0), docs0, incr_warnings st0)).
  { intros p dep docs0 st0 [[dir_stat|] [contents|]] Hu;
      try discriminate; reflexivity. }
  split; [apply H1|]. split.
  - intros name sub rest l Hu Hq. cbn [scan_loop]. rewrite Hq. cbn [negb andb].
    now rewrite (H1 _ _ _ _ _ Hu).
  - intros dir_stat before name after l1 d1 st1 E.
    cbn [get_tree_attr]. rewrite scan_loop_app, E. reflexivity.
Qed.

(** * Further properties *)

(** ** The replacing decoder *)

(** What [handle_unicode] returns with [ignore_errors] set has the length
    of its argument and holds no lone surrogate, so that the strict call
    accepts it and returns it unchanged; and whenever the strict call
    accepts the argument itself, both calls return the argument. *)
Theorem handle_unicode_fallback f :
  exists g,
    handle_unicode f true = Some g /\
    length g = length f /\
    handle_unicode g false = Some g /\
    handle_unicode g true = Some g /\
    (forall h, handle_unicode f false = Some h -> h = f /\ g = f).
Proof.
  unfold handle_unicode. eexists. split; [reflexivity|].
  assert (Hq : is_surrogate question_mark = false) by reflexivity.
  assert (Hno : List.existsb is_surrogate
                  (List.map (fun c => if is_surrogate c then question_mark else c) f)
                = false).
  { induction f as [|c f IH]; [reflexivity|]. cbn [List.map List.existsb].
    rewrite IH, orb_false_r. destruct (is_surrogate c) eqn:E; auto. }
  assert (Hid : forall f0, List.existsb is_surrogate f0 = false ->
                  List.map (fun c => if is_surrogate c then question_mark else c) f0
                  = f0).
  { induction f0 as [|c f0 IH]; [reflexivity|]. cbn [List.map List.existsb].
    intros [Hc Hf]%orb_false_iff. now rewrite Hc, IH. }
  split; [apply length_map|]. split; [now rewrite Hno|].
  split; [now rewrite Hid|].
  intros h. destruct (List.existsb is_surrogate f) eqn:E; [discriminate|].
  intros [= <-]. split; [reflexivity|]. now apply Hid.
Qed.

(** ** The name caches *)

Lemma get_owner_name_memo uid st :
  uid_name (snd (get_owner_name uid st)) !! uid
    = Some (fst (get_owner_name uid st)) /\
  get_owner_name uid (snd (get_owner_name uid st)) = get_owner_name uid st /\
  (forall other, other <> uid ->
     uid_name (snd (get_owner_name uid st)) !! other = uid_name st !! other) /\
  (forall owner, uid_name st !! uid = Some owner ->
     get_owner_name uid st = (owner, st)) /\
  (uid_name st !! uid = None -> getpwuid uid = None ->
   fst (get_owner_name uid st) = IdNum uid).
Proof.
  unfold get_owner_name.
  destruct (uid_name st !! uid) as [owner|] eqn:E; cbn [fst snd].
  - rewrite E. repeat split; auto; try discriminate. now intros o [= <-].
  - cbn [uid_name set_uid_name]. rewrite lookup_insert_eq.
    repeat split; auto; try discriminate.
    + intros other Hne. now rewrite lookup_insert_ne.
    + now intros _ ->.
Qed.

Lemma get_group_name_memo gid st :
  gid_name (snd (get_group_name gid st)) !! gid
    = Some (fst (get_group_name gid st)) /\
  get_group_name gid (snd (get_group_name gid st)) = get_group_name gid st /\
  (forall other, other <> gid ->
     gid_name (snd (get_group_name gid st)) !! other = gid_name st !! other) /\
  (forall group, gid_name st !! gid = Some group ->
     get_group_name gid st = (group, st)) /\
  (gid_name st !! gid = None -> getgrgid gid = None ->
   fst (get_group_name gid st) = IdNum gid).
Proof.
  unfold get_group_name.
  destruct (gid_name st !! gid) as [group|] eqn:E; cbn [fst snd].
  - rewrite E. repeat split; auto; try discriminate. now intros o [= <-].
  - cbn [gid_name set_gid_name]. rewrite lookup_insert_eq.
    repeat split; auto; try discriminate.
    + intros other Hne. now rewrite lookup_insert_ne.
    + now intros _ ->.
Qed.

(** A lookup of an owner or of a group leaves the name it returns in the
    cache, under the identity asked for, and touches no other entry;
    asking again returns the same name and changes nothing.  A cached name
    is returned as it is; an identity that is neither cached nor known to
    the database is cached and returned as the number itself. *)
Theorem name_lookups_cached id st :
  (uid_name (snd (get_owner_name id st)) !! id
     = Some (fst (get_owner_name id st)) /\
   get_owner_name id (snd (get_owner_name id st)) = get_owner_name id st /\
   (forall other, other <> id ->
      uid_name (snd (get_owner_name id st)) !! other = uid_name st !! other) /\
   (forall owner, uid_name st !! id = Some owner ->
      get_owner_name id st = (owner, st)) /\
   (uid_name st !! id = None -> getpwuid id = None ->
    fst (get_owner_name id st) = IdNum id)) /\
  (gid_name (snd (get_group_name id st)) !! id
     = Some (fst (get_group_name id st)) /\
   get_group_name id (snd (get_group_name id st)) = get_group_name id st /\
   (forall other, other <> id ->
      gid_name (snd (get_group_name id st)) !! other = gid_name st !! other) /\
   (forall group, gid_name st !! id = Some group ->
      get_group_name id st = (group, st)) /\
   (gid_name st !! id = None -> getgrgid id = None ->
    fst (get_group_name id st) = IdNum id)).
Proof.
  split; [apply get_owner_name_memo|apply get_group_name_memo].
Qed.

(** ** Symbolic links *)

Lemma subdir_list_app root before after :
  subdir_list root (before ++ after)
  = subdir_list root before ++ subdir_list root after.
Proof.
  induction before as [|[| |] before IH]; cbn [app subdir_list]; auto.
  now rewrite IH.
Qed.

(** A symbolic link in a listing is as good as absent: a frame ends in the
    same way on the listing with and without it, with the same aggregate,
    the same records and the same globals, and so does a whole crawl of a
    root that holds the link. *)
Theorem symlink_ignored root path dir_stat before name after depth maxdepth
    documents st :
  get_tree_attr root path
    (Dir (Some dir_stat) (Some (before ++ ESymlink name :: after)))
    depth maxdepth documents st
  = get_tree_attr root path (Dir (Some dir_stat) (Some (before ++ after)))
      depth maxdepth documents st /\
  crawl root (Dir (Some dir_stat) (Some (before ++ ESymlink name :: after)))
    maxdepth st
  = crawl root (Dir (Some dir_stat) (Some (before ++ after))) maxdepth st.
Proof.
  assert (H : forall dep md docs st0,
             get_tree_attr root path
               (Dir (Some dir_stat) (Some (before ++ ESymlink name :: after)))
               dep md docs st0
             = get_tree_attr root path
                 (Dir (Some dir_stat) (Some (before ++ after))) dep md docs st0).
  { intros dep md docs st0. cbn [get_tree_attr]. rewrite !scan_loop_app.
    destruct (scan_loop _ path _ before init_locals docs st0)
      as [[[[[]| |] l0] d0] st1]; reflexivity. }
  split; [apply H|].
  unfold crawl, crawl_thread.
  assert (H0 : get_tree_attr root root
             (Dir (Some dir_stat) (Some (before ++ ESymlink name :: after)))
             0 0 [] st
           = get_tree_attr root root
               (Dir (Some dir_stat) (Some (before ++ after))) 0 0 [] st).
  { cbn [get_tree_attr]. rewrite !scan_loop_app.
    destruct (scan_loop _ root _ before init_locals [] st)
      as [[[[[]| |] l0] d0] st1]; reflexivity. }
  rewrite H0, !subdir_list_app. reflexivity.
Qed.

(** ** The depth bound and the quit flag *)

Lemma scan_loop_prune recurse path descend contents :
  forall l documents st,
    descend && negb (quit st) = false ->
    scan_loop recurse path descend contents l documents st
    = scan_loop recurse path descend (List.map prune contents) l documents st.
Proof.
  induction contents as [|e contents IH]; intros l documents st Hd;
    [reflexivity|].
  cbn [List.map scan_loop]. destruct e as [n|n sub|n fstat]; cbn [prune].
  - now apply IH.
  - rewrite Hd. now apply IH.
  - destruct (scan_file path n fstat l documents st)
      as [[[s1 l1] d1] st1] eqn:E.
    apply scan_file_advances in E as ((Hq & _) & _).
    destruct s1 as [[]| |]; try reflexivity.
    apply IH. now rewrite Hq.
Qed.

(** Where the depth bound is reached, where it is not positive, and once
    the quit flag is set, a frame does not look into the directories of
    its listing: they are counted as entries, and what lies behind them,
    readable or not, makes no difference to the result. *)
Theorem no_descent root path dir_stat contents depth maxdepth documents st :
  maxdepth <= 0 \/ maxdepth <= depth \/ quit st = true ->
  get_tree_attr root path (Dir (Some dir_stat) (Some contents)) depth maxdepth
    documents st
  = get_tree_attr root path
      (Dir (Some dir_stat) (Some (List.map prune contents))) depth maxdepth
      documents st.
Proof.
  intros H. cbn [get_tree_attr].
  rewrite (scan_loop_prune _ path _ contents); [reflexivity|].
  destruct H as [H|[H|H]].
  - replace (0 <? maxdepth) with false by (symmetry; apply Z.ltb_ge; lia).
    reflexivity.
  - replace (depth <? maxdepth) with false by (symmetry; apply Z.ltb_ge; lia).
    now rewrite andb_false_r.
  - rewrite H. now rewrite andb_false_r.
Qed.

(** ** The size of the worker's list *)

(** With a positive chunk size, a traversal that starts with fewer records
    in the list than the chunk size ends with fewer than the chunk size:
    the list never outgrows one batch. *)
Theorem documents_below_chunk root path d depth maxdepth documents st
    a documents' st' :
  0 < elastic_chunksize ->
  Z.of_nat (length documents) < elastic_chunksize ->
  get_tree_attr root path d depth maxdepth documents st
    = (Ret a, documents', st') ->
  Z.of_nat (length documents') < elastic_chunksize.
Proof.
  intros Hc Hlen E.
  apply (get_tree_attr_inv
           (fun docs _ => Z.of_nat (length docs) < elastic_chunksize))
    in E; [exact E| |exact Hlen].
  clear. intros data l documents st l' documents' st' Hlen.
  unfold append_document. rewrite length_app, Nat2Z.inj_add. cbn [length].
  destruct (Z.leb_spec elastic_chunksize
              (Z.of_nat (length documents) + Z.of_nat 1)).
  - destruct (begin_bulk_cases (documents ++ [data]) st) as [[_ ->]|[_ ->]];
      intros [= <- <- <-]. simpl. lia.
  - intros [= <- <- <-]. rewrite length_app, Nat2Z.inj_add. exact H.
Qed.

(** With a chunk size of one or less, every record is uploaded the moment
    it is appended: a traversal that starts with an empty list ends with
    an empty list, and each batch it uploads holds one record. *)
Theorem chunk_of_one root path d depth maxdepth st a documents' st' :
  elastic_chunksize <= 1 ->
  get_tree_attr root path d depth maxdepth [] st = (Ret a, documents', st') ->
  documents' = [] /\
  exists batches,
    flushed st' = flushed st ++ batches /\
    Forall (fun b => length b = 1%nat) batches.
Proof.
  intros Hc E.
  apply (get_tree_attr_inv
           (fun docs log =>
              docs = [] /\
              exists batches,
                flushed_log log = flushed st ++ batches /\
                Forall (fun b : list document => length b = 1%nat) batches))
    in E; [exact E| |].
  - clear E. intros data l documents st0 l' documents0 st0'
      (-> & batches & Hl & Hf).
    unfold append_document. cbn [app length].
    replace (elastic_chunksize <=? Z.of_nat 1) with true
      by (symmetry; apply Z.leb_le; simpl; lia).
    destruct (begin_bulk_cases [data] st0) as [[_ ->]|[_ ->]];
      intros [= <- <- <-].
    split; [reflexivity|]. exists (batches ++ [[data]]).
    cbn [es_log log_es]. rewrite flushed_log_app, Hl, <- app_assoc.
    split; [reflexivity|]. apply Forall_app. split; [exact Hf|].
    repeat constructor.
  - split; [reflexivity|]. exists []. rewrite app_nil_r. split; [reflexivity|].
    constructor.
Qed.

(** ** The default index name *)

Lemma forallb_lstrip_char (P : Z -> bool) c s :
  List.forallb P s = true -> List.forallb P (lstrip_char c s) = true.
Proof.
  induction s as [|a s IH]; [reflexivity|]. cbn [lstrip_char].
  destruct (a =? c); [|auto]. cbn [List.forallb].
  intros [_ H]%andb_true_iff. auto.
Qed.

Lemma index_char_lower_replace c :
  index_char
    (lower_char
       (if (if c =? space then underscore else c) =? sep
        then underscore
        else if c =? space then underscore else c)) = true.
Proof.
  unfold space, sep, underscore.
  destruct (Z.eqb_spec c 32) as [->|H1]; [reflexivity|].
  destruct (Z.eqb_spec c 47) as [->|H2]; [reflexivity|].
  unfold index_char, lower_char, sep, space.
  destruct (Z.leb_spec 65 c), (Z.leb_spec c 90); cbn [andb];
    apply negb_true_iff; repeat (apply orb_false_iff; split);
    try (apply Z.eqb_neq; lia);
    apply andb_false_iff; rewrite !Z.leb_gt; lia.
Qed.

Lemma startswith_app p s : startswith (p ++ s) p = true.
Proof.
  induction p as [|c p IH]; [now destruct s|].
  cbn [app startswith]. now rewrite Z.eqb_refl, IH.
Qed.

Lemma is_ascii_replace_char old new s :
  new < 128 -> is_ascii s = true -> is_ascii (replace_char old new s) = true.
Proof.
  intros Hn. unfold is_ascii, replace_char.
  induction s as [|c s IH]; [reflexivity|]. cbn [List.map List.forallb].
  intros [Hc Hs]%andb_true_iff. rewrite (IH Hs), andb_true_r.
  destruct (c =? old); [now apply Z.ltb_lt|exact Hc].
Qed.

(** The name [scan] makes up for the index starts with [scoutfs],
    whatever the path of the root.  For a root path of ASCII code points
    and a time stamp of digits, it holds no separator, no space and no
    upper-case ASCII letter. *)
Theorem default_index_name_chars dir_tree stamp :
  startswith (default_index_name dir_tree stamp) (py "scoutfs") = true /\
  (is_ascii dir_tree = true ->
   List.forallb index_char stamp = true ->
   List.forallb index_char (default_index_name dir_tree stamp) = true).
Proof.
  split; [apply startswith_app|]. intros Ha Hs.
  unfold default_index_name. rewrite !forallb_app.
  apply andb_true_iff. split; [reflexivity|].
  apply andb_true_iff. split; [|apply andb_true_iff; split; [reflexivity|exact Hs]].
  apply forallb_lstrip_char. unfold lower.
  assert (Ha2 : is_ascii (replace_char sep underscore
                            (replace_char space underscore dir_tree)) = true).
  { apply is_ascii_replace_char; [reflexivity|].
    apply is_ascii_replace_char; [reflexivity|exact Ha]. }
  rewrite Ha2. unfold replace_char.
  rewrite !List.map_map. apply forallb_forall. intros x Hx.
  apply in_map_iff in Hx as (c & <- & _). apply index_char_lower_replace.
Qed.

(** ** Elapsed times *)

Lemma format_02d_width z :
  0 <= z < 60 -> length (format_02d z) = 2%nat.
Proof.
  intros Hz.
  assert (H : List.forallb
                (fun n => Nat.eqb (length (format_02d (Z.of_nat n))) 2)
                (List.seq 0 60) = true) by (vm_compute; reflexivity).
  rewrite forallb_forall in H.
  specialize (H (Z.to_nat z)). rewrite Z2Nat.id in H by lia.
  apply Nat.eqb_eq, H, in_seq. lia.
Qed.

(** [get_time] prints a whole number of seconds as days, hours below 24,
    minutes and seconds below 60, none of the three negative, that add up
    to the number again; the minutes and the seconds take two digits
    each, and only the days are negative for a negative number. *)
Theorem get_time_sound seconds :
  exists d h m s,
    get_time seconds
    = format_d d ++ py "d:" ++ format_d h ++ py "h:" ++ format_02d m
      ++ py "m:" ++ format_02d s ++ py "s" /\
    0 <= h < 24 /\ 0 <= m < 60 /\ 0 <= s < 60 /\
    ((d * 24 + h) * 60 + m) * 60 + s = seconds /\
    (0 <= d <-> 0 <= seconds) /\
    length (format_02d m) = 2%nat /\ length (format_02d s) = 2%nat.
Proof.
  unfold get_time, get_time_parts.
  pose proof (Z.mod_pos_bound seconds 60 ltac:(lia)).
  pose proof (Z.mod_pos_bound (seconds / 60) 60 ltac:(lia)).
  pose proof (Z.mod_pos_bound (seconds / 60 / 60) 24 ltac:(lia)).
  pose proof (Z.div_mod seconds 60 ltac:(lia)).
  pose proof (Z.div_mod (seconds / 60) 60 ltac:(lia)).
  pose proof (Z.div_mod (seconds / 60 / 60) 24 ltac:(lia)).
  eexists _, _, _, _. split; [reflexivity|].
  repeat split; try lia; now apply format_02d_width.
Qed.

(** ** Names in the records *)

Lemma after_last_sep_no_sep name :
  List.existsb (Z.eqb sep) name = false -> after_last_sep name = name.
Proof.
  destruct name as [|c name]; [reflexivity|]. cbn [List.existsb after_last_sep].
  intros [Hc Hn]%orb_false_iff. rewrite Hn. rewrite Z.eqb_sym in Hc.
  now rewrite Hc.
Qed.

Lemma after_last_sep_app q name :
  List.existsb (Z.eqb sep) name = false ->
  after_last_sep (q ++ sep :: name) = name.
Proof.
  intros Hn. induction q as [|c q IH].
  - cbn [app after_last_sep]. rewrite Hn. reflexivity.
  - cbn [app after_last_sep]. rewrite existsb_app. cbn [List.existsb].
    rewrite Z.eqb_refl, orb_true_r. exact IH.
Qed.

Lemma valid_name_no_sep name :
  valid_name name = true ->
  List.existsb (Z.eqb sep) name = false /\ startswith name [sep] = false.
Proof.
  unfold valid_name. destruct name as [|c name]; [discriminate|].
  cbn [negb andb List.existsb startswith].
  intros H. apply negb_true_iff in H. split; [exact H|].
  apply orb_false_iff in H as [H _]. rewrite Z.eqb_sym in H. now rewrite H.
Qed.

(** For an entry [name] listed in the directory [path], where [path] ends
    with no separator or consists of separators only, the last component
    of the entry's path is [name] and what is before it is [path]: the
    name of a directory record is the decoded entry name, and the parent
    path of a record is the decoded path of the directory that lists the
    entry. *)
Theorem record_names path name ignore_errors :
  valid_name name = true ->
  endswith_char path sep = false \/ all_sep path = true ->
  basename (path_join path name) = name /\
  dirname (path_join path name) = path /\
  get_dir_name (path_join path name) ignore_errors
    = handle_unicode name ignore_errors /\
  get_parent_path (path_join path name) ignore_errors
    = handle_unicode path ignore_errors.
Proof.
  intros Hv Hp. destruct (valid_name_no_sep _ Hv) as [Hn Hs].
  assert (H : basename (path_join path name) = name /\
              dirname (path_join path name) = path).
  { unfold basename, dirname, path_join. rewrite Hs.
    destruct path as [|c path].
    { cbn [orb app]. rewrite after_last_sep_no_sep by exact Hn.
      rewrite Nat.sub_diag. auto. }
    cbn [orb]. destruct (endswith_char (c :: path) sep) eqn:E.
    - destruct Hp as [Hp|Hp]; [discriminate|].
      destruct (exists_last (l := c :: path) ltac:(discriminate)) as (q & a & Hq).
      rewrite Hq in *. unfold endswith_char in E. rewrite rev_app_distr in E.
      cbn in E. apply Z.eqb_eq in E. subst a.
      rewrite <- app_assoc. cbn [app].
      rewrite after_last_sep_app by exact Hn. split; [reflexivity|].
      replace (length (q ++ sep :: name) - length name)%nat
        with (length (q ++ [sep]) + 0)%nat
        by (rewrite !length_app; cbn [length]; lia).
      replace (q ++ sep :: name) with ((q ++ [sep]) ++ name)
        by (now rewrite <- app_assoc).
      rewrite firstn_app_2. cbn [firstn]. rewrite app_nil_r.
      now rewrite Hp.
    - rewrite after_last_sep_app by exact Hn. split; [reflexivity|].
      replace (length ((c :: path) ++ sep :: name) - length name)%nat
        with (length ((c :: path) ++ [sep]) + 0)%nat
        by (rewrite !length_app; cbn [length]; lia).
      replace ((c :: path) ++ sep :: name) with (((c :: path) ++ [sep]) ++ name)
        by (now rewrite <- app_assoc).
      rewrite firstn_app_2. cbn [firstn]. rewrite app_nil_r.
      unfold endswith_char in E.
      destruct (rev (c :: path)) as [|a r] eqn:R.
      { apply (f_equal (@length Z)) in R. rewrite length_rev in R.
        discriminate. }
      assert (Hns : all_sep ((c :: path) ++ [sep]) = false).
      { unfold all_sep. rewrite forallb_app.
        apply andb_false_iff. left.
        rewrite <- (rev_involutive (c :: path)), R.
        cbn [rev]. rewrite forallb_app. cbn [List.forallb].
        rewrite (Z.eqb_sym sep a), E. now rewrite andb_false_r. }
      rewrite Hns. cbn [negb]. unfold rstrip_char.
      rewrite rev_app_distr, R. cbn [rev app lstrip_char].
      rewrite Z.eqb_refl, E.
      rewrite <- R. apply rev_involutive. }
  destruct H as [Hb Hd]. unfold get_dir_name, get_parent_path.
  now rewrite Hb, Hd.
Qed.

(** ** A crawl without root entry *)

(** A first-level task whose subtree has a positive size adds it onto
    [sizes[root]]; without that entry the task ends with [KeyError],
    unless a rejected upload has ended the process before. *)
Lemma crawl_thread_key_missing root top d maxdepth st s documents' st' :
  sizes st !! root = None ->
  top <> root ->
  0 < agg_size (tree_aggregate (quit st) maxdepth d 1) ->
  crawl_thread root top d 1 maxdepth st = (s, documents', st') ->
  s = Exc KeyError \/ s = Exc ValueError \/ s = OsExit 1.
Proof.
  intros Hnone Hne Hpos. unfold crawl_thread.
  destruct (get_tree_attr root top d 1 maxdepth [] st) as [[s1 d1] st1] eqn:E.
  pose proof (get_tree_attr_advances _ _ _ _ _ _ _ _ _ _ E) as (_ & Hs & Hn).
  specialize (Hs ltac:(lia)).
  destruct s1 as [a|e|c].
  2:{ destruct Hn as [[= ->]|[]]. intros [= <- <- <-]. auto. }
  2:{ destruct Hn as [[=]|Hn]. intros [= <- <- <-]. right; right.
      simpl in Hn. now subst c. }
  apply get_tree_attr_aggregate in E. subst a.
  destruct (tree_aggregate (quit st) maxdepth d 1) as [[[size size_du] fc] dc].
  cbn [agg_size] in Hpos.
  destruct (0 <? Z.of_nat (length d1)).
  - destruct (begin_bulk_cases d1 st1) as [[_ ->]|[_ ->]].
    + cbn [Z.ltb Z.compare]. apply Z.ltb_lt in Hpos. rewrite Hpos.
      cbn [sizes set_sizes add_total_documents log_es].
      rewrite (lookup_insert_ne _ top root) by exact Hne.
      rewrite Hs, Hnone. intros [= <- <- <-]. now left.
    + intros [= <- <- <-]. now right; right.
  - cbn [Z.ltb Z.compare]. apply Z.ltb_lt in Hpos. rewrite Hpos.
    cbn [sizes set_sizes].
    rewrite (lookup_insert_ne _ top root) by exact Hne.
    rewrite Hs, Hnone. intros [= <- <- <-]. now left.
Qed.

Lemma run_subdirs_key_missing root maxdepth tasks :
  Forall (fun t => fst t <> root) tasks ->
  forall st,
    sizes st !! root = None ->
    Exists (fun t => 0 < agg_size (tree_aggregate (quit st) maxdepth (snd t) 1))
      tasks ->
    fst (run_subdirs root maxdepth tasks st) = OsExit 1.
Proof.
  induction 1 as [|[top d] tasks Hne Hf IH]; intros st Hnone Hex.
  - inversion Hex.
  - cbn [run_subdirs].
    destruct (crawl_thread root top d 1 maxdepth st) as [[s1 d1] st1] eqn:E.
    pose proof (crawl_thread_advances _ _ _ _ _ _ _ _ _ E) as ((Hq & _) & Hn).
    destruct s1 as [[]|e|c].
    + apply IH.
      * apply crawl_thread_rollup in E as (_ & E); [|exact Hne].
        now rewrite Hnone in E.
      * apply Exists_cons in Hex as [Hex|Hex].
        -- cbn [snd] in Hex.
           destruct (crawl_thread_key_missing _ _ _ _ _ _ _ _ Hnone Hne Hex E)
             as [|[|]]; discriminate.
        -- now rewrite Hq.
    + reflexivity.
    + destruct Hn as [[=]|[[=]|Hn]]. simpl in Hn. now subst c.
Qed.

(** When the depth-0 pass stores no entry for the root although the root
    holds directories, because the stat of the root or of one of its files
    fails, the crawl cannot add the first subtree of positive size onto
    the missing entry: the [KeyError] of that task ends the process with
    status 1, whatever the order of the tasks. *)
Theorem crawl_without_root_entry root dstat contents maxdepth st :
  (forall tasks, Permutation (order tasks) tasks) ->
  Forall (fun e => valid_name (entry_name e) = true) contents ->
  sizes st !! root = None ->
  dstat = None \/ all_stats_ok contents = false ->
  Exists (fun t => 0 < agg_size (tree_aggregate (quit st) maxdepth (snd t) 1))
    (subdir_list root contents) ->
  fst (crawl root (Dir dstat (Some contents)) maxdepth st) = OsExit 1.
Proof.
  intros Hperm Hnames Hnone Hfail Hex. unfold crawl.
  destruct (crawl_thread root root _ 0 0 st) as [[s1 d1] st1] eqn:E.
  pose proof (crawl_thread_advances _ _ _ _ _ _ _ _ _ E) as ((Hq & _) & Hn).
  destruct s1 as [[]|e|c]; [|reflexivity|].
  2:{ destruct Hn as [[=]|[[=]|Hn]]. simpl in Hn. now subst c. }
  assert (Hs : sizes st1 !! root = None).
  { revert E. unfold crawl_thread.
    destruct (get_tree_attr root root (Dir dstat (Some contents)) 0 0 [] st)
      as [[s0 d0] st0] eqn:G.
    assert (Hs0 : forall a, s0 = Ret a -> sizes st0 = sizes st).
    { intros a ->. revert G. cbn [get_tree_attr].
      destruct dstat as [dir_stat|]; [|now intros [= <- <- <-]].
      destruct Hfail as [[=]|Hfail].
      destruct (scan_loop _ root _ contents init_locals [] st)
        as [[[s2 l2] d2] st2] eqn:L.
      pose proof (frame_loop_complete _ _ _ _ _ _ _ _ _ _ _ _ L) as Hc.
      apply (scan_loop_advances 0) in L as (_ & Hsz & _).
      2:{ clear. induction contents as [|[| |] contents IHc];
            constructor; simpl; auto.
          intros p docs0 st3 s3 docs0' st3' H0.
          apply get_tree_attr_advances in H0 as (Ha0 & Hs0 & Hn0).
          split; [|split]; auto. intros; apply Hs0; lia. }
      destruct s2 as [[]|e|c]; [congruence| |discriminate].
      destruct e; try discriminate. intros [= <- <- <-]. apply Hsz. lia. }
    destruct s0 as [a| |]; [|discriminate..].
    specialize (Hs0 a eq_refl).
    destruct a as [[[size size_du] fc] dc].
    destruct (0 <? Z.of_nat (length d0)).
    - destruct (begin_bulk_cases d0 st0) as [[_ ->]|[_ ->]]; [|discriminate].
      cbn [Z.ltb Z.compare]. intros [= <- <-].
      cbn [sizes add_total_documents log_es]. congruence.
    - cbn [Z.ltb Z.compare]. intros [= <- <-]. congruence. }
  pose proof (run_subdirs_key_missing root maxdepth
                (order (subdir_list root contents))) as R.
  specialize (R ltac:(eapply Permutation_Forall;
                        [symmetry; apply Hperm|];
                        now apply subdir_list_not_root) st1 Hs).
  destruct (run_subdirs root maxdepth (order (subdir_list root contents)) st1)
    as [s2 st2].
  cbn [fst] in R. rewrite R; [reflexivity|].
  rewrite Hq. apply List.Exists_exists in Hex as (t & Hin & Ht).
  apply List.Exists_exists. exists t. split; [|exact Ht].
  eapply Permutation_in; [symmetry; apply Hperm|exact Hin].
Qed.

(** ** The shared counters *)

Lemma files_stat_ok_listing dstat contents :
  files_stat_ok (Dir dstat (Some contents)) = true ->
  all_stats_ok contents = true /\
  Forall (on_subdir (fun sub => files_stat_ok sub = true)) contents.
Proof.
  cbn [files_stat_ok]. intros H. rewrite forallb_forall in H. split.
  - apply forallb_forall. intros [| |n [|]] Hin; auto. apply (H _ Hin).
  - apply List.Forall_forall. intros [| |] Hin; simpl; auto. apply (H _ Hin).
Qed.

Lemma uploaded_log_bulk docs st :
  uploaded (log_es (EsBulk docs) st) = uploaded st + Z.of_nat (length docs).
Proof.
  unfold uploaded, flushed. cbn [es_log log_es].
  rewrite flushed_log_app. cbn [flushed_log].
  rewrite concat_app, length_app. cbn [concat]. rewrite app_nil_r. lia.
Qed.

Lemma same_tallies_refl st : same_tallies st st.
Proof. repeat split. Qed.

Lemma same_tallies_trans st1 st2 st3 :
  same_tallies st1 st2 -> same_tallies st2 st3 -> same_tallies st1 st3.
Proof.
  unfold same_tallies. intros (? & ? & ? & ? & ? & ? & ?) (? & ? & ? & ? & ? & ? & ?).
  repeat split; congruence.
Qed.

Lemma same_tallies_owner uid st :
  same_tallies st (snd (get_owner_name uid st)).
Proof.
  unfold get_owner_name. destruct (uid_name st !! uid); repeat split.
Qed.

Lemma same_tallies_group gid st :
  same_tallies st (snd (get_group_name gid st)).
Proof.
  unfold get_group_name. destruct (gid_name st !! gid); repeat split.
Qed.

Lemma same_tallies_uploaded st st' :
  same_tallies st st' ->
  uploaded st' = uploaded st /\ unclassified st' = unclassified st.
Proof.
  unfold same_tallies, uploaded, flushed, unclassified.
  intros (-> & -> & -> & -> & -> & _ & ->). split; reflexivity.
Qed.

Lemma append_document_shape data l documents st :
  append_document data l documents st
    = (Ret tt, l, documents ++ [data], st) \/
  append_document data l documents st
    = (Ret tt, add_total_docs (Z.of_nat (length (documents ++ [data]))) l, [],
       log_es (EsBulk (documents ++ [data])) st) \/
  append_document data l documents st
    = (OsExit 1, l, documents ++ [data], st).
Proof.
  unfold append_document. destruct (elastic_chunksize <=? _); [|auto].
  destruct (begin_bulk_cases (documents ++ [data]) st) as [[_ ->]|[_ ->]]; auto.
Qed.

Lemma append_document_balance data l documents st s l' documents' st' :
  append_document data l documents st = (s, l', documents', st') ->
  unclassified st' = unclassified st /\ balance l' st' = balance l st.
Proof.
  destruct (append_document_shape data l documents st) as [-> | [-> | ->]];
    intros [= <- <- <- <-]; auto.
  split; [reflexivity|]. unfold balance. rewrite uploaded_log_bulk.
  cbn [filecount dircount skipdircount total_documents log_es
       l_f_count l_file_skip_count l_files l_d_count l_dirs l_total_docs
       add_total_docs].
  repeat (apply pair_equal_spec; split); lia.
Qed.

Lemma scan_file_balance path name fstat l documents st s l' documents' st' :
  scan_file path name fstat l documents st = (s, l', documents', st') ->
  unclassified st' = unclassified st /\
  (s = Ret tt -> balance l' st' = balance l st).
Proof.
  unfold scan_file.
  destruct fstat as [f_stat|].
  2:{ intros [= <- <- <- <-]. split; [reflexivity|discriminate]. }
  destruct (0 <? st_size f_stat).
  2:{ intros [= <- <- <- <-]. split; [reflexivity|]. intros _.
      unfold balance. simpl. repeat (apply pair_equal_spec; split); lia. }
  pose proof (same_tallies_owner (st_uid f_stat) st) as To.
  destruct (get_owner_name (st_uid f_stat) st) as [owner st1]. cbn [snd] in To.
  pose proof (same_tallies_group (st_gid f_stat) st1) as Tg.
  destruct (get_group_name (st_gid f_stat) st1) as [group st2]. cbn [snd] in Tg.
  destruct (decode_file_names_total
              (l_parent_path (add_file (st_size f_stat)
                                (st_blocks f_stat * blocksize) (count_file l)))
              (path_join path name) name) as (p & n & w & ->).
  assert (T : same_tallies st (if w then incr_warnings st2 else st2)).
  { eapply same_tallies_trans; [exact To|].
    eapply same_tallies_trans; [exact Tg|]. destruct w; repeat split. }
  destruct (same_tallies_uploaded _ _ T) as (Tu & Tc).
  destruct (file_data f_stat owner group n p name) as [data|].
  2:{ intros [= <- <- <- <-]. split; [exact Tc|discriminate]. }
  intros H. apply append_document_balance in H as (Hu & Hb).
  split; [congruence|]. intros _. rewrite Hb.
  destruct T as (T1 & T2 & T3 & T4 & T5 & T6 & T7).
  unfold balance. rewrite Tu, T1, T2, T4, T6. simpl.
  repeat (apply pair_equal_spec; split); lia.
Qed.

Lemma scan_loop_balance recurse path descend contents :
  Forall (on_subdir (counts_call recurse)) contents ->
  forall l documents st s l' documents' st',
    scan_loop recurse path descend contents l documents st
      = (s, l', documents', st') ->
    unclassified st' = unclassified st /\
    (Forall (on_subdir (fun sub => files_stat_ok sub = true)) contents ->
     s = Ret tt -> balance l' st' = balance l st).
Proof.
  induction 1 as [|e contents He Hc IH];
    intros l documents st s l' documents' st'.
  - intros [= <- <- <- <-]. auto.
  - cbn [scan_loop]. destruct e as [n|n sub|n fstat].
    + intros H. apply IH in H as (Hu & Hb). split; [exact Hu|].
      intros Hok. apply Forall_cons in Hok as [_ Hok]. auto.
    + assert (Hcd : balance (count_dir l) st = balance l st).
      { unfold balance. simpl. repeat (apply pair_equal_spec; split); lia. }
      destruct (descend && negb (quit st)).
      2:{ intros H. apply IH in H as (Hu & Hb). split; [exact Hu|].
          intros Hok. apply Forall_cons in Hok as [_ Hok].
          intros Hs. now rewrite Hb. }
      destruct (recurse (path_join path n) sub documents st)
        as [[s1 d1] st1] eqn:E.
      apply He in E as (Hu1 & Hr).
      destruct s1 as [agg|e|c];
        [|intros [= <- <- <- <-]; split; [exact Hu1|discriminate]..].
      intros H. apply IH in H as (Hu & Hb). split; [congruence|].
      intros Hok. apply Forall_cons in Hok as [Hsub Hok]. cbn [on_subdir] in Hsub.
      intros Hs. rewrite Hb by assumption.
      destruct (Hr Hsub agg eq_refl) as (R1 & R2 & R3).
      rewrite <- Hcd. destruct agg as [[[sz du] fc] dc].
      cbn [agg_files agg_dirs] in R1, R2. unfold balance.
      cbn [add_subdir l_f_count l_file_skip_count l_files l_d_count l_dirs
           l_total_docs].
      repeat (apply pair_equal_spec; split); lia.
    + destruct (scan_file path n fstat l documents st)
        as [[[s1 l1] d1] st1] eqn:E.
      apply scan_file_balance in E as (Hu1 & Hb1).
      destruct s1 as [[]|e|c];
        [|intros [= <- <- <- <-]; split; [exact Hu1|discriminate]..].
      intros H. apply IH in H as (Hu & Hb). split; [congruence|].
      intros Hok. apply Forall_cons in Hok as [_ Hok].
      intros Hs. rewrite Hb by assumption. now apply Hb1.
Qed.

Lemma finish_dir_balance root path dir_stat depth l documents st
    s l' documents' st' :
  finish_dir root path dir_stat depth l documents st = (s, l', documents', st') ->
  unclassified st' = unclassified st /\
  (s = Ret tt ->
   (filecount st' - l_files l', dircount st' + skipdircount st' - l_dirs l',
    total_documents st' - uploaded st') = balance l st).
Proof.
  unfold finish_dir.
  destruct ((0 <? l_files l) || (0 <? l_dirs l)) eqn:C.
  2:{ apply orb_false_iff in C as [_ C]. intros [= <- <- <- <-].
      split; [unfold unclassified; simpl; lia|]. intros _.
      unfold balance, uploaded, flushed. simpl. rewrite C.
      repeat (apply pair_equal_spec; split); lia. }
  pose proof (same_tallies_owner (st_uid dir_stat) st) as To.
  destruct (get_owner_name (st_uid dir_stat) st) as [owner st1]. cbn [snd] in To.
  pose proof (same_tallies_group (st_gid dir_stat) st1) as Tg.
  destruct (get_group_name (st_gid dir_stat) st1) as [group st2]. cbn [snd] in Tg.
  destruct (decode_dir_names_total path) as (n & p & w & ->).
  assert (T : same_tallies st (if w then incr_warnings st2 else st2)).
  { eapply same_tallies_trans; [exact To|].
    eapply same_tallies_trans; [exact Tg|]. destruct w; repeat split. }
  destruct (same_tallies_uploaded _ _ T) as (Tu & Tc).
  set (st3 := if w then incr_warnings st2 else st2) in *.
  assert (Hl : balance (set_parent_path (Some p) l) st3 = balance l st).
  { destruct T as (T1 & T2 & T3 & T4 & T5 & T6 & T7).
    unfold balance. rewrite Tu, T1, T2, T4, T6. reflexivity. }
  destruct (dir_data dir_stat owner group n p _) as [data|].
  2:{ intros [= <- <- <- <-]. split; [exact Tc|discriminate]. }
  destruct (0 <? depth).
  - destruct (append_document _ _ documents st3) as [[[s1 l1] d1] st4] eqn:E.
    apply append_document_balance in E as (Hu & Hb).
    destruct s1 as [[]|e|c]; intros [= <- <- <- <-];
      try (split; [congruence|discriminate]).
    split; [unfold unclassified in *; simpl; lia|]. intros _.
    rewrite <- Hl, <- Hb. unfold balance, uploaded, flushed. simpl.
    repeat (apply pair_equal_spec; split); lia.
  - intros [= <- <- <- <-].
    split; [unfold unclassified in *; simpl; lia|]. intros _.
    rewrite <- Hl. unfold balance, uploaded, flushed. simpl.
    repeat (apply pair_equal_spec; split); lia.
Qed.

Lemma get_tree_attr_counts root maxdepth d :
  forall path depth documents st s documents' st',
    get_tree_attr root path d depth maxdepth documents st = (s, documents', st') ->
    unclassified st' = unclassified st /\
    (files_stat_ok d = true -> forall a, s = Ret a -> counted st st' a).
Proof.
  assert (Hz : forall st, counted st (incr_warnings st) (0, 0, 0, 0)).
  { intros st. unfold counted, uploaded, flushed. simpl. lia. }
  induction d as [dstat|dstat contents IH] using dir_tree_ind;
    intros path depth documents st s documents' st'; cbn [get_tree_attr];
    destruct dstat as [dir_stat|];
    try (intros [= <- <- <-]; split; [reflexivity|];
         intros _ a [= <-]; now apply Hz).
  destruct (scan_loop _ path _ contents init_locals documents st)
    as [[[s1 l1] d1] st1] eqn:E.
  pose proof (frame_loop_complete _ _ _ _ _ _ _ _ _ _ _ _ E) as Hc.
  apply scan_loop_balance in E as (Hu & Hb).
  2:{ eapply Forall_impl; [exact IH|]. intros [| |]; simpl; auto.
      intros Hsub p docs0 st0 s0 docs0' st0' H0. now apply Hsub in H0. }
  destruct s1 as [[]|e|c].
  - destruct (finish_dir root path dir_stat depth l1 d1 st1)
      as [[[s2 l2] d2] st2] eqn:F.
    pose proof (finish_dir_advances _ _ _ _ _ _ _ _ _ _ _ F) as (_ & _ & Hn).
    apply finish_dir_balance in F as (Hu' & Hb').
    destruct s2 as [[]|e|c]; [|destruct Hn as [[= ->]|[]]|];
      intros [= <- <- <-];
      try (split; [congruence|discriminate]).
    split; [congruence|]. intros Hok a [= <-].
    apply files_stat_ok_listing in Hok as [_ Hok].
    specialize (Hb Hok eq_refl). specialize (Hb' eq_refl).
    rewrite Hb in Hb'. unfold balance in Hb'.
    cbn [init_locals l_f_count l_file_skip_count l_files l_d_count l_dirs
         l_total_docs] in Hb'.
    apply pair_equal_spec in Hb' as [Hb' H3].
    apply pair_equal_spec in Hb' as [H1 H2].
    unfold counted, aggregate. cbn [agg_files agg_dirs]. lia.
  - destruct e; intros [= <- <- <-];
      try (split; [exact Hu|discriminate]).
    split; [exact Hu|]. intros Hok.
    apply files_stat_ok_listing in Hok as [Hok _]. congruence.
  - intros [= <- <- <-]. split; [exact Hu|discriminate].
Qed.

Lemma counted_same_tallies st st1 st2 a :
  counted st st1 a -> same_tallies st1 st2 -> counted st st2 a.
Proof.
  intros (H1 & H2 & H3) T. destruct (same_tallies_uploaded _ _ T) as (Tu & _).
  destruct T as (T1 & T2 & T3 & T4 & T5 & T6 & T7).
  unfold counted. rewrite Tu, T1, T2, T4, T6. auto.
Qed.

Lemma counted_flush st st1 a docs :
  counted st st1 a ->
  counted st
    (add_total_documents (Z.of_nat (length docs)) (log_es (EsBulk docs) st1)) a.
Proof.
  intros (H1 & H2 & H3). pose proof (uploaded_log_bulk docs st1) as U.
  unfold counted, uploaded, flushed in *.
  cbn [filecount dircount skipdircount total_documents es_log
       add_total_documents log_es] in *.
  lia.
Qed.

Lemma counted_add st st1 st2 a b :
  counted st st1 a -> counted st1 st2 b -> counted st st2 (agg_add a b).
Proof.
  destruct a as [[[s1 u1] f1] d1], b as [[[s2 u2] f2] d2].
  unfold counted. cbn [agg_add agg_files agg_dirs]. lia.
Qed.

Lemma crawl_thread_counts root top d depth maxdepth st s documents' st' :
  crawl_thread root top d depth maxdepth st = (s, documents', st') ->
  unclassified st' = unclassified st /\
  (files_stat_ok d = true -> s = Ret tt ->
   counted st st' (tree_aggregate (quit st) maxdepth d depth)).
Proof.
  unfold crawl_thread.
  destruct (get_tree_attr root top d depth maxdepth [] st) as [[s1 d1] st1] eqn:E.
  pose proof (get_tree_attr_counts _ _ _ _ _ _ _ _ _ _ E) as (Hu & Hc).
  destruct s1 as [a|e|c];
    [|intros [= <- <- <-]; split; [exact Hu|discriminate]..].
  pose proof (get_tree_attr_aggregate _ _ _ _ _ _ _ _ _ _ E) as Ha.
  rewrite <- Ha. clear Ha E.
  assert (Hc' : files_stat_ok d = true -> counted st st1 a) by auto.
  clear Hc. destruct a as [[[size size_du] fc] dc].
  set (flushed := if 0 <? Z.of_nat (length d1) then _ else _).
  assert (Hfl : exists s2 d2 st2, flushed = (s2, d2, st2) /\
                 unclassified st2 = unclassified st /\
                 (files_stat_ok d = true ->
                  counted st st2 (size, size_du, fc, dc))).
  { subst flushed. destruct (0 <? Z.of_nat (length d1)).
    - destruct (begin_bulk_cases d1 st1) as [[_ ->]|[_ ->]];
        do 3 eexists; (split; [reflexivity|]); split; auto.
      intros Hok. now apply counted_flush, Hc'.
    - do 3 eexists. split; [reflexivity|]. auto. }
  destruct Hfl as (s2 & d2 & st2 & -> & Hu2 & Hc2).
  destruct s2 as [[]|e|c];
    [|intros [= <- <- <-]; split; [exact Hu2|discriminate]..].
  assert (Hfin : forall st3, same_tallies st2 st3 ->
            unclassified st3 = unclassified st /\
            (files_stat_ok d = true -> Ret tt = Ret tt ->
             counted st st3 (size, size_du, fc, dc))).
  { intros st3 T. destruct (same_tallies_uploaded _ _ T) as (_ & Tu).
    split; [congruence|]. intros Hok _.
    eapply counted_same_tallies; [now apply Hc2|exact T]. }
  destruct (0 <? depth).
  2:{ intros [= <- <- <-]. apply Hfin, same_tallies_refl. }
  destruct (0 <? size).
  2:{ intros [= <- <- <-]. apply Hfin. repeat split. }
  destruct (sizes _ !! root); [destruct (sizes _ !! top)|];
    intros [= <- <- <-];
    try (apply Hfin; repeat split).
  all: split; [|discriminate].
  all: change (unclassified (set_sizes ?m st2)) with (unclassified st2);
    exact Hu2.
Qed.

Lemma run_subdirs_counts root maxdepth tasks :
  forall st s st',
    run_subdirs root maxdepth tasks st = (s, st') ->
    unclassified st' = unclassified st /\
    (Forall (fun t => files_stat_ok (snd t) = true) tasks -> s = Ret tt ->
     counted st st' (subtrees_aggregate (quit st) maxdepth tasks)).
Proof.
  induction tasks as [|[top d] tasks IH]; intros st s st'.
  - intros [= <- <-]. split; [reflexivity|]. intros _ _.
    unfold counted. cbn. lia.
  - cbn [run_subdirs].
    destruct (crawl_thread root top d 1 maxdepth st) as [[s1 d1] st1] eqn:E.
    pose proof (crawl_thread_advances _ _ _ _ _ _ _ _ _ E) as ((Hq & _) & _).
    apply crawl_thread_counts in E as (Hu & Hc).
    destruct s1 as [[]|e|c];
      [|intros [= <- <-]; split; [exact Hu|discriminate]..].
    intros H. apply IH in H as (Hu' & Hc'). split; [congruence|].
    intros Hok Hs. apply Forall_cons in Hok as [Hd Hok]. cbn [snd] in Hd.
    cbn [subtrees_aggregate fold_right snd].
    fold (subtrees_aggregate (quit st) maxdepth tasks).
    eapply counted_add; [now apply Hc|]. rewrite <- Hq. now apply Hc'.
Qed.

Lemma finish_crawl_counts root st :
  unclassified (finish_crawl root st) = unclassified st /\
  filecount (finish_crawl root st) = filecount st /\
  dircount (finish_crawl root st) = dircount st /\
  skipdircount (finish_crawl root st) = skipdircount st /\
  uploaded (finish_crawl root st) = uploaded st /\
  total_documents (finish_crawl root st)
  = total_documents st
    + match sizes st !! root with Some _ => 1 | None => 0 end.
Proof.
  unfold finish_crawl, unclassified, uploaded, flushed.
  destruct (sizes st !! root) as [r|].
  - cbn [filecount skipfilecount dircount skipdircount inodecount
         total_documents es_log log_es add_total_documents].
    rewrite !flushed_log_app. cbn [flushed_log]. rewrite !app_nil_r.
    repeat split; lia.
  - destruct (_ =? 0);
      cbn [filecount skipfilecount dircount skipdircount inodecount
           total_documents es_log log_es set_emptyindex];
      rewrite !flushed_log_app; cbn [flushed_log]; rewrite !app_nil_r;
      repeat split; lia.
Qed.

(** The counters over a whole crawl that runs to its end: before
    [finish_crawl], they have grown by the aggregate of the depth-0 pass
    and by those of the first-level subtrees. *)
Lemma crawl_counts root dstat contents maxdepth st s st' :
  crawl root (Dir dstat (Some contents)) maxdepth st = (s, st') ->
  unclassified st' = unclassified st /\
  (files_stat_ok (Dir dstat (Some contents)) = true ->
   (forall tasks, Permutation (order tasks) tasks) ->
   s = Ret tt ->
   exists st1 st2,
     crawl_thread root root (Dir dstat (Some contents)) 0 0 st
       = (Ret tt, [], st1) /\
     run_subdirs root maxdepth (order (subdir_list root contents)) st1
       = (Ret tt, st2) /\
     st' = finish_crawl root st2 /\
     counted st st1 (tree_aggregate (quit st) 0 (Dir dstat (Some contents)) 0) /\
     counted st1 st2
       (subtrees_aggregate (quit st) maxdepth
          (order (subdir_list root contents)))).
Proof.
  unfold crawl.
  destruct (crawl_thread root root _ 0 0 st) as [[s1 d1] st1] eqn:E.
  pose proof (crawl_thread_advances _ _ _ _ _ _ _ _ _ E) as ((Hq & _) & _).
  pose proof (crawl_thread_counts _ _ _ _ _ _ _ _ _ E) as (Hu & Hc).
  destruct s1 as [[]|e|c];
    [|intros [= <- <-]; split; [exact Hu|discriminate]..].
  destruct (run_subdirs root maxdepth (order (subdir_list root contents)) st1)
    as [s2 st2] eqn:R.
  pose proof (run_subdirs_counts _ _ _ _ _ _ R) as (Hu' & Hc').
  destruct s2 as [[]|e|c];
    [|intros [= <- <-]; split; [congruence|discriminate]..].
  intros [= <- <-]. destruct (finish_crawl_counts root st2) as (Hf & _).
  split; [congruence|]. intros Hok Hperm _.
  assert (d1 = []) as ->.
  { revert E. unfold crawl_thread.
    destruct (get_tree_attr root root _ 0 0 [] st) as [[s0 d0] st0].
    destruct s0 as [[[[size size_du] fc] dc]|e|c]; [|discriminate..].
    destruct (Z.ltb_spec 0 (Z.of_nat (length d0))) as [Hl|Hl].
    - destruct (begin_bulk_cases d0 st0) as [[_ ->]|[_ ->]]; [|discriminate].
      cbn [Z.ltb Z.compare]. now intros [= <- <-].
    - cbn [Z.ltb Z.compare]. intros [= <- <-].
      destruct d0; [reflexivity|]. cbn [length] in Hl. lia. }
  exists st1, st2. split; [reflexivity|]. split; [exact R|].
  split; [reflexivity|]. split; [now apply Hc|].
  rewrite <- Hq. apply Hc'; [|reflexivity].
  apply files_stat_ok_listing in Hok as [_ Hok].
  eapply Permutation_Forall; [symmetry; apply Hperm|].
  clear - Hok. induction Hok as [|[| |] contents He Hc IH]; cbn [subdir_list];
    auto.
Qed.

(** When every file in a directory and below it can be stat-ed, a
    traversal that returns leaves the shared counters in step with the
    aggregate it returns: [filecount] has grown by the files of the
    aggregate, [dircount] and [skipdircount] together by its directories,
    and [total_documents] by the number of records uploaded meanwhile. *)
Theorem counters_follow_aggregate root path d depth maxdepth documents st
    a documents' st' :
  files_stat_ok d = true ->
  get_tree_attr root path d depth maxdepth documents st
    = (Ret a, documents', st') ->
  filecount st' = filecount st + agg_files a /\
  dircount st' + skipdircount st' = dircount st + skipdircount st + agg_dirs a /\
  total_documents st' - total_documents st = uploaded st' - uploaded st.
Proof.
  intros Hok E. apply get_tree_attr_counts in E as (_ & Hc).
  destruct (Hc Hok a eq_refl) as (H1 & H2 & H3). auto with zarith.
Qed.

(** The document count of a crawl is exact: when every file can be
    stat-ed and the crawl runs to its end, [total_documents] has grown by
    the number of records uploaded in batches, plus one for the root
    record when there is one. *)
Theorem documents_counted root dstat contents maxdepth st st' :
  (forall tasks, Permutation (order tasks) tasks) ->
  files_stat_ok (Dir dstat (Some contents)) = true ->
  crawl root (Dir dstat (Some contents)) maxdepth st = (Ret tt, st') ->
  total_documents st' - total_documents st
  = uploaded st' - uploaded st
    + match sizes st' !! root with Some _ => 1 | None => 0 end.
Proof.
  intros Hperm Hok C. apply crawl_counts in C as (_ & C).
  destruct (C Hok Hperm eq_refl)
    as (st1 & st2 & _ & _ & -> & (_ & _ & H1) & (_ & _ & H2)).
  destruct (finish_crawl_counts root st2) as (_ & _ & _ & _ & Hu & Ht).
  rewrite finish_crawl_sizes, Hu, Ht. lia.
Qed.

(** The two file counts of a crawl agree: when every file can be stat-ed
    and the crawl ends with a record for the root, [filecount] has grown
    by the file count of that record, so that the closing [indexinfo]
    document, the last call to the backend, reports the files of the root
    record when [filecount] starts at zero, as [scan] sets it. *)
Theorem index_end_file_count root dstat contents maxdepth st st' r :
  (forall tasks, Permutation (order tasks) tasks) ->
  Forall (fun e => valid_name (entry_name e) = true) contents ->
  files_stat_ok (Dir dstat (Some contents)) = true ->
  sizes st !! root = None ->
  crawl root (Dir dstat (Some contents)) maxdepth st = (Ret tt, st') ->
  sizes st' !! root = Some r ->
  filecount st' = filecount st + sz_file_count r /\
  List.last (es_log st') EsRefresh
  = EsIndexEnd (sz_size r) (sz_size_du r) (filecount st + sz_file_count r)
      (dircount st').
Proof.
  intros Hperm Hnames Hok Hnone C Hr. apply crawl_counts in C as (_ & C).
  destruct (C Hok Hperm eq_refl)
    as (st1 & st2 & E & R & -> & (H1 & _) & (H2 & _)).
  rewrite finish_crawl_sizes in Hr.
  apply crawl_thread_root in E as ((Hq & _) & E).
  apply run_subdirs_rollup in R as (_ & R).
  2:{ eapply Permutation_Forall; [symmetry; apply Hperm|].
      now apply subdir_list_not_root. }
  assert (Hfc : filecount st2 = filecount st + sz_file_count r).
  { destruct E as [E|(r0 & E & _ & _ & E3 & _)]; rewrite E in R.
    - rewrite Hnone in R. congruence.
    - rewrite lookup_insert_eq in R. destruct R as (r' & R & _ & _ & R3).
      rewrite Hr in R. injection R as <-. rewrite Hq in R3.
      cbn [sz_file_count] in R3. cbv zeta in E3. lia. }
  destruct (finish_crawl_counts root st2) as (_ & Hf & Hd & _).
  split; [congruence|].
  unfold finish_crawl in *. rewrite Hr in *.
  cbn [es_log log_es add_total_documents filecount dircount] in *.
  rewrite last_last. now rewrite Hfc.
Qed.

(** ** The directory count of the root record *)

Lemma crawl_thread_dir_count root top d maxdepth st documents' st' :
  top <> root ->
  crawl_thread root top d 1 maxdepth st = (Ret tt, documents', st') ->
  forall r, sizes st !! root = Some r ->
    exists r', sizes st' !! root = Some r' /\
      sz_dir_count r'
      = sz_dir_count r + merged_dirs (quit st) maxdepth [(top, d)].
Proof.
  intros Hne. unfold crawl_thread.
  destruct (get_tree_attr root top d 1 maxdepth [] st) as [[s1 d1] st1] eqn:E.
  pose proof (get_tree_attr_advances _ _ _ _ _ _ _ _ _ _ E) as (_ & Hs & _).
  specialize (Hs ltac:(lia)).
  destruct s1 as [a| |]; [|discriminate..].
  apply get_tree_attr_aggregate in E. subst a.
  cbn [merged_dirs fold_right snd].
  destruct (tree_aggregate (quit st) maxdepth d 1) as [[[size size_du] fc] dc].
  cbn [agg_size agg_dirs].
  set (flushed := if 0 <? Z.of_nat (length d1) then _ else _).
  assert (Hfl : exists s2 d2 st2, flushed = (s2, d2, st2) /\
                 sizes st2 = sizes st1).
  { subst flushed. destruct (0 <? Z.of_nat (length d1)).
    - destruct (begin_bulk d1 st1) as [s2 st2] eqn:B.
      apply begin_bulk_advances in B as (_ & Hbs & _).
      destruct s2; eauto 8.
    - do 3 eexists. split; reflexivity. }
  destruct Hfl as (s2 & d2 & st2 & -> & Hbs).
  destruct s2 as [[]| |]; [|discriminate..].
  cbn [Z.ltb Z.compare]. cbn [sizes set_sizes].
  rewrite (lookup_insert_ne _ top root) by exact Hne.
  rewrite lookup_insert_eq. rewrite Hbs, Hs.
  destruct (0 <? size).
  - intros H r Hr. rewrite Hr in H. injection H as <- <-.
    cbn [sizes set_sizes]. rewrite lookup_insert_eq.
    eexists. split; [reflexivity|].
    destruct (sz_add_fields r size size_du dc fc) as (_ & _ & -> & _).
    cbn [sz_dir_count]. lia.
  - intros [= <- <-] r Hr. cbn [sizes set_sizes].
    rewrite (lookup_insert_ne _ top root) by exact Hne. rewrite ?Hbs, ?Hs.
    exists r. split; [exact Hr|lia].
Qed.

Lemma run_subdirs_dir_count root maxdepth tasks :
  Forall (fun t => fst t <> root) tasks ->
  forall st st',
    run_subdirs root maxdepth tasks st = (Ret tt, st') ->
    forall r, sizes st !! root = Some r ->
      exists r', sizes st' !! root = Some r' /\
        sz_dir_count r' = sz_dir_count r + merged_dirs (quit st) maxdepth tasks.
Proof.
  induction 1 as [|[top d] tasks Hne Hf IH]; intros st st'.
  - intros [= <-] r Hr. exists r. split; [exact Hr|]. cbn. lia.
  - cbn [run_subdirs].
    destruct (crawl_thread root top d 1 maxdepth st) as [[s1 d1] st1] eqn:E.
    destruct s1 as [[]| |]; [|discriminate..].
    pose proof (crawl_thread_advances _ _ _ _ _ _ _ _ _ E) as ((Hq & _) & _).
    intros H r Hr.
    destruct (crawl_thread_dir_count _ _ _ _ _ _ _ Hne E r Hr)
      as (r1 & Hr1 & H1).
    destruct (IH _ _ H r1 Hr1) as (r2 & Hr2 & H2).
    exists r2. split; [exact Hr2|]. rewrite Hq in H2.
    cbn [merged_dirs fold_right fst snd] in H1 |- *.
    fold (merged_dirs (quit st) maxdepth tasks). lia.
Qed.

Lemma merged_dirs_perm q maxdepth l l' :
  Permutation l l' -> merged_dirs q maxdepth l = merged_dirs q maxdepth l'.
Proof.
  induction 1 as [|x l l' _ IH|x y l|l1 l2 l3 _ IH1 _ IH2];
    unfold merged_dirs in *; cbn [fold_right]; lia.
Qed.

(** The directory count of the root record, when a crawl ends with one:
    one for the root itself, one for each directory the root lists, and
    the directories of every first-level subtree of positive size.  What
    lies in a subtree without any file of positive size is not counted,
    since such a subtree is not added to the root entry. *)
Theorem root_dir_count root dstat contents maxdepth st st' r :
  (forall tasks, Permutation (order tasks) tasks) ->
  Forall (fun e => valid_name (entry_name e) = true) contents ->
  sizes st !! root = None ->
  crawl root (Dir dstat (Some contents)) maxdepth st = (Ret tt, st') ->
  sizes st' !! root = Some r ->
  sz_dir_count r
  = 1 + agg_dirs (tree_aggregate (quit st) 0 (Dir dstat (Some contents)) 0)
    + merged_dirs (quit st) maxdepth (subdir_list root contents).
Proof.
  intros Hperm Hnames Hnone. unfold crawl.
  destruct (crawl_thread root root _ 0 0 st) as [[s1 d1] st1] eqn:E.
  destruct s1 as [[]| |]; [|discriminate..].
  apply crawl_thread_root in E as ((Hq & _) & E).
  destruct (run_subdirs root maxdepth (order (subdir_list root contents)) st1)
    as [s2 st2] eqn:R.
  destruct s2 as [[]| |]; [|discriminate..].
  intros [= <-]. rewrite finish_crawl_sizes. intros Hr.
  destruct E as [E|(r0 & E & _ & _ & _ & E4)].
  - apply run_subdirs_rollup in R as (_ & R).
    2:{ eapply Permutation_Forall; [symmetry; apply Hperm|].
        now apply subdir_list_not_root. }
    rewrite E, Hnone in R. congruence.
  - eapply run_subdirs_dir_count in R as (r' & Hr' & R).
    2:{ eapply Permutation_Forall; [symmetry; apply Hperm|].
        now apply subdir_list_not_root. }
    2:{ rewrite E. apply lookup_insert_eq. }
    rewrite Hr in Hr'. injection Hr' as <-.
    rewrite Hq, (merged_dirs_perm _ _ _ _ (Hperm _)) in R.
    cbn [sz_dir_count] in R. cbv zeta in E4. lia.
Qed.

(** ** A walk without depth bound *)

Lemma walk_entries_totals subtree descend contents :
  all_stats_ok contents = true ->
  Forall (on_subdir (fun sub => descend = true /\ subtree sub = tree_totals sub))
    contents ->
  forall dir_stat acc,
    walk_entries subtree descend contents acc
    = (true, agg_add acc (tree_totals (Dir (Some dir_stat) (Some contents)))).
Proof.
  intros Hok Hsub dir_stat. cbn [tree_totals].
  induction Hsub as [|e contents He Hc IH]; intros acc.
  - cbn. destruct acc as [[[s u] f] d]. cbn.
    repeat (apply pair_equal_spec; split); auto; lia.
  - cbn [all_stats_ok List.forallb] in Hok.
    apply andb_true_iff in Hok as [Hok1 Hok].
    fold (all_stats_ok contents) in Hok. specialize (IH Hok).
    cbn [walk_entries fold_right]. destruct e as [n|n sub|n [f_stat|]].
    + apply IH.
    + destruct He as [-> ->]. rewrite IH.
      now rewrite <- !agg_add_assoc.
    + destruct (0 <? st_size f_stat); rewrite IH; [|reflexivity].
      now rewrite <- !agg_add_assoc.
    + discriminate.
Qed.

Lemma height_listing dstat contents :
  Forall (on_subdir (fun sub => 1 + height sub <= height (Dir dstat (Some contents))))
    contents /\
  0 <= height (Dir dstat (Some contents)).
Proof.
  cbn [height]. induction contents as [|e contents [IH IH0]].
  - split; [constructor|cbn; lia].
  - cbn [fold_right]. destruct e as [n|n sub|n fstat].
    + split; [constructor; [exact I|exact IH]|exact IH0].
    + split; [|lia]. constructor; [cbn; lia|].
      eapply Forall_impl; [exact IH|]. intros [| |]; cbn; auto. lia.
    + split; [constructor; [exact I|exact IH]|exact IH0].
Qed.

Lemma height_nonneg d : 0 <= height d.
Proof.
  destruct d as [dstat [contents|]]; [apply height_listing|reflexivity].
Qed.

Lemma tree_aggregate_totals maxdepth d :
  forall depth,
    0 <= depth -> files_stat_ok d = true -> depth + height d <= maxdepth ->
    tree_aggregate false maxdepth d depth = tree_totals d.
Proof.
  induction d as [dstat|dstat contents IH] using dir_tree_ind;
    intros depth Hd Hok Hh; destruct dstat as [dir_stat|]; try reflexivity.
  rewrite tree_aggregate_eq.
  apply files_stat_ok_listing in Hok as [Hok Hsub].
  destruct (height_listing (Some dir_stat) contents) as [Hl _].
  rewrite (walk_entries_totals _ _ _ Hok) with (dir_stat := dir_stat).
  - cbn [snd aggregate init_locals l_size l_size_du l_files l_dirs].
    destruct (tree_totals _) as [[[s u] f] c]. reflexivity.
  - rewrite List.Forall_forall in IH, Hsub, Hl.
    apply List.Forall_forall. intros e Hin.
    specialize (IH e Hin). specialize (Hsub e Hin). specialize (Hl e Hin).
    destruct e as [n|n sub|n fstat]; cbn [on_subdir] in *; auto.
    pose proof (height_nonneg sub). split.
    + rewrite andb_true_r. apply andb_true_iff.
      split; apply Z.ltb_lt; lia.
    + apply IH; [lia|exact Hsub|lia].
Qed.

(** With a depth bound that reaches the lowest directory, the quit flag
    unset and every file open to stat, a traversal that returns does so
    with the totals of the tree: the sizes and the number of all files of
    positive size, and the number of all directories below the starting
    one, skipped and unreadable ones included. *)
Theorem full_walk_totals root path d depth maxdepth documents st
    a documents' st' :
  quit st = false ->
  0 <= depth ->
  files_stat_ok d = true ->
  depth + height d <= maxdepth ->
  get_tree_attr root path d depth maxdepth documents st
    = (Ret a, documents', st') ->
  a = tree_totals d.
Proof.
  intros Hq Hd Hok Hh E. apply get_tree_attr_aggregate in E.
  rewrite Hq in E. rewrite E. now apply tree_aggregate_totals.
Qed.

(** ** The settings of the index *)





(** ** Trees that raise no warning *)

Lemma handle_unicode_strict f :
  no_surrogate f = true -> handle_unicode f false = Some f.
Proof.
  unfold no_surrogate, handle_unicode. intros H%negb_true_iff. now rewrite H.
Qed.

Lemma no_surrogate_app a b :
  no_surrogate (a ++ b) = no_surrogate a && no_surrogate b.
Proof. unfold no_surrogate. now rewrite existsb_app, negb_orb. Qed.

Lemma no_surrogate_rev a : no_surrogate (List.rev a) = no_surrogate a.
Proof.
  induction a as [|c a IH]; [reflexivity|]. cbn [List.rev].
  rewrite no_surrogate_app, IH. unfold no_surrogate. cbn [List.existsb].
  rewrite orb_false_r, negb_orb. apply andb_comm.
Qed.

Lemma no_surrogate_firstn n a :
  no_surrogate a = true -> no_surrogate (List.firstn n a) = true.
Proof.
  intros H. rewrite <- (firstn_skipn n a), no_surrogate_app in H.
  now apply andb_true_iff in H as [H _].
Qed.

Lemma no_surrogate_lstrip c a :
  no_surrogate a = true -> no_surrogate (lstrip_char c a) = true.
Proof.
  induction a as [|x a IH]; [reflexivity|]. cbn [lstrip_char].
  destruct (x =? c); [|auto]. unfold no_surrogate. cbn [List.existsb].
  rewrite negb_orb. intros [_ H]%andb_true_iff. now apply IH.
Qed.

Lemma no_surrogate_after_last_sep a :
  no_surrogate a = true -> no_surrogate (after_last_sep a) = true.
Proof.
  induction a as [|x a IH]; [reflexivity|]. cbn [after_last_sep].
  intros H. assert (Ha : no_surrogate a = true).
  { revert H. unfold no_surrogate. cbn [List.existsb]. rewrite negb_orb.
    now intros [_ H]%andb_true_iff. }
  destruct (List.existsb (Z.eqb sep) a); [auto|]. now destruct (x =? sep).
Qed.

Lemma no_surrogate_dirname p :
  no_surrogate p = true -> no_surrogate (dirname p) = true.
Proof.
  intros H. unfold dirname.
  pose proof (no_surrogate_firstn
                (length p - length (after_last_sep p)) p H) as Hh.
  destruct (negb (all_sep _)); [|exact Hh].
  unfold rstrip_char. rewrite no_surrogate_rev.
  apply no_surrogate_lstrip. now rewrite no_surrogate_rev.
Qed.

Lemma no_surrogate_path_join a b :
  no_surrogate a = true -> no_surrogate b = true ->
  no_surrogate (path_join a b) = true.
Proof.
  intros Ha Hb. unfold path_join. destruct (startswith b [sep]); [exact Hb|].
  destruct (_ || _).
  - now rewrite no_surrogate_app, Ha, Hb.
  - change (sep :: b) with ([sep] ++ b).
    now rewrite !no_surrogate_app, Ha, Hb.
Qed.

Lemma decode_file_names_clean parent_path path name :
  no_surrogate path = true -> no_surrogate name = true ->
  exists p n,
    decode_file_names parent_path (path_join path name) name = Some (p, n, false).
Proof.
  intros Hp Hn. unfold decode_file_names, get_parent_path, get_file_name.
  rewrite (handle_unicode_strict name Hn).
  rewrite (handle_unicode_strict (dirname (path_join path name)))
    by now apply no_surrogate_dirname, no_surrogate_path_join.
  destruct parent_path; eauto.
Qed.

Lemma decode_dir_names_clean path :
  no_surrogate path = true ->
  exists n p, decode_dir_names path = Some (n, p, false).
Proof.
  intros Hp. unfold decode_dir_names, get_dir_name, get_parent_path.
  rewrite (handle_unicode_strict (basename path))
    by now apply no_surrogate_after_last_sep.
  rewrite (handle_unicode_strict (dirname path))
    by now apply no_surrogate_dirname.
  eauto.
Qed.

Lemma scan_file_quiet path name f_stat l documents st s l' documents' st' :
  no_surrogate path = true -> no_surrogate name = true ->
  scan_file path name (Some f_stat) l documents st = (s, l', documents', st') ->
  warnings st' = warnings st.
Proof.
  intros Hp Hn. unfold scan_file.
  destruct (0 <? st_size f_stat); [|now intros [= <- <- <- <-]].
  destruct (get_owner_name_fields (st_uid f_stat) st) as (Wo & _).
  destruct (get_owner_name (st_uid f_stat) st) as [owner st1]. cbn [snd] in Wo.
  destruct (get_group_name_fields (st_gid f_stat) st1) as (Wg & _).
  destruct (get_group_name (st_gid f_stat) st1) as [group st2]. cbn [snd] in Wg.
  destruct (decode_file_names_clean
              (l_parent_path (add_file (st_size f_stat)
                                (st_blocks f_stat * blocksize) (count_file l)))
              path name Hp Hn) as (p & n & ->).
  destruct (file_data f_stat owner group n p name) as [data|];
    [|intros [= <- <- <- <-]; congruence].
  intros H. apply append_document_cases in H as (H & _). congruence.
Qed.

Lemma finish_dir_quiet root path dir_stat depth l documents st
    s l' documents' st' :
  no_surrogate path = true ->
  finish_dir root path dir_stat depth l documents st = (s, l', documents', st') ->
  warnings st' = warnings st.
Proof.
  intros Hp. unfold finish_dir.
  destruct ((0 <? l_files l) || (0 <? l_dirs l));
    [|now intros [= <- <- <- <-]].
  destruct (get_owner_name_fields (st_uid dir_stat) st) as (Wo & _).
  destruct (get_owner_name (st_uid dir_stat) st) as [owner st1]. cbn [snd] in Wo.
  destruct (get_group_name_fields (st_gid dir_stat) st1) as (Wg & _).
  destruct (get_group_name (st_gid dir_stat) st1) as [group st2]. cbn [snd] in Wg.
  destruct (decode_dir_names_clean path Hp) as (n & p & ->).
  destruct (dir_data dir_stat owner group n p _) as [data|];
    [|intros [= <- <- <- <-]; congruence].
  destruct (0 <? depth).
  - destruct (append_document _ _ documents st2) as [[[s1 l1] d1] st3] eqn:E.
    apply append_document_cases in E as (E & _).
    destruct s1; intros [= <- <- <- <-]; cbn [warnings add_counters];
      congruence.
  - intros [= <- <- <- <-]. cbn [warnings add_counters set_sizes]. congruence.
Qed.

Lemma clean_tree_listing dstat contents :
  clean_tree (Dir dstat (Some contents)) = true ->
  all_stats_ok contents = true /\
  Forall (fun e => match e with
                   | ESymlink _ => True
                   | EDir name sub =>
                       no_surrogate name = true /\ clean_tree sub = true
                   | EFile name fstat =>
                       no_surrogate name = true /\ fstat <> None
                   end) contents.
Proof.
  destruct dstat as [dir_stat|]; [|discriminate].
  cbn [clean_tree]. intros H. rewrite forallb_forall in H. split.
  - apply forallb_forall. intros [| |n [|]] Hin; auto. apply (H _ Hin).
  - apply List.Forall_forall. intros [|n sub|n [f_stat|]] Hin; auto;
      specialize (H _ Hin); cbn in H.
    + now apply andb_true_iff in H.
    + split; [exact H|discriminate].
    + discriminate.
Qed.

Lemma scan_loop_quiet recurse path descend contents :
  no_surrogate path = true ->
  Forall (on_subdir (quiet_call recurse)) contents ->
  Forall (fun e => match e with
                   | ESymlink _ => True
                   | EDir name sub =>
                       no_surrogate name = true /\ clean_tree sub = true
                   | EFile name fstat =>
                       no_surrogate name = true /\ fstat <> None
                   end) contents ->
  forall l documents st s l' documents' st',
    scan_loop recurse path descend contents l documents st
      = (s, l', documents', st') ->
    warnings st' = warnings st.
Proof.
  intros Hp Hq Hc. revert Hq.
  induction Hc as [|e contents He Hc IH]; intros Hq;
    intros l documents st s l' documents' st'.
  - now intros [= <- <- <- <-].
  - apply Forall_cons in Hq as [Hqe Hq]. specialize (IH Hq).
    cbn [scan_loop]. destruct e as [n|n sub|n fstat].
    + apply IH.
    + destruct He as [Hn Hsub].
      destruct (descend && negb (quit st)); [|apply IH].
      destruct (recurse (path_join path n) sub documents st)
        as [[s1 d1] st1] eqn:E.
      apply Hqe in E; [|now apply no_surrogate_path_join|exact Hsub].
      destruct s1 as [agg|e|c]; [|now intros [= <- <- <- <-]..].
      intros H. apply IH in H. congruence.
    + destruct He as [Hn Hf]. destruct fstat as [f_stat|]; [|contradiction].
      destruct (scan_file path n (Some f_stat) l documents st)
        as [[[s1 l1] d1] st1] eqn:E.
      apply scan_file_quiet in E; [|assumption..].
      destruct s1 as [[]|e|c]; [|now intros [= <- <- <- <-]..].
      intros H. apply IH in H. congruence.
Qed.

Lemma get_tree_attr_quiet root maxdepth d :
  forall path depth documents st s documents' st',
    no_surrogate path = true -> clean_tree d = true ->
    get_tree_attr root path d depth maxdepth documents st = (s, documents', st') ->
    warnings st' = warnings st.
Proof.
  induction d as [dstat|dstat contents IH] using dir_tree_ind;
    intros path depth documents st s documents' st' Hp Hc;
    destruct dstat as [dir_stat|]; try discriminate.
  cbn [get_tree_attr].
  apply clean_tree_listing in Hc as [Hok Hc].
  destruct (scan_loop _ path _ contents init_locals documents st)
    as [[[s1 l1] d1] st1] eqn:E.
  pose proof (frame_loop_complete _ _ _ _ _ _ _ _ _ _ _ _ E) as Hcomp.
  apply scan_loop_quiet in E; [|exact Hp| |exact Hc].
  2:{ eapply Forall_impl; [exact IH|]. intros [| |]; simpl; auto.
      intros Hsub p docs0 st0 s0 docs0' st0' Hp0 Hc0 H0.
      now apply Hsub in H0. }
  destruct s1 as [[]|e|c].
  - destruct (finish_dir root path dir_stat depth l1 d1 st1)
      as [[[s2 l2] d2] st2] eqn:F.
    pose proof (finish_dir_advances _ _ _ _ _ _ _ _ _ _ _ F) as (_ & _ & Hn).
    apply finish_dir_quiet in F; [|exact Hp].
    destruct s2 as [[]|e|c]; [|destruct Hn as [[= ->]|[]]|];
      intros [= <- <- <-]; congruence.
  - destruct e; try contradiction; [congruence|now intros [= <- <- <-]].
  - now intros [= <- <- <-].
Qed.

Lemma crawl_thread_quiet root top d depth maxdepth st s documents' st' :
  no_surrogate top = true -> clean_tree d = true ->
  crawl_thread root top d depth maxdepth st = (s, documents', st') ->
  warnings st' = warnings st.
Proof.
  intros Hp Hc. unfold crawl_thread.
  destruct (get_tree_attr root top d depth maxdepth [] st) as [[s1 d1] st1] eqn:E.
  apply get_tree_attr_quiet in E; [|assumption..].
  destruct s1 as [[[[size size_du] fc] dc]|e|c];
    [|now intros [= <- <- <-]..].
  set (flushed := if 0 <? Z.of_nat (length d1) then _ else _).
  assert (Hfl : exists s2 d2 st2, flushed = (s2, d2, st2) /\
                 warnings st2 = warnings st1).
  { subst flushed. destruct (0 <? Z.of_nat (length d1)).
    - destruct (begin_bulk_cases d1 st1) as [[_ ->]|[_ ->]];
        do 3 eexists; split; reflexivity.
    - do 3 eexists. split; reflexivity. }
  destruct Hfl as (s2 & d2 & st2 & -> & Hw).
  destruct s2 as [[]|e|c]; [|intros [= <- <- <-]; congruence..].
  destruct (0 <? depth); [|intros [= <- <- <-]; congruence].
  destruct (0 <? size); [|intros [= <- <- <-]; cbn; congruence].
  destruct (sizes _ !! root); [destruct (sizes _ !! top)|];
    intros [= <- <- <-]; cbn [warnings set_sizes]; congruence.
Qed.

Lemma run_subdirs_quiet root maxdepth tasks :
  Forall (fun t => no_surrogate (fst t) = true /\ clean_tree (snd t) = true)
    tasks ->
  forall st s st',
    run_subdirs root maxdepth tasks st = (s, st') ->
    warnings st' = warnings st.
Proof.
  induction 1 as [|[top d] tasks [Hp Hc] Hf IH]; intros st s st'.
  - now intros [= <- <-].
  - cbn [run_subdirs]. cbn [fst snd] in Hp, Hc.
    destruct (crawl_thread root top d 1 maxdepth st) as [[s1 d1] st1] eqn:E.
    apply crawl_thread_quiet in E; [|assumption..].
    destruct s1 as [[]|e|c]; [|now intros [= <- <-]..].
    intros H. apply IH in H. congruence.
Qed.

Lemma crawl_quiet root d maxdepth st :
  no_surrogate root = true -> clean_tree d = true ->
  (forall tasks, Permutation (order tasks) tasks) ->
  warnings (snd (crawl root d maxdepth st)) = warnings st.
Proof.
  intros Hr Hc Hperm.
  destruct d as [dstat [contents|]]; [|reflexivity]. unfold crawl.
  destruct (crawl_thread root root _ 0 0 st) as [[s1 d1] st1] eqn:E.
  apply crawl_thread_quiet in E; [|assumption..].
  destruct s1 as [[]|e|c]; [|exact E..].
  destruct (run_subdirs root maxdepth (order (subdir_list root contents)) st1)
    as [s2 st2] eqn:R.
  apply run_subdirs_quiet in R.
  2:{ eapply Permutation_Forall; [symmetry; apply Hperm|].
      apply clean_tree_listing in Hc as [_ Hc]. clear - Hc Hr.
      induction Hc as [|[n|n sub|n fstat] contents He Hc IH];
        cbn [subdir_list]; auto.
      constructor; [|exact IH]. destruct He as [Hn Hs]. cbn [fst snd].
      split; [now apply no_surrogate_path_join|exact Hs]. }
  destruct s2 as [[]|e|c]; cbn [snd]; [|congruence..].
  unfold finish_crawl. destruct (sizes st2 !! root); [cbn; congruence|].
  destruct (_ =? 0); cbn; congruence.
Qed.

Lemma drain_subdirs_quiet root maxdepth tasks :
  Forall (fun t => no_surrogate (fst t) = true /\ clean_tree (snd t) = true)
    tasks ->
  forall st s st',
    drain_subdirs root maxdepth tasks st = (s, st') ->
    warnings st' = warnings st.
Proof.
  induction 1 as [|[top d] tasks [Hp Hc] Hf IH]; intros st s st'.
  - now intros [= <- <-].
  - cbn [drain_subdirs]. cbn [fst snd] in Hp, Hc.
    destruct (crawl_thread root top d 1 maxdepth st) as [[s1 d1] st1] eqn:E.
    apply crawl_thread_quiet in E; [|assumption..].
    destruct s1 as [[]|e|c]; [| |now intros [= <- <-]];
      intros H; apply IH in H; congruence.
Qed.

Lemma crawl_interrupted_quiet point root d maxdepth st :
  no_surrogate root = true -> clean_tree d = true ->
  (forall tasks, Permutation (order tasks) tasks) ->
  warnings (snd (crawl_interrupted point root d maxdepth st)) = warnings st.
Proof.
  intros Hr Hc Hperm.
  destruct d as [dstat [contents|]]; [|reflexivity]. unfold crawl_interrupted.
  destruct (crawl_thread root root _ 0 0 st) as [[s1 d1] st1] eqn:E.
  apply crawl_thread_quiet in E; [|assumption..].
  destruct point as [|k]; [now destruct s1 as [[]|e|c]|].
  destruct s1 as [[]|e|c]; [|exact E..].
  assert (Hall : Forall (fun t => no_surrogate (fst t) = true /\
                                  clean_tree (snd t) = true)
                   (order (subdir_list root contents))).
  { eapply Permutation_Forall; [symmetry; apply Hperm|].
    apply clean_tree_listing in Hc as [_ Hc]. clear - Hc Hr.
    induction Hc as [|[n|n sub|n fstat] contents He Hc IH];
      cbn [subdir_list]; auto.
    constructor; [|exact IH]. destruct He as [Hn Hs]. cbn [fst snd].
    split; [now apply no_surrogate_path_join|exact Hs]. }
  cbv zeta.
  destruct (run_subdirs root maxdepth
              (firstn k (order (subdir_list root contents))) st1)
    as [s2 st2] eqn:R.
  apply run_subdirs_quiet in R; [|now apply Forall_take].
  destruct s2 as [[]|e|c]; cbn [snd]; [|congruence..].
  destruct (drain_subdirs root maxdepth
              (skipn k (order (subdir_list root contents))) st2)
    as [s3 st3] eqn:D.
  apply drain_subdirs_quiet in D; [|now apply Forall_drop].
  destruct s3 as [[]|e|c]; cbn [snd]; congruence.
Qed.

(** A crawl counts a warning only where something fails: on a tree in
    which every directory can be stat-ed and listed, every file can be
    stat-ed and no name or path holds a lone surrogate, neither a
    traversal nor a whole crawl changes [warnings], however it ends. *)
Theorem clean_tree_no_warning root path d depth maxdepth documents st :
  no_surrogate root = true -> no_surrogate path = true ->
  clean_tree d = true ->
  (forall tasks, Permutation (order tasks) tasks) ->
  warnings (snd (get_tree_attr root path d depth maxdepth documents st))
    = warnings st /\
  warnings (snd (crawl root d maxdepth st)) = warnings st.
Proof.
  intros Hr Hp Hc Hperm. split; [|now apply crawl_quiet].
  destruct (get_tree_attr root path d depth maxdepth documents st)
    as [[s documents'] st'] eqn:E.
  now apply get_tree_attr_quiet in E.
Qed.

(** [scan] ends with status 78 only when something has failed: on such a
    tree, under a root path without lone surrogate, the status is 0 when
    the crawl runs to its end, and never 78. *)
Theorem clean_scan_status index path maxdepth d :
  no_surrogate
    (abspath (if negb (str_eqb path [sep]) then rstrip_char sep path
              else path)) = true ->
  clean_tree d = true ->
  (forall tasks, Permutation (order tasks) tasks) ->
  exit_status (fst (scan index path maxdepth d)) <> 78 /\
  (quit (snd (scan index path maxdepth d)) = true ->
   exit_status (fst (scan index path maxdepth d)) = 0).
Proof.
  intros Hr Hc Hperm. unfold scan.
  destruct connection_ok; cbn [negb]; [|now split].
  destruct (negb _ && negb _); [now split|].
  destruct d as [dstat [contents|]] eqn:D; [|now split].
  destruct (count_entries contents =? 0); [now split|].
  destruct (check_index _); [now split|].
  set (dir_tree := abspath _) in *. set (idx := if str_eqb _ _ then _ else _).
  set (st0 := log_es EsIndexStart _).
  destruct interrupt as [point|].
  { pose proof (crawl_interrupted_quiet point dir_tree
                  (Dir dstat (Some contents)) maxdepth st0 Hr Hc Hperm) as Hw.
    destruct (crawl_interrupted point dir_tree _ maxdepth st0)
      as [s1 st1] eqn:C.
    cbn [snd] in Hw.
    apply crawl_interrupted_cases in C as [(Hq & _) [-> | ->]].
    - cbn [fst snd exit_status]. split; [discriminate|].
      rewrite Hq. discriminate.
    - unfold exit_app. rewrite Hq.
      change (quit st0) with false. cbv iota.
      set (st3 := if emptyindex _ then _ else _).
      assert (W3 : warnings st3 = 0).
      { subst st3. destruct (emptyindex _); cbn [warnings set_quit log_es];
          exact Hw. }
      rewrite W3. cbn. split; [discriminate|reflexivity]. }
  pose proof (crawl_quiet dir_tree (Dir dstat (Some contents)) maxdepth st0
                Hr Hc Hperm) as Hw.
  destruct (crawl dir_tree _ maxdepth st0) as [s1 st1] eqn:C.
  cbn [snd] in Hw.
  apply crawl_cases in C as [[-> (Hq & _)]|(-> & st2 & (Hq & _) & ->)].
  - cbn [fst snd exit_status]. split; [discriminate|].
    rewrite Hq. discriminate.
  - unfold exit_app. rewrite finish_crawl_quit, Hq.
    change (quit st0) with false. cbv iota.
    set (st3 := if emptyindex _ then _ else _).
    assert (W3 : warnings st3 = 0).
    { subst st3. destruct (emptyindex _); cbn [warnings set_quit log_es];
        exact Hw. }
    rewrite W3. cbn. split; [discriminate|reflexivity].
Qed.

(** ** What a traversal gives out *)

(** A traversal that returns has appended to the worker's stream the
    records that [tree_output] reads off the tree, in that order: one for
    each file of positive size and one for each directory below the
    starting depth that holds a file or a directory, up to the first file
    whose stat fails in each listing.  It has added to [warnings] the
    number of warnings that [tree_output] counts, one for each directory
    that cannot be stat-ed or listed, for each listing ended by a file, and
    for each record whose names needed the replacing decoder.  The names
    that the caches give for owners and groups are the same before and
    after. *)
Theorem traversal_output root path d depth maxdepth documents st
    a documents' st' :
  get_tree_attr root path d depth maxdepth documents st
    = (Ret a, documents', st') ->
  stream documents' st'
  = stream documents st ++ tree_docs (quit st) maxdepth st path d depth /\
  warnings st' = warnings st + tree_warnings (quit st) maxdepth st path d depth /\
  names_kept st st'.
Proof.
  intros E.
  apply (get_tree_attr_output _ _ st _ _ _ _ _ _ _ _ (names_kept_refl st))
    in E as (K & S & W).
  split; [exact S|]. split; [exact W|exact K].
Qed.

End Crawl.

(** * Concrete runs *)

(** A small configuration: blocks of 512 bytes, batches of two records, no
    resolvable owner names, time stamps at the epoch, a pool that completes
    its tasks in reverse order, a root whose entries are directories and
    regular files, a [str.lower] that the ASCII paths below never reach,
    and a backend that holds no document of type file or directory. *)
Definition ex_stat (size blocks : Z) : stat_result :=
  {| st_size := size; st_blocks := blocks; st_uid := 0; st_gid := 0;
     st_nlink := 1; st_ino := 7; st_mtime := 0; st_atime := 0;
     st_ctime := 0 |}.

(** [datetime.utcfromtimestamp(t).isoformat()] at the epoch, the one time
    stamp of the files below. *)
Definition ex_isoformat (t : Z) : option pystr :=
  if t =? 0 then Some (py "1970-01-01T00:00:00") else None.

Definition ex_dir (contents : list entry) : dir :=
  Dir (Some (ex_stat 4096 8)) (Some contents).

Definition ex_contents : list entry :=
  [EFile (py "a") (Some (ex_stat 10 1));
   EDir (py "b") (ex_dir [EFile (py "c") (Some (ex_stat 20 1))]);
   EDir (py "e") (ex_dir [EFile (py "f") (Some (ex_stat 5 1))])].

Definition ex_crawl (root : pystr) (d : dir) (maxdepth : Z) (st : state)
  : signal unit * state :=
  crawl 512 2 (fun _ => None) (fun _ => None) (fun _ _ => true) ex_isoformat
    (@List.rev _) (fun _ => 0) root d maxdepth st.

Definition ex_scan (bulk_ok : list es_call -> list document -> bool)
    (connection_ok : bool) (index path : pystr) (d : dir)
  : signal unit * state :=
  scan 512 2 (fun _ => None) (fun _ => None) bulk_ok ex_isoformat (@List.rev _)
    (fun _ => 0) (fun s => s) (fun _ => true) connection_ok (fun p => p)
    (fun _ => false) (py "210101120000") None index path 999 d.

(** C1 on a crawl of three files in two subtrees, the tasks completing in
    reverse order. *)
Lemma root_rollup_sum_witness :
  exists r,
    sizes (snd (ex_crawl (py "/r") (ex_dir ex_contents) 999
                  (init_counters init_state))) !! py "/r" = Some r /\
    sz_size r = 35 /\ sz_size_du r = 1536 /\ sz_file_count r = 3.
Proof.
  set (run := ex_crawl (py "/r") (ex_dir ex_contents) 999
                (init_counters init_state)).
  assert (H : fst run = Ret tt) by (vm_compute; reflexivity).
  destruct (sizes (snd run) !! py "/r") as [r|] eqn:R;
    [|vm_compute in R; discriminate].
  exists r. split; [reflexivity|].
  apply (root_rollup_sum 512 2 (fun _ => None) (fun _ => None)
           (fun _ _ => true) ex_isoformat (@List.rev _) (fun _ => 0) (py "/r")
           (Some (ex_stat 4096 8)) ex_contents 999
           (init_counters init_state) (snd run) r).
  - intros tasks. symmetry. apply Permutation_rev.
  - vm_compute. repeat constructor.
  - vm_compute. reflexivity.
  - rewrite <- H. subst run. unfold ex_crawl, ex_dir.
    destruct (crawl _ _ _ _ _ _ _ _ _ _ _); reflexivity.
  - exact R.
Defined.

(** C7 on a root that holds one file without size. *)
Lemma empty_crawl_witness :
  let st' := snd (ex_crawl (py "/r") (ex_dir [EFile (py "z") (Some (ex_stat 0 0))])
                    999 (init_counters init_state)) in
  emptyindex st' = true /\ es_log st' = [EsRefresh; EsCount; EsDelete].
Proof.
  cbv zeta.
  set (run := ex_crawl (py "/r") (ex_dir [EFile (py "z") (Some (ex_stat 0 0))])
                999 (init_counters init_state)).
  assert (H : run = (Ret tt, snd run)) by (vm_compute; reflexivity).
  assert (N : sizes (snd run) !! py "/r" = None) by (vm_compute; reflexivity).
  destruct (empty_crawl 512 2 (fun _ => None) (fun _ => None)
              (fun _ _ => true) ex_isoformat (@List.rev _) (fun _ => 0) (py "/r") _ 999
              _ _ H N) as (batches & E & L & _).
  split; [exact E|]. vm_compute. reflexivity.
Defined.

Definition ex_get_tree_attr (path : pystr) (d : dir) (depth : Z)
    (documents : list document) (st : state)
  : signal (Z * Z * Z * Z) * list document * state :=
  get_tree_attr 512 2 (fun _ => None) (fun _ => None) (fun _ _ => true) ex_isoformat
    (py "/r") path d depth 999 documents st.

Definition ex_crawl_thread (top : pystr) (d : dir) (depth : Z) (st : state)
  : signal unit * list document * state :=
  crawl_thread 512 2 (fun _ => None) (fun _ => None) (fun _ _ => true) ex_isoformat
    (py "/r") top d depth 999 st.

(** C4 on a worker that gives out five records with a chunk size of two:
    two files, the file and the record of a subdirectory, and a third
    file. *)
Lemma batches_per_worker_witness :
  let d :=
    ex_dir [EFile (py "c") (Some (ex_stat 20 1));
            EFile (py "d") (Some (ex_stat 30 1));
            EDir (py "b") (ex_dir [EFile (py "g") (Some (ex_stat 5 1))]);
            EFile (py "e") (Some (ex_stat 40 1))] in
  let run := ex_crawl_thread (py "/r") d 0 (init_counters init_state) in
  exists batches,
    flushed (snd run) = batches /\ snd (fst run) = [] /\
    concat batches
    = tree_docs 512 (fun _ => None) (fun _ => None) ex_isoformat false 999
        (init_counters init_state) (py "/r") d 0 /\
    List.map (List.map record_name) batches
    = [[py "c"; py "d"]; [py "g"; py "b"]; [py "e"]] /\
    Z.of_nat (length batches) = 3.
Proof.
  cbv zeta.
  set (run := ex_crawl_thread _ _ _ _).
  assert (H : run = (Ret tt, snd (fst run), snd run))
    by (vm_compute; reflexivity).
  destruct (batches_per_worker 512 2 (fun _ => None) (fun _ => None)
              (fun _ _ => true) ex_isoformat _ _ _ _ _ _ _ _ eq_refl H)
    as (batches & F & D & C & _ & _ & L).
  change (flushed (snd run) = batches) in F.
  exists batches. split; [exact F|]. split; [exact D|].
  split; [exact C|]. split; [rewrite <- F|rewrite L]; vm_compute; reflexivity.
Defined.

(** C6 does not hold as stated: the file named [a] followed by the escape
    of an invalid byte has no size, so that it is skipped before its name
    is decoded; the traversal records the file [c] and the directory, and
    counts no warning. *)
Lemma invalid_name_counterexample :
  let bad := [97; 56575] in
  let run :=
    ex_get_tree_attr (py "/r/b")
      (ex_dir [EFile (py "c") (Some (ex_stat 20 1));
               EFile bad (Some (ex_stat 0 0))])
      1 [] (init_counters init_state) in
  get_file_name bad false = None /\
  fst (fst run) = Ret (20, 512, 1, 0) /\
  List.map record_name (stream (snd (fst run)) (snd run)) = [py "c"; py "b"] /\
  warnings (snd run) = 0.
Proof. cbv zeta. repeat split; vm_compute; reflexivity. Qed.

(** C6, as the code has it, on the same file with a size of ten bytes,
    listed between two other files. *)
Lemma invalid_name_still_recorded_witness :
  let bad := [97; 56575] in
  let run :=
    ex_get_tree_attr (py "/r/b")
      (ex_dir [EFile (py "c") (Some (ex_stat 20 1));
               EFile bad (Some (ex_stat 10 1));
               EFile (py "e") (Some (ex_stat 5 1))])
      1 [] (init_counters init_state) in
  exists r before rest,
    stream (snd (fst run)) (snd run) = before ++ FileDoc r :: rest /\
    List.map record_name before = [py "c"] /\
    f_name r = py "a?" /\
    1 <= warnings (snd run).
Proof.
  cbv zeta.
  set (run := ex_get_tree_attr _ _ _ _ _).
  set (pre := scan_loop 512 2 (fun _ => None) (fun _ => None)
                (fun _ _ => true) ex_isoformat
                (fun p sub documents st =>
                   get_tree_attr 512 2 (fun _ => None) (fun _ => None)
                     (fun _ _ => true) ex_isoformat (py "/r") p sub (1 + 1)
                     999 documents st)
                (py "/r/b") ((0 <? 999) && (1 <? 999))
                [EFile (py "c") (Some (ex_stat 20 1))] init_locals []
                (init_counters init_state)).
  assert (Hpre : pre = (Ret tt, snd (fst (fst pre)), snd (fst pre), snd pre))
    by (vm_compute; reflexivity).
  assert (Hrun : run = (Ret (35, 1536, 3, 0), snd (fst run), snd run))
    by (vm_compute; reflexivity).
  destruct (invalid_name_still_recorded 512 2 (fun _ => None) (fun _ => None)
              (fun _ _ => true) ex_isoformat (py "/r") (py "/r/b")
              (ex_stat 4096 8) [EFile (py "c") (Some (ex_stat 20 1))]
              [97; 56575] (ex_stat 10 1)
              [EFile (py "e") (Some (ex_stat 5 1))] 1 999 []
              (init_counters init_state) _ _ _
              eq_refl eq_refl ltac:(discriminate) ltac:(discriminate)
              ltac:(discriminate) Hpre)
    as (r & lossy & s2 & l2 & d2 & st2 & Hl & Hn & _ & _ & _ & _ & _ & _
        & Hframe & _).
  destruct (Hframe _ _ _ Hrun) as ((rest & Hs) & Hw).
  exists r, (stream (snd (fst pre)) (snd pre)), rest.
  split; [exact Hs|]. split; [vm_compute; reflexivity|].
  split; [|exact Hw].
  rewrite Hn. vm_compute in Hl. injection Hl as <-. reflexivity.
Defined.

(** C10 on a directory with one file and one empty subdirectory. *)
Lemma dir_count_includes_self_witness :
  let run :=
    ex_get_tree_attr (py "/r/b")
      (ex_dir [EFile (py "c") (Some (ex_stat 20 1));
               EDir (py "x") (ex_dir [])])
      1 [] (init_counters init_state) in
  fst (fst run) = Ret (20, 512, 1, 1) /\
  exists r earlier,
    stream (snd (fst run)) (snd run) = earlier ++ [DirDoc r] /\
    d_dir_count r = 2.
Proof.
  cbv zeta.
  set (run := ex_get_tree_attr _ _ _ _ _).
  assert (H : run = (Ret (20, 512, 1, 1), snd (fst run), snd run))
    by (vm_compute; reflexivity).
  split; [now rewrite H|].
  destruct (dir_count_includes_self 512 2 (fun _ => None) (fun _ => None)
              (fun _ _ => true) ex_isoformat _ _ _ _ _ _ _ _ _ _ _ H eq_refl
              (or_introl eq_refl)) as (_ & Hd & _).
  destruct (Hd eq_refl) as (r & earlier & Hs & Hc & _).
  exists r, earlier. split; [exact Hs|exact Hc].
Defined.

(** C2 does not hold as stated: a directory with one file without size
    leaves the inode counter and the counter of skipped files one higher
    than the same directory without the file. *)
Lemma zero_size_file_counterexample :
  let with_file :=
    snd (ex_get_tree_attr (py "/r/b")
           (ex_dir [EFile (py "c") (Some (ex_stat 20 1));
                    EFile (py "z") (Some (ex_stat 0 0))])
           1 [] (init_counters init_state)) in
  let without :=
    snd (ex_get_tree_attr (py "/r/b")
           (ex_dir [EFile (py "c") (Some (ex_stat 20 1))])
           1 [] (init_counters init_state)) in
  inodecount with_file = inodecount without + 1 /\
  skipfilecount with_file = skipfilecount without + 1 /\
  ~ (inodecount with_file = inodecount without /\
     skipfilecount with_file = skipfilecount without).
Proof.
  cbv zeta. split; [vm_compute; reflexivity|].
  split; [vm_compute; reflexivity|].
  intros [H _]. vm_compute in H. discriminate.
Qed.

(** C2, as the code has it, on the same directory. *)
Lemma zero_size_file_excluded_witness :
  ex_get_tree_attr (py "/r/b")
    (ex_dir [EFile (py "c") (Some (ex_stat 20 1));
             EFile (py "z") (Some (ex_stat 0 0))])
    1 [] (init_counters init_state)
  = let '(s, documents, st) :=
      ex_get_tree_attr (py "/r/b")
        (ex_dir [EFile (py "c") (Some (ex_stat 20 1))])
        1 [] (init_counters init_state) in
    (s, documents, count_skipped_file 1 st).
Proof.
  set (run := ex_get_tree_attr (py "/r/b")
                (ex_dir [EFile (py "c") (Some (ex_stat 20 1))])
                1 [] (init_counters init_state)).
  assert (H : run = (Ret (20, 512, 1, 0), snd (fst run), snd run))
    by (vm_compute; reflexivity).
  destruct (zero_size_file_excluded 512 2 (fun _ => None) (fun _ => None)
              (fun _ _ => true) ex_isoformat (py "/r") (py "/r/b") (ex_stat 4096 8)
              [EFile (py "c") (Some (ex_stat 20 1))] (py "z") (ex_stat 0 0) []
              1 999 [] (init_counters init_state) _ _ _ eq_refl H)
    as (k & _ & Hk & E).
  rewrite (Hk eq_refl (ex_intro _ _ eq_refl)) in E.
  unfold ex_get_tree_attr, ex_dir. cbn [app] in E. rewrite E.
  rewrite H. reflexivity.
Defined.

(** C3 does not hold as stated: the directory [/r/d] holds no file, and
    its only subdirectory [/r/d/e] is empty and skipped, yet [/r/d] is
    recorded, with the skipped directory in its [dir_count]. *)
Lemma empty_directory_counterexample :
  let st := init_counters init_state in
  let inner := ex_get_tree_attr (py "/r/d/e") (ex_dir []) 2 [] st in
  let outer :=
    ex_get_tree_attr (py "/r/d") (ex_dir [EDir (py "e") (ex_dir [])]) 1 [] st in
  stream (snd (fst inner)) (snd inner) = [] /\
  skipdircount (snd inner) = 1 /\
  fst (fst outer) = Ret (0, 0, 0, 1) /\
  skipdircount (snd outer) = 1 /\
  (exists r, stream (snd (fst outer)) (snd outer) = [DirDoc r] /\
     d_name r = py "d" /\ d_file_count r = 0 /\ d_dir_count r = 2) /\
  stream (snd (fst outer)) (snd outer) <> [].
Proof.
  cbv zeta. repeat split; try (vm_compute; reflexivity).
  - eexists. vm_compute. repeat split; reflexivity.
  - vm_compute. discriminate.
Qed.

(** C3, as the code has it, on a directory with a symbolic link and a file
    without size. *)
Lemma empty_directory_skipped_witness :
  let st := init_counters init_state in
  exists st',
    ex_get_tree_attr (py "/r/d")
      (ex_dir [ESymlink (py "l"); EFile (py "z") (Some (ex_stat 0 0))])
      1 [] st = (Ret (0, 0, 0, 0), [], st') /\
    es_log st' = [] /\ dircount st' = 0 /\ skipdircount st' = 1.
Proof.
  cbv zeta.
  destruct (empty_directory_skipped 512 2 (fun _ => None) (fun _ => None)
              (fun _ _ => true) ex_isoformat (py "/r") (py "/r/d") (ex_stat 4096 8)
              [ESymlink (py "l"); EFile (py "z") (Some (ex_stat 0 0))]
              1 999 [] (init_counters init_state) eq_refl)
    as (st' & E & L & _ & _ & D & S & _).
  { repeat constructor. simpl. lia. }
  exists st'. split; [exact E|]. split; [exact L|]. split; [exact D|exact S].
Defined.

(** C5 fails in the code: in [/r/b] the stat of [a] fails, and the file
    [c] listed after it, which is recorded when [a] is absent, is lost
    together with the record of [/r/b] itself.  When the failing file is
    in the root, no entry is stored for the root, and the crawl ends with
    [os._exit(1)] as soon as a subtree with a size is merged. *)
Lemma os_error_counterexample :
  let st := init_counters init_state in
  let with_error :=
    ex_get_tree_attr (py "/r/b")
      (ex_dir [EFile (py "a") None; EFile (py "c") (Some (ex_stat 20 1))])
      1 [] st in
  let without :=
    ex_get_tree_attr (py "/r/b")
      (ex_dir [EFile (py "c") (Some (ex_stat 20 1))]) 1 [] st in
  let in_root :=
    ex_crawl (py "/r")
      (ex_dir [EFile (py "a") None;
               EDir (py "b") (ex_dir [EFile (py "c") (Some (ex_stat 20 1))])])
      999 st in
  warnings (snd with_error) = 1 /\
  fst (fst with_error) = Ret (0, 0, 0, 0) /\
  fst (fst without) = Ret (20, 512, 1, 0) /\
  stream (snd (fst with_error)) (snd with_error) = [] /\
  List.map record_name (stream (snd (fst without)) (snd without))
  = [py "c"; py "b"] /\
  fst in_root = OsExit 1.
Proof. cbv zeta. repeat split; vm_compute; reflexivity. Qed.

(** C5, as the code has it: what follows the failing entry is not looked
    at. *)
Lemma os_error_contained_witness :
  ex_get_tree_attr (py "/r/b")
    (ex_dir [EFile (py "c") (Some (ex_stat 20 1)); EFile (py "a") None;
             EFile (py "e") (Some (ex_stat 5 1))])
    1 [] (init_counters init_state)
  = ex_get_tree_attr (py "/r/b")
      (ex_dir [EFile (py "c") (Some (ex_stat 20 1)); EFile (py "a") None])
      1 [] (init_counters init_state).
Proof.
  destruct (os_error_contained 512 2 (fun _ => None) (fun _ => None)
              (fun _ _ => true) ex_isoformat (py "/r") (py "/r/b") 1 999 []
              (init_counters init_state)) as (_ & _ & H).
  set (loop := scan_loop 512 2 (fun _ => None) (fun _ => None)
                 (fun _ _ => true) ex_isoformat
                 (fun p sub documents st =>
                    get_tree_attr 512 2 (fun _ => None) (fun _ => None)
                      (fun _ _ => true) ex_isoformat (py "/r") p sub (1 + 1) 999
                      documents st)
                 (py "/r/b") ((0 <? 999) && (1 <? 999))
                 [EFile (py "c") (Some (ex_stat 20 1))] init_locals []
                 (init_counters init_state)).
  assert (E : loop = (Ret tt, snd (fst (fst loop)), snd (fst loop), snd loop))
    by (vm_compute; reflexivity).
  pose proof (H (ex_stat 4096 8) [EFile (py "c") (Some (ex_stat 20 1))]
                (py "a") [EFile (py "e") (Some (ex_stat 5 1))] _ _ _ E) as H1.
  pose proof (H (ex_stat 4096 8) [EFile (py "c") (Some (ex_stat 20 1))]
                (py "a") [] _ _ _ E) as H2.
  cbn [app] in H1, H2. unfold ex_get_tree_attr, ex_dir.
  rewrite H1, H2. reflexivity.
Defined.

(** C8 does not hold as stated: the critical abort of a failed bulk upload
    and the rejection of an index name at startup end the process with
    the same status. *)
Lemma critical_abort_status_counterexample :
  let critical :=
    fst (ex_scan (fun _ _ => false) true (py "scoutfs-r") (py "/r")
           (ex_dir ex_contents)) in
  let startup :=
    fst (ex_scan (fun _ _ => true) true (py "r") (py "/r")
           (ex_dir ex_contents)) in
  critical = OsExit 1 /\ startup = Exc (SystemExit 1) /\
  ~ exit_status critical <> exit_status startup.
Proof.
  cbv zeta. split; [vm_compute; reflexivity|].
  split; [vm_compute; reflexivity|].
  intros H. apply H. vm_compute. reflexivity.
Qed.

(** C8, as the code has it, on a crawl with one warning. *)
Lemma scan_exit_status_witness :
  exit_status
    (fst (ex_scan (fun _ _ => true) true (py "scoutfs-r") (py "/r")
            (ex_dir [EFile (py "a") (Some (ex_stat 10 1));
                     EDir (py "b") (Dir None None)]))) = 78.
Proof.
  destruct (scan_exit_status 512 2 (fun _ => None) (fun _ => None)
              (fun _ _ => true) ex_isoformat (@List.rev _) (fun _ => 0)
              (fun s => s) (fun _ => true) true
              (fun p => p)
              (fun _ => false) (py "210101120000") None (py "scoutfs-r") (py "/r")
              999 (ex_dir [EFile (py "a") (Some (ex_stat 10 1));
                           EDir (py "b") (Dir None None)])) as (H & _).
  unfold ex_scan. rewrite H; vm_compute; reflexivity.
Defined.

(** C9 fails on the code: an index name that merely contains the required
    text is accepted and the index is created under it, and the default
    name is built from ['scoutfs'] without the hyphen. *)
Lemma scan_index_without_prefix :
  let given := py "my-scoutfs-idx" in
  let generated := default_index_name (fun s => s) (py "/mnt/data") (py "210101120000") in
  startswith given required_prefix = false /\
  List.hd_error
    (es_log (snd (ex_scan (fun _ _ => true) true given (py "/mnt/data")
                    (ex_dir ex_contents)))) = Some (EsCreate given) /\
  generated = py "scoutfsmnt_data-210101120000" /\
  startswith generated required_prefix = false /\
  List.hd_error
    (es_log (snd (ex_scan (fun _ _ => true) true default_index (py "/mnt/data")
                    (ex_dir ex_contents)))) = Some (EsCreate generated).
Proof. cbv zeta. repeat split; vm_compute; reflexivity. Qed.

(** * Concrete runs of the further properties *)

(** A frame at the depth bound does not see that a subdirectory cannot be
    read. *)
Lemma no_descent_witness :
  get_tree_attr 512 2 (fun _ => None) (fun _ => None) (fun _ _ => true) ex_isoformat
    (py "/r") (py "/r/b")
    (ex_dir [EDir (py "x") (ex_dir [EFile (py "c") (Some (ex_stat 20 1))])])
    1 1 [] (init_counters init_state)
  = get_tree_attr 512 2 (fun _ => None) (fun _ => None) (fun _ _ => true) ex_isoformat
      (py "/r") (py "/r/b") (ex_dir [EDir (py "x") (Dir None None)])
      1 1 [] (init_counters init_state).
Proof.
  apply (no_descent 512 2 (fun _ => None) (fun _ => None) (fun _ _ => true) ex_isoformat
           (py "/r") (py "/r/b") (ex_stat 4096 8)
           [EDir (py "x") (ex_dir [EFile (py "c") (Some (ex_stat 20 1))])]
           1 1 [] (init_counters init_state)).
  right. left. lia.
Defined.

(** Three records with a chunk size of two leave one record in the
    list. *)
Lemma documents_below_chunk_witness :
  Z.of_nat
    (length
       (snd (fst (ex_get_tree_attr (py "/r/b")
                    (ex_dir [EFile (py "c") (Some (ex_stat 20 1));
                             EFile (py "d") (Some (ex_stat 30 1))])
                    1 [] (init_counters init_state))))) < 2.
Proof.
  set (run := ex_get_tree_attr _ _ _ _ _).
  assert (H : run = (Ret (50, 1024, 2, 0), snd (fst run), snd run))
    by (vm_compute; reflexivity).
  apply (documents_below_chunk 512 2 (fun _ => None) (fun _ => None)
           (fun _ _ => true) ex_isoformat (py "/r") (py "/r/b")
           (ex_dir [EFile (py "c") (Some (ex_stat 20 1));
                    EFile (py "d") (Some (ex_stat 30 1))])
           1 999 [] (init_counters init_state) (50, 1024, 2, 0)
           (snd (fst run)) (snd run) eq_refl eq_refl H).
Defined.

(** The same traversal with a chunk size of one. *)
Lemma chunk_of_one_witness :
  let run :=
    get_tree_attr 512 1 (fun _ => None) (fun _ => None) (fun _ _ => true) ex_isoformat
      (py "/r") (py "/r/b")
      (ex_dir [EFile (py "c") (Some (ex_stat 20 1));
               EFile (py "d") (Some (ex_stat 30 1))])
      1 999 [] (init_counters init_state) in
  snd (fst run) = [] /\
  exists batches,
    flushed (snd run) = batches /\
    Forall (fun b => length b = 1%nat) batches.
Proof.
  cbv zeta.
  set (run := get_tree_attr _ _ _ _ _ _ _ _ _ _ _ _ _).
  assert (H : run = (Ret (50, 1024, 2, 0), snd (fst run), snd run))
    by (vm_compute; reflexivity).
  destruct (chunk_of_one 512 1 (fun _ => None) (fun _ => None)
              (fun _ _ => true) ex_isoformat _ _ _ _ _ _ _ _ _ ltac:(lia) H)
    as (D & batches & F & B).
  split; [exact D|]. exists batches. split; [exact F|exact B].
Defined.

(** The default name for a root with a space and capitals in its path. *)
Lemma default_index_name_chars_witness :
  default_index_name (fun s => s) (py "/mnt/My Data") (py "210101120000")
  = py "scoutfsmnt_my_data-210101120000" /\
  List.forallb index_char
    (default_index_name (fun s => s) (py "/mnt/My Data")
       (py "210101120000")) = true.
Proof.
  split; [vm_compute; reflexivity|].
  apply (default_index_name_chars (fun s => s) (py "/mnt/My Data")
           (py "210101120000")); vm_compute; reflexivity.
Defined.

(** The path of an entry of the root [/] and of a directory below it. *)
Lemma record_names_witness :
  dirname (path_join (py "/") (py "etc")) = py "/" /\
  basename (path_join (py "/mnt/data") (py "a.txt")) = py "a.txt" /\
  dirname (path_join (py "/mnt/data") (py "a.txt")) = py "/mnt/data".
Proof.
  destruct (record_names (py "/") (py "etc") false eq_refl
              (or_intror eq_refl)) as (_ & H1 & _).
  destruct (record_names (py "/mnt/data") (py "a.txt") false eq_refl
              (or_introl eq_refl)) as (H2 & H3 & _).
  split; [exact H1|]. split; [exact H2|exact H3].
Defined.

(** A root with a file whose stat fails and one subtree with a file. *)
Lemma crawl_without_root_entry_witness :
  fst (ex_crawl (py "/r")
         (ex_dir [EFile (py "a") None;
                  EDir (py "b") (ex_dir [EFile (py "c") (Some (ex_stat 20 1))])])
         999 (init_counters init_state)) = OsExit 1.
Proof.
  apply (crawl_without_root_entry 512 2 (fun _ => None) (fun _ => None)
           (fun _ _ => true) ex_isoformat (@List.rev _) (fun _ => 0) (py "/r")
           (Some (ex_stat 4096 8))
           [EFile (py "a") None;
            EDir (py "b") (ex_dir [EFile (py "c") (Some (ex_stat 20 1))])]
           999 (init_counters init_state)).
  - intros tasks. symmetry. apply Permutation_rev.
  - repeat constructor.
  - reflexivity.
  - right. reflexivity.
  - apply Exists_cons_hd. vm_compute. reflexivity.
Defined.

(** The counters after the traversal of a directory with a file, a file
    without size and a subdirectory that holds one file. *)
Lemma counters_follow_aggregate_witness :
  let run :=
    ex_get_tree_attr (py "/r/b")
      (ex_dir [EFile (py "c") (Some (ex_stat 20 1));
               EFile (py "z") (Some (ex_stat 0 0));
               EDir (py "x") (ex_dir [EFile (py "d") (Some (ex_stat 30 1))])])
      1 [] (init_counters init_state) in
  filecount (snd run) = 2 /\
  dircount (snd run) + skipdircount (snd run) = 2 /\
  total_documents (snd run) = uploaded (snd run).
Proof.
  cbv zeta. set (run := ex_get_tree_attr _ _ _ _ _).
  assert (H : run = (Ret (50, 1024, 2, 1), snd (fst run), snd run))
    by (vm_compute; reflexivity).
  destruct (counters_follow_aggregate 512 2 (fun _ => None) (fun _ => None)
              (fun _ _ => true) ex_isoformat (py "/r") (py "/r/b")
              (ex_dir [EFile (py "c") (Some (ex_stat 20 1));
                       EFile (py "z") (Some (ex_stat 0 0));
                       EDir (py "x")
                         (ex_dir [EFile (py "d") (Some (ex_stat 30 1))])])
              1 999 [] (init_counters init_state) (50, 1024, 2, 1)
              (snd (fst run)) (snd run) eq_refl H) as (H1 & H2 & H3).
  split; [exact H1|]. split; [exact H2|].
  change (total_documents (init_counters init_state)) with 0 in H3.
  change (uploaded (init_counters init_state)) with 0 in H3. lia.
Defined.

(** The document count of the crawl of three files in two subtrees: five
    records in batches and the root record. *)
Lemma documents_counted_witness :
  let st' := snd (ex_crawl (py "/r") (ex_dir ex_contents) 999
                    (init_counters init_state)) in
  total_documents st' = uploaded st' + 1 /\ uploaded st' = 5.
Proof.
  cbv zeta.
  set (run := ex_crawl (py "/r") (ex_dir ex_contents) 999
                (init_counters init_state)).
  assert (H : run = (Ret tt, snd run)) by (vm_compute; reflexivity).
  pose proof (documents_counted 512 2 (fun _ => None) (fun _ => None)
                (fun _ _ => true) ex_isoformat (@List.rev _) (fun _ => 0) (py "/r")
                (Some (ex_stat 4096 8)) ex_contents 999
                (init_counters init_state) (snd run)
                (fun tasks => Permutation_sym (Permutation_rev tasks))
                eq_refl H) as C.
  split; [|vm_compute; reflexivity].
  destruct (sizes (snd run) !! py "/r") as [r|] eqn:R;
    [|vm_compute in R; discriminate].
  change (total_documents (init_counters init_state)) with 0 in C.
  change (uploaded (init_counters init_state)) with 0 in C. lia.
Defined.

(** The closing document of the same crawl reports the three files of the
    root record. *)
Lemma index_end_file_count_witness :
  let st' := snd (ex_crawl (py "/r") (ex_dir ex_contents) 999
                    (init_counters init_state)) in
  filecount st' = 3 /\
  List.last (es_log st') EsRefresh = EsIndexEnd 35 1536 3 3.
Proof.
  cbv zeta.
  set (run := ex_crawl (py "/r") (ex_dir ex_contents) 999
                (init_counters init_state)).
  assert (H : run = (Ret tt, snd run)) by (vm_compute; reflexivity).
  destruct (sizes (snd run) !! py "/r") as [r|] eqn:R;
    [|vm_compute in R; discriminate].
  destruct (index_end_file_count 512 2 (fun _ => None) (fun _ => None)
              (fun _ _ => true) ex_isoformat (@List.rev _) (fun _ => 0) (py "/r")
              (Some (ex_stat 4096 8)) ex_contents 999
              (init_counters init_state) (snd run) r
              (fun tasks => Permutation_sym (Permutation_rev tasks))
              ltac:(repeat constructor) eq_refl eq_refl H R) as (H1 & H2).
  split; [|vm_compute; reflexivity].
  rewrite H1. vm_compute in R. injection R as <-. reflexivity.
Defined.

(** The root record of a crawl whose only subtree holds an empty
    directory and no file: the directory behind [b] is not counted. *)
Lemma root_dir_count_witness :
  exists r,
    sizes (snd (ex_crawl (py "/r")
                  (ex_dir [EFile (py "a") (Some (ex_stat 10 1));
                           EDir (py "b") (ex_dir [EDir (py "x") (ex_dir [])])])
                  999 (init_counters init_state))) !! py "/r" = Some r /\
    sz_dir_count r = 2.
Proof.
  set (contents := [EFile (py "a") (Some (ex_stat 10 1));
                    EDir (py "b") (ex_dir [EDir (py "x") (ex_dir [])])]).
  set (run := ex_crawl (py "/r") (ex_dir contents) 999
                (init_counters init_state)).
  assert (H : run = (Ret tt, snd run)) by (vm_compute; reflexivity).
  destruct (sizes (snd run) !! py "/r") as [r|] eqn:R;
    [|vm_compute in R; discriminate].
  exists r. split; [reflexivity|].
  apply (root_dir_count 512 2 (fun _ => None) (fun _ => None)
           (fun _ _ => true) ex_isoformat (@List.rev _) (fun _ => 0) (py "/r")
           (Some (ex_stat 4096 8)) contents 999
           (init_counters init_state) (snd run) r
           (fun tasks => Permutation_sym (Permutation_rev tasks))
           ltac:(repeat constructor) eq_refl H R).
Defined.

(** The totals of a directory with a file, a file without size and a
    subdirectory that holds one file, as a traversal returns them. *)
Lemma full_walk_totals_witness :
  tree_totals 512
    (ex_dir [EFile (py "c") (Some (ex_stat 20 1));
             EFile (py "z") (Some (ex_stat 0 0));
             EDir (py "x") (ex_dir [EFile (py "d") (Some (ex_stat 30 1))])])
  = (50, 1024, 2, 1).
Proof.
  set (d := ex_dir _).
  set (run := ex_get_tree_attr (py "/r/b") d 1 [] (init_counters init_state)).
  assert (H : run = (Ret (50, 1024, 2, 1), snd (fst run), snd run))
    by (vm_compute; reflexivity).
  symmetry.
  apply (full_walk_totals 512 2 (fun _ => None) (fun _ => None)
           (fun _ _ => true) ex_isoformat (py "/r") (py "/r/b") d 1 999 []
           (init_counters init_state) (50, 1024, 2, 1) (snd (fst run))
           (snd run) eq_refl ltac:(lia) eq_refl ltac:(vm_compute; discriminate)
           H).
Defined.


(** The crawl of three files in two subtrees counts no warning. *)
Lemma clean_tree_no_warning_witness :
  warnings (snd (ex_crawl (py "/r") (ex_dir ex_contents) 999
                   (init_counters init_state))) = 0.
Proof.
  apply (clean_tree_no_warning 512 2 (fun _ => None) (fun _ => None)
           (fun _ _ => true) ex_isoformat (@List.rev _) (fun _ => 0) (py "/r") (py "/r")
           (ex_dir ex_contents) 0 999 [] (init_counters init_state)
           eq_refl eq_refl eq_refl
           (fun tasks => Permutation_sym (Permutation_rev tasks))).
Defined.

(** The scan of the same tree ends with status 0. *)
Lemma clean_scan_status_witness :
  exit_status
    (fst (ex_scan (fun _ _ => true) true (py "scoutfs-r") (py "/r")
            (ex_dir ex_contents))) = 0.
Proof.
  apply (clean_scan_status 512 2 (fun _ => None) (fun _ => None)
           (fun _ _ => true) ex_isoformat (@List.rev _) (fun _ => 0)
              (fun s => s) (fun _ => true) true
              (fun p => p)
           (fun _ => false) (py "210101120000") None (py "scoutfs-r") (py "/r")
           999 (ex_dir ex_contents) eq_refl eq_refl
           (fun tasks => Permutation_sym (Permutation_rev tasks))).
  vm_compute. reflexivity.
Defined.

(** A traversal of a directory with a file, a file whose name holds an
    invalid byte, a subdirectory that cannot be listed and a file without
    size: three records and two warnings. *)
Lemma traversal_output_witness :
  let d :=
    ex_dir [EFile (py "c") (Some (ex_stat 20 1));
            EFile [97; 56575] (Some (ex_stat 10 1));
            EDir (py "x") (Dir (Some (ex_stat 4096 8)) None);
            EFile (py "z") (Some (ex_stat 0 0))] in
  let run := ex_get_tree_attr (py "/r/b") d 1 [] (init_counters init_state) in
  List.map record_name (stream (snd (fst run)) (snd run))
  = [py "c"; py "a?"; py "b"] /\
  warnings (snd run) = 2.
Proof.
  cbv zeta.
  set (run := ex_get_tree_attr _ _ _ _ _).
  assert (H : run = (Ret (30, 1024, 2, 1), snd (fst run), snd run))
    by (vm_compute; reflexivity).
  destruct (traversal_output 512 2 (fun _ => None) (fun _ => None)
              (fun _ _ => true) ex_isoformat _ _ _ _ _ _ _ _ _ _ H)
    as (S & W & _).
  split; [rewrite S|rewrite W]; vm_compute; reflexivity.
Defined.
